(** * Schema generator: keyword matcher, validator and formatter

    A shallow embedding of [schemaGenerator.ts]: the catalog of schema
    patterns, [generateSchemas], [validateSchema], [formatSchema] and
    [schemaToString], together with the part of the JavaScript runtime
    they call ([String.prototype.trim], [toLowerCase], [includes],
    [JSON.parse], [JSON.stringify]).

    Strings are [String.string]: a character stands for one UTF-16 code
    unit below 256, so the development covers descriptions and schema
    texts written in Latin-1; a text with an escape above [\u00ff], or
    a letter whose capital lies above 255, is outside of it.  Numbers
    are exact decimals: a literal that a double does not hold exactly is
    outside of it as well. *)

From Stdlib Require Import String Ascii List ZArith Bool Lia Arith.
From Stdlib Require Import DecimalString.
From Stdlib Require DecimalFacts DecimalPos.
Import ListNotations.

Open Scope list_scope.
Open Scope string_scope.
Open Scope nat_scope.

(** ** The string operations of the runtime *)

Module Str.

(** Code-unit classes of ECMAScript, below 256. *)
Definition isWhiteSpace (c : ascii) : bool :=
  let n := nat_of_ascii c in
  ((9 <=? n) && (n <=? 13)) || (n =? 32) || (n =? 160).

Definition isUpperCase (c : ascii) : bool :=
  let n := nat_of_ascii c in
  ((65 <=? n) && (n <=? 90)) ||
  ((192 <=? n) && (n <=? 222) && negb (n =? 215)).

Definition toLowerCaseChar (c : ascii) : ascii :=
  if isUpperCase c then ascii_of_nat (nat_of_ascii c + 32) else c.

(** [s.toLowerCase()] *)
Fixpoint toLowerCase (s : string) : string :=
  match s with
  | EmptyString => EmptyString
  | String c s' => String (toLowerCaseChar c) (toLowerCase s')
  end.

(** [s.trimStart()], [s.trimEnd()] and [s.trim()] *)
Fixpoint trimStart (s : string) : string :=
  match s with
  | EmptyString => EmptyString
  | String c s' => if isWhiteSpace c then trimStart s' else s
  end.

Fixpoint trimEnd (s : string) : string :=
  match s with
  | EmptyString => EmptyString
  | String c s' =>
      match trimEnd s' with
      | EmptyString => if isWhiteSpace c then EmptyString else String c EmptyString
      | t => String c t
      end
  end.

Definition trim (s : string) : string := trimEnd (trimStart s).

(** [s.startsWith(k)] *)
Fixpoint startsWith (s k : string) {struct k} : bool :=
  match k, s with
  | EmptyString, _ => true
  | String _ _, EmptyString => false
  | String a k', String b s' => Ascii.eqb a b && startsWith s' k'
  end.

(** [s.includes(k)]: [k] is found at some position of [s]. *)
Fixpoint includes (s k : string) : bool :=
  startsWith s k ||
  match s with
  | EmptyString => false
  | String _ s' => includes s' k
  end.

(** [array.join(sep)] on strings *)
Fixpoint join (sep : string) (l : list string) : string :=
  match l with
  | [] => ""
  | [x] => x
  | x :: l' => x ++ sep ++ join sep l'
  end.

(** [" ".repeat(n)] *)
Fixpoint spaces (n : nat) : string :=
  match n with
  | O => ""
  | S n' => String " " (spaces n')
  end.

Definition isLowerCase (c : ascii) : bool :=
  let n := nat_of_ascii c in
  ((97 <=? n) && (n <=? 122)) ||
  ((224 <=? n) && (n <=? 254) && negb (n =? 247)).

(** The capital of one code unit.  The sharp s (223) becomes two code
    units; the micro sign (181) and the y with diaeresis (255), whose
    capitals lie above 255, are left as they are: the model does not
    cover them. *)
Definition toUpperCaseChar (c : ascii) : string :=
  if isLowerCase c then String (ascii_of_nat (nat_of_ascii c - 32)) EmptyString
  else if nat_of_ascii c =? 223 then "SS"
  else String c EmptyString.

(** [s.toUpperCase()] *)
Fixpoint toUpperCase (s : string) : string :=
  match s with
  | EmptyString => EmptyString
  | String c s' => toUpperCaseChar c ++ toUpperCase s'
  end.

(** [s.charAt(i)]: the empty string when [i] is out of range. *)
Fixpoint charAt (i : nat) (s : string) : string :=
  match s, i with
  | EmptyString, _ => EmptyString
  | String c _, O => String c EmptyString
  | String _ s', S i' => charAt i' s'
  end.

(** [s.slice(i)] for [i >= 0] *)
Fixpoint slice (i : nat) (s : string) : string :=
  match i, s with
  | O, _ => s
  | S _, EmptyString => EmptyString
  | S i', String _ s' => slice i' s'
  end.

(** [s.split(/\s+/)]: the pieces between the runs of white space;
    [current] is the piece being read, [skipping] says that the last
    character was white space. *)
Fixpoint splitFrom (current : string) (skipping : bool) (s : string) : list string :=
  match s with
  | EmptyString => [current]
  | String c s' =>
      if isWhiteSpace c then
        if skipping then splitFrom EmptyString true s'
        else current :: splitFrom EmptyString true s'
      else splitFrom (current ++ String c EmptyString) false s'
  end.

Definition splitWhiteSpace (s : string) : list string := splitFrom EmptyString false s.

End Str.

(** ** Numbers

    A number is an exact decimal [mantissa * 10 ^ exponent], kept
    normal: the mantissa has no trailing zero, and zero is [0 * 10^0]. *)

Record Number : Set := mkNumber { mantissa : Z; exponent : Z }.

Module Num.

Definition digitValue (c : ascii) : option Z :=
  let n := nat_of_ascii c in
  if (48 <=? n) && (n <=? 57) then Some (Z.of_nat (n - 48)) else None.

Definition isDigit (c : ascii) : bool :=
  match digitValue c with Some _ => true | None => false end.

(** Value of a digit string, most significant digit first. *)
Fixpoint digitsValueFrom (acc : Z) (ds : string) : Z :=
  match ds with
  | EmptyString => acc
  | String c ds' =>
      digitsValueFrom (10 * acc + match digitValue c with Some d => d | None => 0 end) ds'
  end.

Definition digitsValue (ds : string) : Z := digitsValueFrom 0 ds.

(** Drops the zeros at the end of a digit string and counts them. *)
Fixpoint stripTrailingZeros (ds : string) : string * Z :=
  match ds with
  | EmptyString => (EmptyString, 0%Z)
  | String c ds' =>
      match stripTrailingZeros ds' with
      | (EmptyString, n) =>
          if Ascii.eqb c "0" then (EmptyString, (n + 1)%Z) else (String c EmptyString, n)
      | (t, n) => (String c t, n)
      end
  end.

Fixpoint stripLeadingZeros (ds : string) : string :=
  match ds with
  | String c ds' => if Ascii.eqb c "0" then stripLeadingZeros ds' else ds
  | EmptyString => EmptyString
  end.

(** The number written with the digits [ds], scaled by [10 ^ e]. *)
Definition ofDigits (negative : bool) (ds : string) (e : Z) : Number :=
  let '(sig, zeros) := stripTrailingZeros (stripLeadingZeros ds) in
  match sig with
  | EmptyString => mkNumber 0 0
  | _ => mkNumber (if negative then - digitsValue sig else digitsValue sig) (e + zeros)
  end.

Definition digitsOfZ (z : Z) : string :=
  NilZero.string_of_uint (N.to_uint (Z.abs_N z)).

(** An integer literal of the source. *)
Definition ofZ (z : Z) : Number := ofDigits (z <? 0)%Z (digitsOfZ z) 0.

(** Comparison of the exact values. *)
Definition leb (a b : Number) : bool :=
  let e := Z.min (exponent a) (exponent b) in
  (mantissa a * 10 ^ (exponent a - e) <=? mantissa b * 10 ^ (exponent b - e))%Z.

Definition isZero (a : Number) : bool := (mantissa a =? 0)%Z.

Fixpoint zeros (n : nat) : string :=
  match n with
  | O => ""
  | S n' => String "0" (zeros n')
  end.

(** First [n] characters and the rest. *)
Fixpoint splitAt (n : nat) (s : string) : string * string :=
  match n, s with
  | O, _ => (EmptyString, s)
  | S _, EmptyString => (EmptyString, EmptyString)
  | S n', String c s' => let '(a, b) := splitAt n' s' in (String c a, b)
  end.

(** [Number::toString]: with [k] significant digits and the decimal
    point after [n] of them. *)
Definition toString (a : Number) : string :=
  if isZero a then "0" else
  let ds := digitsOfZ (mantissa a) in
  let k := Z.of_nat (String.length ds) in
  let n := (k + exponent a)%Z in
  let sign := if (mantissa a <? 0)%Z then "-" else "" in
  sign ++
  (if (k <=? n)%Z && (n <=? 21)%Z then ds ++ zeros (Z.to_nat (n - k))
   else if (0 <? n)%Z && (n <=? 21)%Z then
     let '(i, f) := splitAt (Z.to_nat n) ds in i ++ "." ++ f
   else if (-6 <? n)%Z && (n <=? 0)%Z then "0." ++ zeros (Z.to_nat (- n)) ++ ds
   else
     let e := (n - 1)%Z in
     let es := (if (e <? 0)%Z then "-" else "+") ++ digitsOfZ e in
     match ds with
     | String d EmptyString => String d EmptyString ++ "e" ++ es
     | String d rest => String d EmptyString ++ "." ++ rest ++ "e" ++ es
     | EmptyString => "0"
     end).

End Num.

(** ** Values

    The values the module builds, prints and parses: the JSON subset of
    JavaScript.  An object keeps its members in property order. *)

Unset Elimination Schemes.

Inductive Json : Set :=
| JNull
| JBool (b : bool)
| JNumber (n : Number)
| JString (s : string)
| JArray (elements : list Json)
| JObject (members : list (string * Json)).

Set Elimination Schemes.

(** [typeof v] *)
Definition typeof (v : Json) : string :=
  match v with
  | JNull => "object"
  | JBool _ => "boolean"
  | JNumber _ => "number"
  | JString _ => "string"
  | JArray _ => "object"
  | JObject _ => "object"
  end.

(** [Array.isArray(v)] *)
Definition Array_isArray (v : Json) : bool :=
  match v with JArray _ => true | _ => false end.

(** [v === null] *)
Definition isNull (v : Json) : bool :=
  match v with JNull => true | _ => false end.

(** Truthiness, as tested by [if (v)]. *)
Definition truthy (v : Json) : bool :=
  match v with
  | JNull => false
  | JBool b => b
  | JNumber n => negb (Num.isZero n)
  | JString s => negb (s =? "")%string
  | JArray _ => true
  | JObject _ => true
  end.

Module Obj.

Definition t : Set := list (string * Json).

(** The own property [k] of [o], [None] when [o] has none: an object is
    the list of its own enumerable properties, in property order.  Its
    prototype is not part of it: [Object.keys], [Object.entries] and
    [JSON.stringify] do not look at it. *)
Fixpoint get (k : string) (o : t) : option Json :=
  match o with
  | [] => None
  | (k', v) :: o' => if (k' =? k)%string then Some v else get k o'
  end.

(** [o] has an own property [k]. *)
Definition has (k : string) (o : t) : bool :=
  match get k o with Some _ => true | None => false end.

(** [Object.keys(o)] *)
Definition keys (o : t) : list string := map fst o.

(** A key that is an array index: the canonical decimal form of an
    integer below [2^32 - 1].  Such keys come first in property order,
    in ascending order. *)
Definition arrayIndex (k : string) : option Z :=
  match k with
  | EmptyString => None
  | String c rest =>
      if forallb Num.isDigit (list_ascii_of_string k)
         && (negb (Ascii.eqb c "0") || (rest =? "")%string)
         && (String.length k <=? 10)
         && (Num.digitsValue k <? 4294967295)%Z
      then Some (Num.digitsValue k) else None
  end.

Fixpoint replace (k : string) (v : Json) (o : t) : t :=
  match o with
  | [] => []
  | (k', v') :: o' =>
      if (k' =? k)%string then (k', v) :: o' else (k', v') :: replace k v o'
  end.

Fixpoint add (k : string) (v : Json) (o : t) : t :=
  match o with
  | [] => [(k, v)]
  | (k', v') :: o' =>
      match arrayIndex k, arrayIndex k' with
      | Some i, Some j =>
          if (i <? j)%Z then (k, v) :: o else (k', v') :: add k v o'
      | Some _, None => (k, v) :: o
      | None, _ => (k', v') :: add k v o'
      end
  end.

(** The own property [k] of [o] set to [v]: an existing property keeps
    its place. *)
Definition set (k : string) (v : Json) (o : t) : t :=
  if has k o then replace k v o else add k v o.

(** The key of the accessor that an ordinary object inherits from
    [Object.prototype]. *)
Definition isProtoKey (k : string) : bool := (k =? "__proto__")%string.

(** [o[k] = v] on an ordinary object that has no own property
    "__proto__": for that key the assignment runs the inherited setter,
    which replaces the prototype of [o] and creates no property; for
    any other key it sets the own property. *)
Definition assign (k : string) (v : Json) (o : t) : t :=
  if isProtoKey k then o else set k v o.

End Obj.

(** ** [createSchema] *)

Record SchemaSet : Set := { input : Json; output : Json }.

(** The descriptor of one field, as the object literals of the catalog
    give it: [items], [minimum] and [maximum] may be absent. *)
Record FieldSpec : Set := {
  type : string;
  description : string;
  items : option Json;
  minimum : option Number;
  maximum : option Number
}.

Definition field (ty desc : string) : FieldSpec :=
  {| type := ty; description := desc; items := None; minimum := None; maximum := None |}.

Definition withItems (i : Json) (f : FieldSpec) : FieldSpec :=
  {| type := type f; description := description f; items := Some i;
     minimum := minimum f; maximum := maximum f |}.

Definition withMinimum (m : Z) (f : FieldSpec) : FieldSpec :=
  {| type := type f; description := description f; items := items f;
     minimum := Some (Num.ofZ m); maximum := maximum f |}.

Definition withMaximum (m : Z) (f : FieldSpec) : FieldSpec :=
  {| type := type f; description := description f; items := items f;
     minimum := minimum f; maximum := Some (Num.ofZ m) |}.

(** The body of the reducer: the schema of one field. *)
Definition fieldSchema (value : FieldSpec) : Obj.t :=
  let o := [("type", JString (type value)); ("description", JString (description value))] in
  let o := match items value with
           | Some i => if truthy i then Obj.set "items" i o else o
           | None => o
           end in
  let o := match minimum value with
           | Some m => Obj.set "minimum" (JNumber m) o
           | None => o
           end in
  match maximum value with
  | Some m => Obj.set "maximum" (JNumber m) o
  | None => o
  end.

(** [properties] lists the entries of the descriptor, as
    [Object.entries] gives them; the accumulator of the reducer starts
    as an empty ordinary object. *)
Definition createSchema (properties : list (string * FieldSpec)) (required : list string) : Json :=
  JObject
    [ ("type", JString "object");
      ("properties",
        JObject (fold_left (fun acc entry =>
                   let '(key, value) := entry in
                   Obj.assign key (JObject (fieldSchema value)) acc)
                 properties []));
      ("required", JArray (map JString required)) ].

(** ** The catalog *)

Record SchemaPattern : Type := {
  keywords : list string;
  priority : Z;
  generator : unit -> SchemaSet
}.

Definition fraudPattern : SchemaPattern := {|
  keywords := ["fraud"; "fraudulent"; "scam"; "spam"; "phishing"; "fake"];
  priority := 10;
  generator := fun _ => {|
    input := createSchema
      [ ("text_content", field "string" "The text content to analyze");
        ("sender_email", field "string" "Email address of the sender");
        ("subject", field "string" "Email or message subject");
        ("metadata", field "object" "Additional contextual information") ]
      ["text_content"];
    output := createSchema
      [ ("is_fraudulent", field "boolean" "Whether the content is fraudulent");
        ("confidence", withMaximum 1 (withMinimum 0
           (field "number" "Confidence score between 0 and 1")));
        ("risk_factors", withItems (JObject [("type", JString "string")])
           (field "array" "List of identified risk factors"));
        ("severity", field "string" "Risk level: low, medium, high") ]
      ["is_fraudulent"; "confidence"] |}
|}.

Definition churnPattern : SchemaPattern := {|
  keywords := ["churn"; "retention"; "attrition"; "cancel"; "unsubscribe"];
  priority := 10;
  generator := fun _ => {|
    input := createSchema
      [ ("customer_id", field "string" "Unique customer identifier");
        ("days_active", withMinimum 0 (field "integer" "Number of days as customer"));
        ("engagement_score", withMaximum 100 (withMinimum 0
           (field "number" "Engagement metric")));
        ("last_activity_days", withMinimum 0 (field "integer" "Days since last activity"));
        ("support_tickets", withMinimum 0
           (field "integer" "Number of support tickets filed")) ]
      ["customer_id"; "days_active"];
    output := createSchema
      [ ("will_churn", field "boolean" "Predicted churn likelihood");
        ("churn_probability", withMaximum 1 (withMinimum 0
           (field "number" "Probability between 0 and 1")));
        ("churn_date_estimate", field "string" "Estimated date of churn (ISO 8601)");
        ("retention_factors", withItems (JObject [("type", JString "string")])
           (field "array" "Factors affecting retention")) ]
      ["will_churn"; "churn_probability"] |}
|}.

Definition sentimentPattern : SchemaPattern := {|
  keywords := ["sentiment"; "emotion"; "feeling"; "opinion"; "review"];
  priority := 9;
  generator := fun _ => {|
    input := createSchema
      [ ("text", field "string" "Text to analyze for sentiment");
        ("language", field "string" "Language code (e.g., en, es)");
        ("context", field "string" "Additional context about the text") ]
      ["text"];
    output := createSchema
      [ ("sentiment", field "string"
           "Sentiment classification: positive, negative, or neutral");
        ("score", withMaximum 1 (withMinimum (-1)
           (field "number" "Sentiment score between -1 and 1")));
        ("confidence", withMaximum 1 (withMinimum 0
           (field "number" "Confidence in prediction")));
        ("emotions", field "object" "Breakdown of detected emotions") ]
      ["sentiment"; "score"] |}
|}.

Definition classifyPattern : SchemaPattern := {|
  keywords := ["classify"; "classification"; "categorize"; "category"; "label"; "tag"];
  priority := 8;
  generator := fun _ => {|
    input := createSchema
      [ ("text", field "string" "Text to classify");
        ("features", field "object" "Additional features for classification");
        ("metadata", field "object" "Contextual metadata") ]
      ["text"];
    output := createSchema
      [ ("category", field "string" "Predicted category");
        ("confidence", withMaximum 1 (withMinimum 0 (field "number" "Confidence score")));
        ("all_categories", withItems (JObject [("type", JString "object")])
           (field "array" "All possible categories with scores"));
        ("reasoning", field "string" "Explanation of classification") ]
      ["category"; "confidence"] |}
|}.

Definition pricePattern : SchemaPattern := {|
  keywords := ["price"; "pricing"; "cost"; "estimate"; "valuation"; "worth"];
  priority := 9;
  generator := fun _ => {|
    input := createSchema
      [ ("features", field "object" "Relevant features (size, location, etc.)");
        ("category", field "string" "Item category");
        ("condition", field "string" "Item condition");
        ("market_data", field "object" "Current market conditions") ]
      ["features"; "category"];
    output := createSchema
      [ ("predicted_price", withMinimum 0 (field "number" "Estimated price"));
        ("price_range_min", withMinimum 0 (field "number" "Minimum price estimate"));
        ("price_range_max", withMinimum 0 (field "number" "Maximum price estimate"));
        ("confidence_interval", withMaximum 1 (withMinimum 0
           (field "number" "Confidence level"))) ]
      ["predicted_price"] |}
|}.

Definition recommendPattern : SchemaPattern := {|
  keywords := ["recommend"; "recommendation"; "suggest"; "personalize"];
  priority := 8;
  generator := fun _ => {|
    input := createSchema
      [ ("user_id", field "string" "User identifier");
        ("user_preferences", field "object" "User preferences and history");
        ("context", field "object" "Current context (time, location, etc.)");
        ("num_recommendations", withMinimum 1
           (field "integer" "Number of recommendations")) ]
      ["user_id"];
    output := createSchema
      [ ("recommendations", withItems (JObject [("type", JString "object")])
           (field "array" "List of recommended items"));
        ("scores", withItems (JObject [("type", JString "number")])
           (field "array" "Relevance scores for each item"));
        ("reasoning", field "object" "Explanation for recommendations");
        ("diversity_score", withMaximum 1 (withMinimum 0
           (field "number" "Recommendation diversity"))) ]
      ["recommendations"] |}
|}.

Definition anomalyPattern : SchemaPattern := {|
  keywords := ["anomaly"; "outlier"; "abnormal"; "unusual"; "detect"];
  priority := 8;
  generator := fun _ => {|
    input := createSchema
      [ ("metrics", field "object" "Metrics to analyze");
        ("timestamp", field "string" "ISO 8601 timestamp");
        ("context", field "object" "Contextual information");
        ("baseline", field "object" "Normal behavior baseline") ]
      ["metrics"; "timestamp"];
    output := createSchema
      [ ("is_anomaly", field "boolean" "Whether anomaly detected");
        ("anomaly_score", withMaximum 1 (withMinimum 0
           (field "number" "Anomaly severity")));
        ("anomaly_type", field "string" "Type of anomaly detected");
        ("affected_metrics", withItems (JObject [("type", JString "string")])
           (field "array" "Metrics showing anomalies")) ]
      ["is_anomaly"; "anomaly_score"] |}
|}.

Definition imagePattern : SchemaPattern := {|
  keywords := ["image"; "photo"; "picture"; "visual"; "recognize"];
  priority := 7;
  generator := fun _ => {|
    input := createSchema
      [ ("image_url", field "string" "URL to the image");
        ("image_base64", field "string" "Base64 encoded image");
        ("max_labels", withMinimum 1
           (field "integer" "Maximum number of labels to return")) ]
      ["image_url"];
    output := createSchema
      [ ("labels", withItems (JObject [("type", JString "string")])
           (field "array" "Detected labels/objects"));
        ("confidence_scores", withItems (JObject [("type", JString "number")])
           (field "array" "Confidence for each label"));
        ("bounding_boxes", withItems (JObject [("type", JString "object")])
           (field "array" "Coordinates of detected objects"));
        ("metadata", field "object" "Additional image information") ]
      ["labels"] |}
|}.

Definition summarizePattern : SchemaPattern := {|
  keywords := ["summarize"; "summary"; "extract"; "abstract"; "tldr"];
  priority := 7;
  generator := fun _ => {|
    input := createSchema
      [ ("text", field "string" "Text to summarize");
        ("max_length", withMinimum 1
           (field "integer" "Maximum summary length in characters"));
        ("style", field "string" "Summary style (brief, detailed)");
        ("key_points", field "boolean" "Whether to extract key points") ]
      ["text"];
    output := createSchema
      [ ("summary", field "string" "Generated summary");
        ("key_points", withItems (JObject [("type", JString "string")])
           (field "array" "Main points extracted"));
        ("length_ratio", withMaximum 1 (withMinimum 0
           (field "number" "Compression ratio")));
        ("important_entities", withItems (JObject [("type", JString "string")])
           (field "array" "Key entities mentioned")) ]
      ["summary"] |}
|}.

Definition predictPattern : SchemaPattern := {|
  keywords := ["predict"; "forecast"; "estimate"];
  priority := 5;
  generator := fun _ => {|
    input := createSchema
      [ ("features", field "object" "Input features for prediction");
        ("timestamp", field "string" "Reference timestamp (ISO 8601)");
        ("historical_data", withItems (JObject [("type", JString "object")])
           (field "array" "Historical data points")) ]
      ["features"];
    output := createSchema
      [ ("prediction", field "number" "Predicted value");
        ("confidence_interval", field "object" "Upper and lower bounds");
        ("trend", field "string" "Predicted trend direction");
        ("factors", withItems (JObject [("type", JString "string")])
           (field "array" "Contributing factors")) ]
      ["prediction"] |}
|}.

(** The array literal, in the order of the source. *)
Definition schemaPatterns : list SchemaPattern :=
  [ fraudPattern; churnPattern; sentimentPattern; classifyPattern; pricePattern;
    recommendPattern; anomalyPattern; imagePattern; summarizePattern; predictPattern ].

(** ** [generateSchemas] *)

Definition getDefaultSchema (_ : unit) : SchemaSet := {|
  input := createSchema
    [ ("data", field "object" "Your input data");
      ("features", field "object" "Relevant features");
      ("metadata", field "object" "Additional metadata") ]
    ["data"];
  output := createSchema
    [ ("prediction", field "string" "The model prediction");
      ("confidence", withMaximum 1 (withMinimum 0 (field "number" "Confidence score")));
      ("metadata", field "object" "Additional information") ]
    ["prediction"]
|}.

(** [pattern.keywords.filter(keyword => lowerDescription.includes(keyword)).length] *)
Definition matchCount (lowerDescription : string) (pattern : SchemaPattern) : nat :=
  List.length (filter (fun keyword => Str.includes lowerDescription keyword) (keywords pattern)).

Definition effectivePriority (lowerDescription : string) (pattern : SchemaPattern) : Z :=
  (priority pattern * Z.of_nat (matchCount lowerDescription pattern))%Z.

(** The variables the loop updates: [bestMatch] and [highestPriority]. *)
Definition Best : Type := (option SchemaPattern * Z)%type.

(** One turn of the [for ... of] loop. *)
Definition considerPattern (lowerDescription : string) (st : Best) (pattern : SchemaPattern) : Best :=
  let '(bestMatch, highestPriority) := st in
  if 0 <? matchCount lowerDescription pattern then
    if (highestPriority <? effectivePriority lowerDescription pattern)%Z
    then (Some pattern, effectivePriority lowerDescription pattern)
    else st
  else st.

(** The loop over a catalog, from [bestMatch = null], [highestPriority = -1]. *)
Definition scanPatterns (patterns : list SchemaPattern) (lowerDescription : string) : Best :=
  fold_left (considerPattern lowerDescription) patterns (None, (-1)%Z).

(** The guard [!problemDescription || problemDescription.trim().length === 0]. *)
Definition isBlank (s : string) : bool :=
  (s =? "")%string || (String.length (Str.trim s) =? 0).

Definition generateSchemas (problemDescription : string) : SchemaSet :=
  if isBlank problemDescription then getDefaultSchema tt
  else
    let lowerDescription := Str.toLowerCase problemDescription in
    match fst (scanPatterns schemaPatterns lowerDescription) with
    | Some bestMatch => generator bestMatch tt
    | None => getDefaultSchema tt
    end.


(** ** Exceptions *)

(** What a [throw] carries: an instance of [Error], or any other value. *)
Inductive Thrown : Set :=
| ErrorObject (name message : string)
| OtherValue (v : Json).

(** The outcome of evaluating code that may throw. *)
Inductive Completion (A : Type) : Type :=
| Normal (a : A)
| Throw (e : Thrown).

Arguments Normal {A} a.
Arguments Throw {A} e.

Definition bind {A B : Type} (c : Completion A) (k : A -> Completion B) : Completion B :=
  match c with
  | Normal a => k a
  | Throw e => Throw e
  end.

(** [try { body } catch (e) { handler(e) }] *)
Definition tryCatch {A : Type} (body : Completion A) (handler : Thrown -> Completion A) : Completion A :=
  match body with
  | Normal a => Normal a
  | Throw e => handler e
  end.

(** ** [JSON.parse] and [JSON.stringify] *)

Module JSON.

Definition dquote : ascii := ascii_of_nat 34.
Definition backslash : ascii := ascii_of_nat 92.
Definition newline : string := String (ascii_of_nat 10) EmptyString.

(** *** Parsing

    One pass over the text, one step per character: a lexer state, what
    the grammar expects next, and the stack of the arrays and objects
    that are still open. *)

Inductive NumberPhase : Set :=
| AfterMinus
| AfterZero
| IntDigits
| AfterPoint
| FracDigits
| AfterE
| AfterExpSign
| ExpDigits.

(** The digits of a number literal read so far, most recent first. *)
Record NumberText : Set := {
  negative : bool;
  digits : list ascii;
  fracLength : Z;
  expNegative : bool;
  expDigits : list ascii
}.

Inductive Lexer : Set :=
| Between
| InString (chars : list ascii)
| InEscape (chars : list ascii)
| InUnicode (chars : list ascii) (hex : list ascii)
| InLiteral (rest : string) (v : Json)
| InNumber (phase : NumberPhase) (t : NumberText).

Inductive Expect : Set :=
| Value
| ValueOrEnd
| KeyOrEnd
| Key
| Colon
| CommaOrEnd
| Done (v : Json).

Inductive Frame : Set :=
| InArray (elements : list Json)
| InObject (members : Obj.t) (key : option string).

Record State : Set := {
  lexer : Lexer;
  expect : Expect;
  stack : list Frame
}.

Definition initial : State := {| lexer := Between; expect := Value; stack := [] |}.

Definition isWhiteSpace (c : ascii) : bool :=
  let n := nat_of_ascii c in (n =? 32) || (n =? 9) || (n =? 10) || (n =? 13).

Definition hexValue (c : ascii) : option nat :=
  let n := nat_of_ascii c in
  if (48 <=? n) && (n <=? 57) then Some (n - 48)
  else if (97 <=? n) && (n <=? 102) then Some (n - 87)
  else if (65 <=? n) && (n <=? 70) then Some (n - 55)
  else None.

(** The code unit written by four hex digits, the last one read first;
    a code unit is kept modulo 256. *)
Definition hexCodeUnit (hex : list ascii) : ascii :=
  ascii_of_nat
    (fold_left (fun acc c => acc * 16 + match hexValue c with Some d => d | None => 0 end)
               (rev hex) 0 mod 256).

Definition expectsValue (e : Expect) : bool :=
  match e with Value | ValueOrEnd => true | _ => false end.

Definition expectsKey (e : Expect) : bool :=
  match e with KeyOrEnd | Key => true | _ => false end.

(** A complete value goes to the innermost open array or object. *)
Definition deliver (v : Json) (frames : list Frame) : option State :=
  match frames with
  | [] => Some {| lexer := Between; expect := Done v; stack := [] |}
  | InArray elements :: rest =>
      Some {| lexer := Between; expect := CommaOrEnd; stack := InArray (v :: elements) :: rest |}
  | InObject members (Some k) :: rest =>
      Some {| lexer := Between; expect := CommaOrEnd;
              stack := InObject (Obj.set k v members) None :: rest |}
  | InObject _ None :: _ => None
  end.

Definition onValue (v : Json) (st : State) : option State :=
  if expectsValue (expect st) then deliver v (stack st) else None.

Definition onString (s : string) (st : State) : option State :=
  if expectsValue (expect st) then deliver (JString s) (stack st)
  else if expectsKey (expect st) then
    match stack st with
    | InObject members None :: rest =>
        Some {| lexer := Between; expect := Colon; stack := InObject members (Some s) :: rest |}
    | _ => None
    end
  else None.

Definition numberOfText (t : NumberText) : Number :=
  let e := Num.digitsValue (string_of_list_ascii (rev (expDigits t))) in
  Num.ofDigits (negative t) (string_of_list_ascii (rev (digits t)))
               ((if expNegative t then - e else e) - fracLength t).

Definition startNumber (neg : bool) (ds : list ascii) : NumberText :=
  {| negative := neg; digits := ds; fracLength := 0; expNegative := false; expDigits := [] |}.

(** A character met between two tokens. *)
Definition stepBetween (st : State) (c : ascii) : option State :=
  let lex l := Some {| lexer := l; expect := expect st; stack := stack st |} in
  let at_ e frames := Some {| lexer := Between; expect := e; stack := frames |} in
  if isWhiteSpace c then Some st
  else if Ascii.eqb c dquote then
    if expectsValue (expect st) || expectsKey (expect st) then lex (InString []) else None
  else if Ascii.eqb c "{" then
    if expectsValue (expect st) then at_ KeyOrEnd (InObject [] None :: stack st) else None
  else if Ascii.eqb c "[" then
    if expectsValue (expect st) then at_ ValueOrEnd (InArray [] :: stack st) else None
  else if Ascii.eqb c "}" then
    match expect st, stack st with
    | (KeyOrEnd | CommaOrEnd), InObject members None :: rest => deliver (JObject members) rest
    | _, _ => None
    end
  else if Ascii.eqb c "]" then
    match expect st, stack st with
    | (ValueOrEnd | CommaOrEnd), InArray elements :: rest => deliver (JArray (rev elements)) rest
    | _, _ => None
    end
  else if Ascii.eqb c "," then
    match expect st, stack st with
    | CommaOrEnd, InArray _ :: _ => at_ Value (stack st)
    | CommaOrEnd, InObject _ None :: _ => at_ Key (stack st)
    | _, _ => None
    end
  else if Ascii.eqb c ":" then
    match expect st with
    | Colon => at_ Value (stack st)
    | _ => None
    end
  else if negb (expectsValue (expect st)) then None
  else if Ascii.eqb c "t" then lex (InLiteral "rue" (JBool true))
  else if Ascii.eqb c "f" then lex (InLiteral "alse" (JBool false))
  else if Ascii.eqb c "n" then lex (InLiteral "ull" JNull)
  else if Ascii.eqb c "-" then lex (InNumber AfterMinus (startNumber true []))
  else if Ascii.eqb c "0" then lex (InNumber AfterZero (startNumber false [c]))
  else if Num.isDigit c then lex (InNumber IntDigits (startNumber false [c]))
  else None.

Definition isE (c : ascii) : bool := Ascii.eqb c "e" || Ascii.eqb c "E".

(** A character met inside a number literal: [Some l] when the literal
    goes on, [None] when the character does not belong to it. *)
Definition stepNumber (phase : NumberPhase) (t : NumberText) (c : ascii) : option Lexer :=
  let digit := Num.isDigit c in
  let intDigit := {| negative := negative t; digits := c :: digits t; fracLength := fracLength t;
                     expNegative := expNegative t; expDigits := expDigits t |} in
  let fracDigit := {| negative := negative t; digits := c :: digits t;
                      fracLength := (fracLength t + 1)%Z;
                      expNegative := expNegative t; expDigits := expDigits t |} in
  let expDigit := {| negative := negative t; digits := digits t; fracLength := fracLength t;
                     expNegative := expNegative t; expDigits := c :: expDigits t |} in
  let expSign neg := {| negative := negative t; digits := digits t; fracLength := fracLength t;
                        expNegative := neg; expDigits := expDigits t |} in
  match phase with
  | AfterMinus =>
      if Ascii.eqb c "0" then Some (InNumber AfterZero intDigit)
      else if digit then Some (InNumber IntDigits intDigit) else None
  | AfterZero =>
      if Ascii.eqb c "." then Some (InNumber AfterPoint t)
      else if isE c then Some (InNumber AfterE t) else None
  | IntDigits =>
      if digit then Some (InNumber IntDigits intDigit)
      else if Ascii.eqb c "." then Some (InNumber AfterPoint t)
      else if isE c then Some (InNumber AfterE t) else None
  | AfterPoint => if digit then Some (InNumber FracDigits fracDigit) else None
  | FracDigits =>
      if digit then Some (InNumber FracDigits fracDigit)
      else if isE c then Some (InNumber AfterE t) else None
  | AfterE =>
      if Ascii.eqb c "+" then Some (InNumber AfterExpSign (expSign false))
      else if Ascii.eqb c "-" then Some (InNumber AfterExpSign (expSign true))
      else if digit then Some (InNumber ExpDigits expDigit) else None
  | AfterExpSign => if digit then Some (InNumber ExpDigits expDigit) else None
  | ExpDigits => if digit then Some (InNumber ExpDigits expDigit) else None
  end.

(** The phases in which a number literal may end. *)
Definition complete (phase : NumberPhase) : bool :=
  match phase with
  | AfterZero | IntDigits | FracDigits | ExpDigits => true
  | _ => false
  end.

(** One character; [None] when it is unexpected. *)
Definition step (st : State) (c : ascii) : option State :=
  let lex l := Some {| lexer := l; expect := expect st; stack := stack st |} in
  match lexer st with
  | Between => stepBetween st c
  | InString chars =>
      if Ascii.eqb c dquote then
        onString (string_of_list_ascii (rev chars))
                 {| lexer := Between; expect := expect st; stack := stack st |}
      else if Ascii.eqb c backslash then lex (InEscape chars)
      else if nat_of_ascii c <? 32 then None
      else lex (InString (c :: chars))
  | InEscape chars =>
      if Ascii.eqb c dquote || Ascii.eqb c backslash || Ascii.eqb c "/"
      then lex (InString (c :: chars))
      else if Ascii.eqb c "b" then lex (InString (ascii_of_nat 8 :: chars))
      else if Ascii.eqb c "f" then lex (InString (ascii_of_nat 12 :: chars))
      else if Ascii.eqb c "n" then lex (InString (ascii_of_nat 10 :: chars))
      else if Ascii.eqb c "r" then lex (InString (ascii_of_nat 13 :: chars))
      else if Ascii.eqb c "t" then lex (InString (ascii_of_nat 9 :: chars))
      else if Ascii.eqb c "u" then lex (InUnicode chars [])
      else None
  | InUnicode chars hex =>
      match hexValue c with
      | None => None
      | Some _ =>
          if List.length hex =? 3 then lex (InString (hexCodeUnit (c :: hex) :: chars))
          else lex (InUnicode chars (c :: hex))
      end
  | InLiteral rest v =>
      match rest with
      | EmptyString => None
      | String r rest' =>
          if Ascii.eqb c r then
            match rest' with
            | EmptyString => onValue v {| lexer := Between; expect := expect st; stack := stack st |}
            | _ => lex (InLiteral rest' v)
            end
          else None
      end
  | InNumber phase t =>
      match stepNumber phase t c with
      | Some l => lex l
      | None =>
          if complete phase then
            match onValue (JNumber (numberOfText t))
                          {| lexer := Between; expect := expect st; stack := stack st |} with
            | Some st' => stepBetween st' c
            | None => None
            end
          else None
      end
  end.

(** The end of the text. *)
Definition finish (st : State) : option Json :=
  let top s := match expect s, stack s with Done v, [] => Some v | _, _ => None end in
  match lexer st with
  | Between => top st
  | InNumber phase t =>
      if complete phase then
        match onValue (JNumber (numberOfText t))
                      {| lexer := Between; expect := expect st; stack := stack st |} with
        | Some st' => top st'
        | None => None
        end
      else None
  | _ => None
  end.

Inductive SyntaxProblem : Set :=
| UnexpectedToken (c : ascii) (position : nat)
| UnexpectedEnd.

Fixpoint run (st : State) (position : nat) (text : string) : SyntaxProblem + Json :=
  match text with
  | EmptyString =>
      match finish st with
      | Some v => inr v
      | None => inl UnexpectedEnd
      end
  | String c text' =>
      match step st c with
      | Some st' => run st' (S position) text'
      | None => inl (UnexpectedToken c position)
      end
  end.

(** The message of the [SyntaxError]; engines word it differently, the
    model keeps the two classes and the position. *)
Definition message (p : SyntaxProblem) : string :=
  match p with
  | UnexpectedToken c position =>
      "Unexpected token " ++ String c EmptyString ++ " in JSON at position "
        ++ NilZero.string_of_uint (Nat.to_uint position)
  | UnexpectedEnd => "Unexpected end of JSON input"
  end.

(** [JSON.parse(text)] *)
Definition parse (text : string) : Completion Json :=
  match run initial 0 text with
  | inr v => Normal v
  | inl p => Throw (ErrorObject "SyntaxError" (message p))
  end.

(** *** Printing *)

Definition hexDigit (n : nat) : ascii :=
  if n <? 10 then ascii_of_nat (48 + n) else ascii_of_nat (87 + n).

(** One code unit inside a string literal. *)
Definition quoteChar (c : ascii) : string :=
  let n := nat_of_ascii c in
  let esc x := String backslash (String x EmptyString) in
  if Ascii.eqb c dquote then esc dquote
  else if Ascii.eqb c backslash then esc backslash
  else if n =? 8 then esc "b"%char
  else if n =? 9 then esc "t"%char
  else if n =? 10 then esc "n"%char
  else if n =? 12 then esc "f"%char
  else if n =? 13 then esc "r"%char
  else if n <? 32 then
    String backslash ("u00" ++ String (hexDigit (n / 16)) (String (hexDigit (n mod 16)) EmptyString))
  else String c EmptyString.

Fixpoint quoteChars (s : string) : string :=
  match s with
  | EmptyString => EmptyString
  | String c s' => quoteChar c ++ quoteChars s'
  end.

Definition quote (s : string) : string :=
  String dquote (quoteChars s ++ String dquote EmptyString).

(** The value printed with [gap] as the unit of indentation, inside a
    container indented by [indent]. *)
Fixpoint serialize (gap indent : string) (v : Json) {struct v} : string :=
  let stepback := indent in
  let indent := indent ++ gap in
  let wrap (opening closing : string) (partial : list string) : string :=
    match partial with
    | [] => opening ++ closing
    | _ =>
        if (gap =? "")%string
        then opening ++ Str.join "," partial ++ closing
        else opening ++ newline ++ indent
               ++ Str.join ("," ++ newline ++ indent) partial
               ++ newline ++ stepback ++ closing
    end in
  match v with
  | JNull => "null"
  | JBool true => "true"
  | JBool false => "false"
  | JNumber n => Num.toString n
  | JString s => quote s
  | JArray elements => wrap "[" "]" (map (serialize gap indent) elements)
  | JObject members =>
      wrap "{" "}"
        (map (fun member =>
                match member with
                | (k, x) =>
                    quote k ++ (if (gap =? "")%string then ":" else ": ") ++ serialize gap indent x
                end)
             members)
  end.

(** [JSON.stringify(value, null, space)] for a number of spaces. *)
Definition stringify (value : Json) (space : nat) : string :=
  serialize (Str.spaces (Nat.min space 10)) "" value.

End JSON.

(** ** [validateSchema], [formatSchema], [schemaToString] *)

Record ValidationResult : Set := {
  valid : bool;
  error : option string;
  parsed : option Json
}.

Definition validateSchema (schemaString : string) : Completion ValidationResult :=
  if isBlank schemaString then
    Normal {| valid := true; error := None; parsed := Some (JObject []) |}
  else
    tryCatch
      (bind (JSON.parse schemaString) (fun parsed =>
         if negb (typeof parsed =? "object")%string || isNull parsed || Array_isArray parsed
         then Normal {| valid := false;
                        error := Some "Schema must be a JSON object, not an array or primitive value";
                        parsed := None |}
         else Normal {| valid := true; error := None; parsed := Some parsed |}))
      (fun error =>
         Normal {| valid := false;
                   error := Some match error with
                                 | ErrorObject _ message => message
                                 | OtherValue _ => "Invalid JSON syntax"
                                 end;
                   parsed := None |}).

Definition formatSchema (schemaObject : Json) : string :=
  JSON.stringify schemaObject 2.

(** [Object.keys(v).length] *)
Definition keysLength (v : Json) : nat :=
  match v with
  | JObject members => List.length members
  | JArray elements => List.length elements
  | JString s => String.length s
  | _ => 0
  end.

(** [schemaToString] on a JSON value; the argument is [None] for
    [undefined]. *)
Definition schemaToString (schema : option Json) : string :=
  match schema with
  | None => ""
  | Some s => if negb (truthy s) || (keysLength s =? 0) then "" else formatSchema s
  end.

(** A member of a record typed [any]: a JSON value, or [undefined],
    which [Object.keys] counts and [JSON.stringify] leaves out.
    Functions, symbols and the values that [JSON.stringify] replaces or
    refuses are outside the model. *)
Inductive Member : Set :=
| Defined (v : Json)
| Undefined.

(** The members of a record that [JSON.stringify] prints. *)
Fixpoint definedMembers (r : list (string * Member)) : Obj.t :=
  match r with
  | [] => []
  | (k, Defined v) :: r' => (k, v) :: definedMembers r'
  | (_, Undefined) :: r' => definedMembers r'
  end.

(** [schemaToString] on a record some of whose members may be
    [undefined]: every key counts for [Object.keys(schema).length], and
    [formatSchema] prints the members that are defined. *)
Definition schemaToStringRecord (schema : option (list (string * Member))) : string :=
  match schema with
  | None => ""
  | Some r => if List.length r =? 0 then "" else formatSchema (JObject (definedMembers r))
  end.

(** A JSON object as a record: all its members are defined. *)
Definition record (members : Obj.t) : list (string * Member) :=
  map (fun m => (fst m, Defined (snd m))) members.

(** A text written with apostrophes, read with double quotes in their
    place: the way the examples below write JSON. *)
Fixpoint dq (s : string) : string :=
  match s with
  | EmptyString => EmptyString
  | String c s' => String (if Ascii.eqb c "'" then JSON.dquote else c) (dq s')
  end.

(** ** The page that creates a model

    The state of the component [CreateModelContent] and its handlers,
    each a function of the state it was rendered with.  What the page
    asks of its environment (the signed-in user, the clock, the document
    store) is an argument of the handler; what it asks the environment
    to do is returned as a list of effects. *)

Module Page.

Inductive Step : Set := Step1 | Step2 | Step3 | Training | Success.

(** [DataSourceType], imported from the types of the application; the
    page uses it at the values "csv" and "s3". *)
Inductive DataSourceType : Set := Csv | S3.

Inductive SchemaKind : Set := InputSchema | OutputSchema.

(** What the page reads of a [File]. *)
Record File : Set := { name : string; size : Z }.

Record State : Set := {
  step : Step;
  modelId : option string;
  problemDescription : string;
  modelName : string;
  nameManuallyEdited : bool;
  inputSchemaString : string;
  outputSchemaString : string;
  inputSchemaError : option string;
  outputSchemaError : option string;
  copiedSchema : option SchemaKind;
  dataSourceType : DataSourceType;
  csvFile : option File;
  s3BucketUrl : string;
  s3Region : string;
  s3AccessKeyId : string;
  s3SecretAccessKey : string
}.

(** The initial values of the [useState] calls. *)
Definition initialState : State := {|
  step := Step1; modelId := None;
  problemDescription := ""; modelName := ""; nameManuallyEdited := false;
  inputSchemaString := ""; outputSchemaString := "";
  inputSchemaError := None; outputSchemaError := None; copiedSchema := None;
  dataSourceType := Csv; csvFile := None;
  s3BucketUrl := ""; s3Region := "us-east-1"; s3AccessKeyId := ""; s3SecretAccessKey := ""
|}.

(** The setters. *)
Definition setStep (v : Step) (st : State) : State := {|
  step := v; modelId := modelId st;
  problemDescription := problemDescription st; modelName := modelName st;
  nameManuallyEdited := nameManuallyEdited st; inputSchemaString := inputSchemaString st;
  outputSchemaString := outputSchemaString st; inputSchemaError := inputSchemaError st;
  outputSchemaError := outputSchemaError st; copiedSchema := copiedSchema st;
  dataSourceType := dataSourceType st; csvFile := csvFile st;
  s3BucketUrl := s3BucketUrl st; s3Region := s3Region st;
  s3AccessKeyId := s3AccessKeyId st; s3SecretAccessKey := s3SecretAccessKey st |}.

Definition setModelId (v : option string) (st : State) : State := {|
  step := step st; modelId := v;
  problemDescription := problemDescription st; modelName := modelName st;
  nameManuallyEdited := nameManuallyEdited st; inputSchemaString := inputSchemaString st;
  outputSchemaString := outputSchemaString st; inputSchemaError := inputSchemaError st;
  outputSchemaError := outputSchemaError st; copiedSchema := copiedSchema st;
  dataSourceType := dataSourceType st; csvFile := csvFile st;
  s3BucketUrl := s3BucketUrl st; s3Region := s3Region st;
  s3AccessKeyId := s3AccessKeyId st; s3SecretAccessKey := s3SecretAccessKey st |}.

Definition setProblemDescription (v : string) (st : State) : State := {|
  step := step st; modelId := modelId st;
  problemDescription := v; modelName := modelName st;
  nameManuallyEdited := nameManuallyEdited st; inputSchemaString := inputSchemaString st;
  outputSchemaString := outputSchemaString st; inputSchemaError := inputSchemaError st;
  outputSchemaError := outputSchemaError st; copiedSchema := copiedSchema st;
  dataSourceType := dataSourceType st; csvFile := csvFile st;
  s3BucketUrl := s3BucketUrl st; s3Region := s3Region st;
  s3AccessKeyId := s3AccessKeyId st; s3SecretAccessKey := s3SecretAccessKey st |}.

Definition setModelName (v : string) (st : State) : State := {|
  step := step st; modelId := modelId st;
  problemDescription := problemDescription st; modelName := v;
  nameManuallyEdited := nameManuallyEdited st; inputSchemaString := inputSchemaString st;
  outputSchemaString := outputSchemaString st; inputSchemaError := inputSchemaError st;
  outputSchemaError := outputSchemaError st; copiedSchema := copiedSchema st;
  dataSourceType := dataSourceType st; csvFile := csvFile st;
  s3BucketUrl := s3BucketUrl st; s3Region := s3Region st;
  s3AccessKeyId := s3AccessKeyId st; s3SecretAccessKey := s3SecretAccessKey st |}.

Definition setNameManuallyEdited (v : bool) (st : State) : State := {|
  step := step st; modelId := modelId st;
  problemDescription := problemDescription st; modelName := modelName st;
  nameManuallyEdited := v; inputSchemaString := inputSchemaString st;
  outputSchemaString := outputSchemaString st; inputSchemaError := inputSchemaError st;
  outputSchemaError := outputSchemaError st; copiedSchema := copiedSchema st;
  dataSourceType := dataSourceType st; csvFile := csvFile st;
  s3BucketUrl := s3BucketUrl st; s3Region := s3Region st;
  s3AccessKeyId := s3AccessKeyId st; s3SecretAccessKey := s3SecretAccessKey st |}.

Definition setInputSchemaString (v : string) (st : State) : State := {|
  step := step st; modelId := modelId st;
  problemDescription := problemDescription st; modelName := modelName st;
  nameManuallyEdited := nameManuallyEdited st; inputSchemaString := v;
  outputSchemaString := outputSchemaString st; inputSchemaError := inputSchemaError st;
  outputSchemaError := outputSchemaError st; copiedSchema := copiedSchema st;
  dataSourceType := dataSourceType st; csvFile := csvFile st;
  s3BucketUrl := s3BucketUrl st; s3Region := s3Region st;
  s3AccessKeyId := s3AccessKeyId st; s3SecretAccessKey := s3SecretAccessKey st |}.

Definition setOutputSchemaString (v : string) (st : State) : State := {|
  step := step st; modelId := modelId st;
  problemDescription := problemDescription st; modelName := modelName st;
  nameManuallyEdited := nameManuallyEdited st; inputSchemaString := inputSchemaString st;
  outputSchemaString := v; inputSchemaError := inputSchemaError st;
  outputSchemaError := outputSchemaError st; copiedSchema := copiedSchema st;
  dataSourceType := dataSourceType st; csvFile := csvFile st;
  s3BucketUrl := s3BucketUrl st; s3Region := s3Region st;
  s3AccessKeyId := s3AccessKeyId st; s3SecretAccessKey := s3SecretAccessKey st |}.

Definition setInputSchemaError (v : option string) (st : State) : State := {|
  step := step st; modelId := modelId st;
  problemDescription := problemDescription st; modelName := modelName st;
  nameManuallyEdited := nameManuallyEdited st; inputSchemaString := inputSchemaString st;
  outputSchemaString := outputSchemaString st; inputSchemaError := v;
  outputSchemaError := outputSchemaError st; copiedSchema := copiedSchema st;
  dataSourceType := dataSourceType st; csvFile := csvFile st;
  s3BucketUrl := s3BucketUrl st; s3Region := s3Region st;
  s3AccessKeyId := s3AccessKeyId st; s3SecretAccessKey := s3SecretAccessKey st |}.

Definition setOutputSchemaError (v : option string) (st : State) : State := {|
  step := step st; modelId := modelId st;
  problemDescription := problemDescription st; modelName := modelName st;
  nameManuallyEdited := nameManuallyEdited st; inputSchemaString := inputSchemaString st;
  outputSchemaString := outputSchemaString st; inputSchemaError := inputSchemaError st;
  outputSchemaError := v; copiedSchema := copiedSchema st;
  dataSourceType := dataSourceType st; csvFile := csvFile st;
  s3BucketUrl := s3BucketUrl st; s3Region := s3Region st;
  s3AccessKeyId := s3AccessKeyId st; s3SecretAccessKey := s3SecretAccessKey st |}.

Definition setCopiedSchema (v : option SchemaKind) (st : State) : State := {|
  step := step st; modelId := modelId st;
  problemDescription := problemDescription st; modelName := modelName st;
  nameManuallyEdited := nameManuallyEdited st; inputSchemaString := inputSchemaString st;
  outputSchemaString := outputSchemaString st; inputSchemaError := inputSchemaError st;
  outputSchemaError := outputSchemaError st; copiedSchema := v;
  dataSourceType := dataSourceType st; csvFile := csvFile st;
  s3BucketUrl := s3BucketUrl st; s3Region := s3Region st;
  s3AccessKeyId := s3AccessKeyId st; s3SecretAccessKey := s3SecretAccessKey st |}.

Definition setDataSourceType (v : DataSourceType) (st : State) : State := {|
  step := step st; modelId := modelId st;
  problemDescription := problemDescription st; modelName := modelName st;
  nameManuallyEdited := nameManuallyEdited st; inputSchemaString := inputSchemaString st;
  outputSchemaString := outputSchemaString st; inputSchemaError := inputSchemaError st;
  outputSchemaError := outputSchemaError st; copiedSchema := copiedSchema st;
  dataSourceType := v; csvFile := csvFile st;
  s3BucketUrl := s3BucketUrl st; s3Region := s3Region st;
  s3AccessKeyId := s3AccessKeyId st; s3SecretAccessKey := s3SecretAccessKey st |}.

Definition setCsvFile (v : option File) (st : State) : State := {|
  step := step st; modelId := modelId st;
  problemDescription := problemDescription st; modelName := modelName st;
  nameManuallyEdited := nameManuallyEdited st; inputSchemaString := inputSchemaString st;
  outputSchemaString := outputSchemaString st; inputSchemaError := inputSchemaError st;
  outputSchemaError := outputSchemaError st; copiedSchema := copiedSchema st;
  dataSourceType := dataSourceType st; csvFile := v;
  s3BucketUrl := s3BucketUrl st; s3Region := s3Region st;
  s3AccessKeyId := s3AccessKeyId st; s3SecretAccessKey := s3SecretAccessKey st |}.

Definition setS3BucketUrl (v : string) (st : State) : State := {|
  step := step st; modelId := modelId st;
  problemDescription := problemDescription st; modelName := modelName st;
  nameManuallyEdited := nameManuallyEdited st; inputSchemaString := inputSchemaString st;
  outputSchemaString := outputSchemaString st; inputSchemaError := inputSchemaError st;
  outputSchemaError := outputSchemaError st; copiedSchema := copiedSchema st;
  dataSourceType := dataSourceType st; csvFile := csvFile st;
  s3BucketUrl := v; s3Region := s3Region st;
  s3AccessKeyId := s3AccessKeyId st; s3SecretAccessKey := s3SecretAccessKey st |}.

Definition setS3Region (v : string) (st : State) : State := {|
  step := step st; modelId := modelId st;
  problemDescription := problemDescription st; modelName := modelName st;
  nameManuallyEdited := nameManuallyEdited st; inputSchemaString := inputSchemaString st;
  outputSchemaString := outputSchemaString st; inputSchemaError := inputSchemaError st;
  outputSchemaError := outputSchemaError st; copiedSchema := copiedSchema st;
  dataSourceType := dataSourceType st; csvFile := csvFile st;
  s3BucketUrl := s3BucketUrl st; s3Region := v;
  s3AccessKeyId := s3AccessKeyId st; s3SecretAccessKey := s3SecretAccessKey st |}.

Definition setS3AccessKeyId (v : string) (st : State) : State := {|
  step := step st; modelId := modelId st;
  problemDescription := problemDescription st; modelName := modelName st;
  nameManuallyEdited := nameManuallyEdited st; inputSchemaString := inputSchemaString st;
  outputSchemaString := outputSchemaString st; inputSchemaError := inputSchemaError st;
  outputSchemaError := outputSchemaError st; copiedSchema := copiedSchema st;
  dataSourceType := dataSourceType st; csvFile := csvFile st;
  s3BucketUrl := s3BucketUrl st; s3Region := s3Region st;
  s3AccessKeyId := v; s3SecretAccessKey := s3SecretAccessKey st |}.

Definition setS3SecretAccessKey (v : string) (st : State) : State := {|
  step := step st; modelId := modelId st;
  problemDescription := problemDescription st; modelName := modelName st;
  nameManuallyEdited := nameManuallyEdited st; inputSchemaString := inputSchemaString st;
  outputSchemaString := outputSchemaString st; inputSchemaError := inputSchemaError st;
  outputSchemaError := outputSchemaError st; copiedSchema := copiedSchema st;
  dataSourceType := dataSourceType st; csvFile := csvFile st;
  s3BucketUrl := s3BucketUrl st; s3Region := s3Region st;
  s3AccessKeyId := s3AccessKeyId st; s3SecretAccessKey := v |}.

(** *** The name of the model *)

(** [word.charAt(0).toUpperCase() + word.slice(1).toLowerCase()] *)
Definition capitalize (word : string) : string :=
  Str.toUpperCase (Str.charAt 0 word) ++ Str.toLowerCase (Str.slice 1 word).

(** The name made of the first four words of the description. *)
Definition generatedName (problemDescription : string) : string :=
  let words := firstn 4 (Str.splitWhiteSpace (Str.trim problemDescription)) in
  Str.join " " (map capitalize words).

(** The body of the effect on [problemDescription] and
    [nameManuallyEdited]. *)
Definition nameEffect (st : State) : State :=
  if negb (nameManuallyEdited st) && negb (problemDescription st =? "")%string
  then setModelName (generatedName (problemDescription st)) st
  else st.

(** A render after which the effect runs when one of its dependencies
    has changed. *)
Definition afterRender (before after : State) : State :=
  if (problemDescription before =? problemDescription after)%string
     && Bool.eqb (nameManuallyEdited before) (nameManuallyEdited after)
  then after else nameEffect after.

(** The [onChange] handlers of the description and of the name. *)
Definition onDescriptionChange (value : string) (st : State) : State :=
  afterRender st (setProblemDescription value st).

Definition onNameChange (value : string) (st : State) : State :=
  afterRender st (setNameManuallyEdited true (setModelName value st)).

(** *** The steps *)

Definition handleStep1Continue (st : State) : State :=
  if negb (Str.trim (problemDescription st) =? "")%string then setStep Step2 st else st.

(** [isValid] of [handleStep2Continue]. *)
Definition dataSourceGiven (st : State) : bool :=
  match dataSourceType st with
  | Csv => match csvFile st with Some _ => true | None => false end
  | S3 =>
      negb (s3BucketUrl st =? "")%string && negb (s3AccessKeyId st =? "")%string
      && negb (s3SecretAccessKey st =? "")%string
  end.

Definition handleStep2Continue (st : State) : State :=
  if dataSourceGiven st then
    let schemas := generateSchemas (problemDescription st) in
    setStep Step3
      (setOutputSchemaString (formatSchema (output schemas))
         (setInputSchemaString (formatSchema (input schemas)) st))
  else st.

(** [validation.valid ? null : validation.error || null] *)
Definition errorToShow (validation : ValidationResult) : option string :=
  if valid validation then None
  else match error validation with
       | Some e => if (e =? "")%string then None else Some e
       | None => None
       end.

Definition handleInputSchemaChange (value : option string) (st : State) : Completion State :=
  let newValue := match value with Some v => v | None => "" end in
  let st := setInputSchemaString newValue st in
  bind (validateSchema newValue) (fun validation =>
    Normal (setInputSchemaError (errorToShow validation) st)).

Definition handleOutputSchemaChange (value : option string) (st : State) : Completion State :=
  let newValue := match value with Some v => v | None => "" end in
  let st := setOutputSchemaString newValue st in
  bind (validateSchema newValue) (fun validation =>
    Normal (setOutputSchemaError (errorToShow validation) st)).

(** *** Submitting *)

Record User : Set := { uid : string }.

Inductive DataSource : Set :=
| CsvSource (fileName : option string) (fileSize : option Z)
| S3Source (bucketUrl region accessKeyId secretAccessKey : string).

(** The document handed to [addDoc]; [Time] is the type of what
    [Timestamp.now()] returns. *)
Record ModelDocument (Time : Set) : Set := {
  userId : string;
  docName : string;
  docProblemDescription : string;
  dataSource : DataSource;
  status : string;
  createdAt : Time;
  updatedAt : Time;
  inputSchema : Json;
  outputSchema : Json
}.

Arguments userId {Time} _.
Arguments docName {Time} _.
Arguments docProblemDescription {Time} _.
Arguments dataSource {Time} _.
Arguments status {Time} _.
Arguments createdAt {Time} _.
Arguments updatedAt {Time} _.
Arguments inputSchema {Time} _.
Arguments outputSchema {Time} _.

(** What the handler asks of its environment, in the order it asks. *)
Inductive Effect (Time : Set) : Type :=
| AddDoc (collection : string) (data : ModelDocument Time)
| StartTraining (id : string)
| ConsoleError (label : string) (e : Thrown).

Arguments AddDoc {Time} collection data.
Arguments StartTraining {Time} id.
Arguments ConsoleError {Time} label e.

(** [validation.parsed || {}] *)
Definition parsedOrEmpty (validation : ValidationResult) : Json :=
  match parsed validation with
  | Some v => if truthy v then v else JObject []
  | None => JObject []
  end.

(** The object literal that [handleSubmit] builds; [now1] and [now2]
    are the results of its two calls of [Timestamp.now()]. *)
Definition buildDocument {Time : Set} (user : User) (now1 now2 : Time) (st : State)
    : Completion (ModelDocument Time) :=
  let source :=
    match dataSourceType st with
    | Csv => CsvSource (option_map name (csvFile st)) (option_map size (csvFile st))
    | S3 => S3Source (s3BucketUrl st) (s3Region st) (s3AccessKeyId st) (s3SecretAccessKey st)
    end in
  bind (validateSchema (inputSchemaString st)) (fun inputSchemaValidation =>
  bind (validateSchema (outputSchemaString st)) (fun outputSchemaValidation =>
  Normal {|
    userId := uid user;
    docName := if (modelName st =? "")%string then "Untitled Model" else modelName st;
    docProblemDescription := problemDescription st;
    dataSource := source;
    status := "training";
    createdAt := now1;
    updatedAt := now2;
    inputSchema := parsedOrEmpty inputSchemaValidation;
    outputSchema := parsedOrEmpty outputSchemaValidation
  |})).

(** [handleSubmit] is asynchronous: it runs to [await addDoc(...)] with
    the state it was rendered with, and goes on when the store has
    answered.  [Submission] is how far the first part gets. *)
Inductive Submission (Time : Set) : Type :=
| NotSubmitted
| Caught (effects : list (Effect Time))
| Awaiting (effects : list (Effect Time)) (data : ModelDocument Time).

Arguments NotSubmitted {Time}.
Arguments Caught {Time} effects.
Arguments Awaiting {Time} effects data.

Definition handleSubmit {Time : Set} (user : option User) (now1 now2 : Time) (st : State)
    : Submission Time :=
  match user with
  | None => NotSubmitted
  | Some u =>
      match buildDocument u now1 now2 st with
      | Throw e => Caught [ConsoleError "Error creating model:" e]
      | Normal data => Awaiting [AddDoc "models" data] data
      end
  end.

(** The rest of [handleSubmit], on the state of the page when the store
    answers with the identifier of the document or throws. *)
Definition resumeSubmit {Time : Set} (answer : Completion string) (st : State)
    : State * list (Effect Time) :=
  match answer with
  | Normal id => (setStep Training (setModelId (Some id) st), [StartTraining id])
  | Throw e => (st, [ConsoleError "Error creating model:" e])
  end.

(** [!error] for an error of the page. *)
Definition noError (e : option string) : bool :=
  match e with Some s => (s =? "")%string | None => true end.

(** [handleStep3Continue] *)
Definition handleStep3Continue {Time : Set} (user : option User) (now1 now2 : Time) (st : State)
    : Submission Time :=
  if noError (inputSchemaError st) && noError (outputSchemaError st)
  then handleSubmit user now1 now2 st
  else NotSubmitted.

(** [handleCopySchema]: the new state and the text written to the
    clipboard; the timer that clears the mark is the event
    [CopyMarkExpired] below. *)
Definition handleCopySchema (kind : SchemaKind) (st : State) : State * string :=
  let text := match kind with
              | InputSchema => inputSchemaString st
              | OutputSchema => outputSchemaString st
              end in
  (setCopiedSchema (Some kind) st, text).

(** *** The page as a transition system

    What may happen to the page, in any order: the handlers above and
    the setters that the controls call directly. *)
Inductive Event : Set :=
| DescriptionChanged (value : string)
| NameChanged (value : string)
| Step1Continue
| DataSourceTypeChanged (value : DataSourceType)
| FileChosen (value : option File)
| BucketUrlChanged (value : string)
| RegionChanged (value : string)
| AccessKeyIdChanged (value : string)
| SecretAccessKeyChanged (value : string)
| BackToProblem
| Step2Continue
| InputSchemaChanged (value : option string)
| OutputSchemaChanged (value : option string)
| SchemaCopied (kind : SchemaKind)
| CopyMarkExpired
| BackToDataSource
| Step3Continue
| StoreAnswered (answer : Completion string)
| TrainingCompleted.

(** The state after an event.  A handler that throws leaves the state
    as it was. *)
Definition dispatch (e : Event) (st : State) : State :=
  match e with
  | DescriptionChanged value => onDescriptionChange value st
  | NameChanged value => onNameChange value st
  | Step1Continue => handleStep1Continue st
  | DataSourceTypeChanged value => setDataSourceType value st
  | FileChosen value => setCsvFile value st
  | BucketUrlChanged value => setS3BucketUrl value st
  | RegionChanged value => setS3Region value st
  | AccessKeyIdChanged value => setS3AccessKeyId value st
  | SecretAccessKeyChanged value => setS3SecretAccessKey value st
  | BackToProblem => setStep Step1 st
  | Step2Continue => handleStep2Continue st
  | InputSchemaChanged value =>
      match handleInputSchemaChange value st with Normal st' => st' | Throw _ => st end
  | OutputSchemaChanged value =>
      match handleOutputSchemaChange value st with Normal st' => st' | Throw _ => st end
  | SchemaCopied kind => fst (handleCopySchema kind st)
  | CopyMarkExpired => setCopiedSchema None st
  | BackToDataSource => setStep Step2 st
  | Step3Continue => st
  | StoreAnswered answer => fst (@resumeSubmit Datatypes.unit answer st)
  | TrainingCompleted =>
      (* the listener is subscribed while [modelId && step === "training"] *)
      match modelId st, step st with
      | Some _, Training => setStep Success st
      | _, _ => st
      end
  end.

(** The state after a sequence of events, from the initial state. *)
Definition run (events : list Event) : State :=
  fold_left (fun st e => dispatch e st) events initialState.

(** The error shown next to an editor agrees with the text in it: where
    no error is shown, the text validates. *)
Definition editorChecked (text : string) (shown : option string) : Prop :=
  noError shown = true -> exists r, validateSchema text = Normal r /\ valid r = true.

End Page.
(** The same function over an arbitrary catalog, to say what does and
    what does not depend on the catalog. *)
Definition generateSchemasFrom (patterns : list SchemaPattern) (problemDescription : string) : SchemaSet :=
  if isBlank problemDescription then getDefaultSchema tt
  else
    match fst (scanPatterns patterns (Str.toLowerCase problemDescription)) with
    | Some bestMatch => generator bestMatch tt
    | None => getDefaultSchema tt
    end.

(** ** Vocabulary of the statements *)

(** [k] occurs in [s] as a substring. *)
Definition occurs (k s : string) : Prop :=
  exists pre post, s = pre ++ k ++ post.

(** Every character of [s] is white space. *)
Fixpoint allWhiteSpace (s : string) : bool :=
  match s with
  | EmptyString => true
  | String c s' => Str.isWhiteSpace c && allWhiteSpace s'
  end.

(** All the keywords of a catalog, entry after entry. *)
Definition allKeywords (patterns : list SchemaPattern) : list string :=
  flat_map keywords patterns.

(** Keywords and priority of an entry: what the matcher reads of it. *)
Definition signature (p : SchemaPattern) : list string * Z := (keywords p, priority p).

(** The catalog as section 4.1 of the specification enumerates it. *)
Definition spec_catalog_order : list (list string * Z) :=
  [ (["fraud"; "fraudulent"; "scam"; "spam"; "phishing"; "fake"], 10%Z);
    (["churn"; "retention"; "attrition"; "cancel"; "unsubscribe"], 10%Z);
    (["sentiment"; "emotion"; "feeling"; "opinion"; "review"], 9%Z);
    (["price"; "pricing"; "cost"; "estimate"; "valuation"; "worth"], 9%Z);
    (["classify"; "classification"; "categorize"; "category"; "label"; "tag"], 8%Z);
    (["recommend"; "recommendation"; "suggest"; "personalize"], 8%Z);
    (["anomaly"; "outlier"; "abnormal"; "unusual"; "detect"], 8%Z);
    (["image"; "photo"; "picture"; "visual"; "recognize"], 7%Z);
    (["summarize"; "summary"; "extract"; "abstract"; "tldr"], 7%Z);
    (["predict"; "forecast"; "estimate"], 5%Z) ].

(** The [properties] and [required] members of a schema object. *)
Definition propertiesOf (schema : Json) : Obj.t :=
  match schema with
  | JObject o => match Obj.get "properties" o with Some (JObject ps) => ps | _ => [] end
  | _ => []
  end.

Definition requiredOf (schema : Json) : list Json :=
  match schema with
  | JObject o => match Obj.get "required" o with Some (JArray names) => names | _ => [] end
  | _ => []
  end.

(** A member of a field schema that holds a number. *)
Definition numberOf (k : string) (fieldSchema : Json) : option Number :=
  match fieldSchema with
  | JObject f => match Obj.get k f with Some (JNumber n) => Some n | _ => None end
  | _ => None
  end.

(** Decision procedures for the two invariants of a schema object. *)
Definition requiredDeclared (schema : Json) : bool :=
  forallb (fun name => match name with
                       | JString s => Obj.has s (propertiesOf schema)
                       | _ => false
                       end)
          (requiredOf schema).

Definition boundsOrdered (schema : Json) : bool :=
  forallb (fun entry => match numberOf "minimum" (snd entry), numberOf "maximum" (snd entry) with
                        | Some lo, Some hi => Num.leb lo hi
                        | _, _ => true
                        end)
          (propertiesOf schema).


(** A value that is an object, and neither an array, a primitive nor [null]. *)
Definition isPlainObject (v : Json) : bool :=
  match v with JObject _ => true | _ => false end.

(** The text is laid out with [unit] spaces per level of nesting: every
    line starts with [unit] times as many spaces as there are arrays and
    objects open at that point, a closing bracket counting for its own
    line.  [lead] counts the spaces at the start of the current line. *)
Fixpoint indentedFrom (unit : nat) (depth : nat) (lead : option nat) (inString escaped : bool)
    (text : string) : bool :=
  match text with
  | EmptyString => true
  | String c text' =>
      let opener := Ascii.eqb c "{" || Ascii.eqb c "[" in
      let closer := Ascii.eqb c "}" || Ascii.eqb c "]" in
      let body (_ : Datatypes.unit) :=
        if inString then
          if escaped then indentedFrom unit depth None true false text'
          else if Ascii.eqb c JSON.backslash then indentedFrom unit depth None true true text'
          else if Ascii.eqb c JSON.dquote then indentedFrom unit depth None false false text'
          else indentedFrom unit depth None true false text'
        else if Ascii.eqb c JSON.dquote then indentedFrom unit depth None true false text'
        else if opener then indentedFrom unit (S depth) None false false text'
        else if closer then indentedFrom unit (Nat.pred depth) None false false text'
        else if Ascii.eqb c (ascii_of_nat 10) then indentedFrom unit depth (Some 0) false false text'
        else indentedFrom unit depth None false false text' in
      match lead with
      | Some n =>
          if Ascii.eqb c " " then indentedFrom unit depth (Some (S n)) false false text'
          else if n =? unit * (if closer then Nat.pred depth else depth) then body tt else false
      | None => body tt
      end
  end.

Definition indentedBy (unit : nat) (text : string) : bool :=
  indentedFrom unit 0 (Some 0) false false text.

(** The reducer of [createSchema]: one field added to the accumulator. *)
Definition addField (acc : Obj.t) (entry : string * FieldSpec) : Obj.t :=
  let '(key, value) := entry in Obj.assign key (JObject (fieldSchema value)) acc.

(** Words: non-empty strings without white space. *)
Fixpoint noWhiteSpace (s : string) : bool :=
  match s with
  | EmptyString => true
  | String c s' => negb (Str.isWhiteSpace c) && noWhiteSpace s'
  end.

Definition isWord (s : string) : bool := negb (s =? "")%string && noWhiteSpace s.

(** The string starts with a character that is not white space. *)
Definition startsWithWord (s : string) : bool :=
  match s with
  | EmptyString => false
  | String c _ => negb (Str.isWhiteSpace c)
  end.

(** The string does not end with white space. *)
Fixpoint endsClean (s : string) : bool :=
  match s with
  | EmptyString => true
  | String c EmptyString => negb (Str.isWhiteSpace c)
  | String _ s' => endsClean s'
  end.

(** Every character of the string passes the test. *)
Fixpoint allChars (test : ascii -> bool) (s : string) : bool :=
  match s with
  | EmptyString => true
  | String c s' => test c && allChars test s'
  end.

(** The one letter whose capital is longer than itself. *)
Definition notSharpS (c : ascii) : bool := negb (nat_of_ascii c =? 223).

(** The capital of the character is one character of the alphabet: not
    the sharp s (223), whose capital is two letters long, nor the micro
    sign (181) and the y with diaeresis (255), whose capitals lie above
    255. *)
Definition latinCapital (c : ascii) : bool :=
  notSharpS c && negb (nat_of_ascii c =? 181) && negb (nat_of_ascii c =? 255).

(** The event is an edit of the name by hand. *)
Definition isNameChange (e : Page.Event) : bool :=
  match e with Page.NameChanged _ => true | _ => false end.

(** Both editors of the page agree with the errors shown next to them. *)
Definition editorsChecked (st : Page.State) : Prop :=
  Page.editorChecked (Page.inputSchemaString st) (Page.inputSchemaError st) /\
  Page.editorChecked (Page.outputSchemaString st) (Page.outputSchemaError st).

(** Until the name is edited by hand, a description that is not empty
    carries its generated name. *)
Definition nameFollows (st : Page.State) : Prop :=
  Page.nameManuallyEdited st = false -> Page.problemDescription st <> "" ->
  Page.modelName st = Page.generatedName (Page.problemDescription st).

(** *** Vocabulary for reading back what [JSON.stringify] prints *)

(** The text is white space for [JSON.parse]. *)
Definition isGap (s : string) : bool := allChars JSON.isWhiteSpace s.

(** A character that can stand in a number literal. *)
Definition numberChar (c : ascii) : bool :=
  Num.isDigit c || Ascii.eqb c "-" || Ascii.eqb c "+" || Ascii.eqb c "." || JSON.isE c.

(** No number literal goes on into the text. *)
Definition endsNumber (rest : string) : bool :=
  match rest with
  | EmptyString => true
  | String c _ => negb (numberChar c)
  end.

(** The characters of a number literal after its first one. *)
Fixpoint lexNumber (phase : JSON.NumberPhase) (t : JSON.NumberText) (s : string)
    : option (JSON.NumberPhase * JSON.NumberText) :=
  match s with
  | EmptyString => Some (phase, t)
  | String c s' =>
      match JSON.stepNumber phase t c with
      | Some (JSON.InNumber phase' t') => lexNumber phase' t' s'
      | _ => None
      end
  end.

(** The first character of a number literal. *)
Definition startNumberAt (c : ascii) : option (JSON.NumberPhase * JSON.NumberText) :=
  if Ascii.eqb c "-" then Some (JSON.AfterMinus, JSON.startNumber true [])
  else if Ascii.eqb c "0" then Some (JSON.AfterZero, JSON.startNumber false [c])
  else if Num.isDigit c then Some (JSON.IntDigits, JSON.startNumber false [c])
  else None.

Definition sameNumber (a b : Number) : bool :=
  (mantissa a =? mantissa b)%Z && (exponent a =? exponent b)%Z.

(** A number literal read from its first character to its last. *)
Definition readLiteral (text : string) : option (JSON.NumberPhase * JSON.NumberText) :=
  match text with
  | EmptyString => None
  | String c s =>
      match startNumberAt c with
      | Some (phase, t) => lexNumber phase t s
      | None => None
      end
  end.

(** The literal that [Number::toString] prints for [n] is read as [n]. *)
Definition readsBack (n : Number) : bool :=
  match readLiteral (Num.toString n) with
  | Some (phase, t) => JSON.complete phase && sameNumber (JSON.numberOfText t) n
  | None => false
  end.

(** The number is kept normal: no trailing zero in the mantissa, and
    zero written [0 * 10^0]. *)
Definition isNormal (n : Number) : bool :=
  if (mantissa n =? 0)%Z then (exponent n =? 0)%Z
  else negb (mantissa n mod 10 =? 0)%Z.

Definition isDigits (s : string) : bool := allChars Num.isDigit s.

Definition startsNonZero (s : string) : bool :=
  match s with
  | EmptyString => false
  | String c _ => negb (Ascii.eqb c "0")
  end.

Fixpoint endsNonZero (s : string) : bool :=
  match s with
  | EmptyString => false
  | String c EmptyString => negb (Ascii.eqb c "0")
  | String _ s' => endsNonZero s'
  end.

(** What has been read of a number literal, its digits in reading
    order. *)
Definition numberText (neg : bool) (ds : string) (fl : Z) (eneg : bool) (eds : string)
    : JSON.NumberText :=
  {| JSON.negative := neg; JSON.digits := rev (list_ascii_of_string ds);
     JSON.fracLength := fl; JSON.expNegative := eneg;
     JSON.expDigits := rev (list_ascii_of_string eds) |}.

Fixpoint distinct (ks : list string) : bool :=
  match ks with
  | [] => true
  | k :: ks' => negb (existsb (String.eqb k) ks') && distinct ks'
  end.

(** A key that is not an array index. *)
Definition plainKey (k : string) : bool :=
  match Obj.arrayIndex k with None => true | Some _ => false end.

(** Keys that are all different and none of them an array index: the
    order of such properties is the order of their creation. *)
Definition plainKeys (ks : list string) : bool := distinct ks && forallb plainKey ks.

(** A value as [JSON.parse] builds them: its numbers are kept normal,
    the keys of each of its objects are plain. *)
Fixpoint wellFormed (v : Json) : bool :=
  match v with
  | JNumber n => isNormal n
  | JArray elements => forallb wellFormed elements
  | JObject members =>
      plainKeys (map fst members) && forallb (fun m => wellFormed (snd m)) members
  | _ => true
  end.

(** States of the parser. *)
Definition between (e : JSON.Expect) (frames : list JSON.Frame) : JSON.State :=
  {| JSON.lexer := JSON.Between; JSON.expect := e; JSON.stack := frames |}.

Definition inString (chars : list ascii) (e : JSON.Expect) (frames : list JSON.Frame)
    : JSON.State :=
  {| JSON.lexer := JSON.InString chars; JSON.expect := e; JSON.stack := frames |}.

Definition inNumber (phase : JSON.NumberPhase) (t : JSON.NumberText) (e : JSON.Expect)
    (frames : list JSON.Frame) : JSON.State :=
  {| JSON.lexer := JSON.InNumber phase t; JSON.expect := e; JSON.stack := frames |}.

(** The state after the characters of [s], when all of them are
    expected. *)
Fixpoint steps (st : JSON.State) (s : string) : option JSON.State :=
  match s with
  | EmptyString => Some st
  | String c s' =>
      match JSON.step st c with
      | Some st' => steps st' s'
      | None => None
      end
  end.

(** The value that [JSON.run] returns from [st] on [text], if any. *)
Fixpoint outcome (st : JSON.State) (text : string) : option Json :=
  match text with
  | EmptyString => JSON.finish st
  | String c text' =>
      match JSON.step st c with
      | Some st' => outcome st' text'
      | None => None
      end
  end.

(** The white space that [JSON.stringify] puts before an item, or before
    the closing bracket. *)
Definition lineBreak (gap indent : string) : string :=
  if (gap =? "")%string then "" else JSON.newline ++ indent.

Definition colon (gap : string) : string := if (gap =? "")%string then ":" else ": ".

(** One member of an object as [JSON.stringify] prints it. *)
Definition printMember (gap indent : string) (member : string * Json) : string :=
  JSON.quote (fst member) ++ colon gap ++ JSON.serialize gap indent (snd member).

(** Wherever a value is expected, the text that [JSON.serialize] prints
    for [v] is read as [v], whatever text follows it. *)
Definition parsesBack (v : Json) : Prop :=
  forall (gap indent : string) (e : JSON.Expect) (frames : list JSON.Frame)
         (std : JSON.State) (rest : string),
    isGap gap = true -> isGap indent = true ->
    JSON.expectsValue e = true ->
    JSON.deliver v frames = Some std ->
    endsNumber rest = true ->
    outcome (between e frames) (JSON.serialize gap indent v ++ rest) = outcome std rest.

Definition optionHolds {A : Type} (test : A -> bool) (o : option A) : bool :=
  match o with Some a => test a | None => true end.

(** A field of a descriptor that [createSchema] turns into a well-formed
    member: a plain name other than "__proto__", well-formed [items],
    normal bounds. *)
Definition wellFormedField (entry : string * FieldSpec) : bool :=
  plainKey (fst entry) && negb (Obj.isProtoKey (fst entry))
  && optionHolds wellFormed (items (snd entry))
  && optionHolds isNormal (minimum (snd entry))
  && optionHolds isNormal (maximum (snd entry)).

(** The two verdicts of [validateSchema] on a text that is JSON. *)
Definition accepted (v : Json) : ValidationResult :=
  {| valid := true; error := None; parsed := Some v |}.

Definition notAnObject : ValidationResult :=
  {| valid := false;
     error := Some "Schema must be a JSON object, not an array or primitive value";
     parsed := None |}.

(** ** Schema sets and descriptions the statements name *)

(** The generators return eleven schema sets in all. *)
Definition producedSchemaSets : list SchemaSet :=
  getDefaultSchema tt :: map (fun p => generator p tt) schemaPatterns.

(** The description of the specification's example. *)
Definition fraudulentEmails : string :=
  "I want to identify which company emails are fraudulent".

(** "churn" and "cancel" with one keyword of the price entry. *)
Definition churnExample : string := "Customers CHURN and cancel because of the price".

(** A tie between the sentiment entry and the price entry, nine each. *)
(** "churn" and "cancel" with a third keyword of the churn entry and one
    keyword of the price entry. *)
Definition retentionExample : string := "churn cancel retention price".

Definition tieExample : string := "Please review the cost".

(** "estimate" and no other keyword. *)
Definition estimateExample : string := "Estimate the delivery time".

(** The entries in the order of section 4.1 of the specification. *)
Definition specOrderPatterns : list SchemaPattern :=
  [ fraudPattern; churnPattern; sentimentPattern; pricePattern; classifyPattern;
    recommendPattern; anomalyPattern; imagePattern; summarizePattern; predictPattern ].

(** Two descriptions that differ by letter case only, and two that
    contain the same keywords in different sentences. *)
Definition shoutedExample : string := "DETECT Spam in my INBOX".
Definition quietExample : string := "detect spam in my inbox".
Definition rewordedExample : string := "my inbox: spam! detect it".

(** A description with more than four words and uneven spacing. *)
Definition spacedExample : string := "  detect   SPAM in customer e-mails  ".

(** A visit of the page: a description, a file, the schemas, an edit of
    the input schema that breaks it and one that repairs it. *)
Definition visit : list Page.Event :=
  [ Page.DescriptionChanged "detect spam";
    Page.Step1Continue;
    Page.FileChosen (Some {| Page.name := "mail.csv"; Page.size := 1024 |});
    Page.Step2Continue;
    Page.InputSchemaChanged (Some "{");
    Page.InputSchemaChanged (Some (dq "{'type': 'object'}")) ].

(** A schema as a user may have edited it: nested, with an escaped
    string, an empty object, and numbers in each of the forms that
    [Number::toString] prints (-2.5, 1e+21, 5e-7, 0.001, 1200, 0). *)
Definition editedSchema : Json :=
  JObject
    [ ("type", JString "object");
      ("title", JString (String "a" (String JSON.dquote (String JSON.backslash "b"))));
      ("properties",
        JObject
          [ ("score", JObject [("type", JString "number");
                               ("minimum", JNumber (mkNumber (-25) (-1)));
                               ("maximum", JNumber (mkNumber 1 21))]);
            ("tags", JObject [("type", JString "array");
                              ("items", JObject []);
                              ("default", JArray [JNull; JBool true; JBool false; JArray []])]) ]);
      ("steps", JArray [JNumber (mkNumber 5 (-7)); JNumber (mkNumber 1 (-3));
                        JNumber (mkNumber 12 2); JNumber (mkNumber 0 0)]) ].

(** A descriptor that is not in the catalog: a field with items, bounds
    on both sides. *)
Definition surveyFields : list (string * FieldSpec) :=
  [ ("answers", withItems (JObject [("type", JString "string")])
                  (field "array" "Answers in order"));
    ("rating", withMaximum 5 (withMinimum (-5) (field "integer" "Rating")));
    ("comment", field "string" "Free text") ].

(** An object written with an array index after another key, which no
    object of the program is. *)
Definition indexAfterName : Json :=
  JObject [("b", JNull); ("1", JNull)].

(** A descriptor with a field named "__proto__", as [JSON.parse] or a
    computed key can give it. *)
Definition protoFields : list (string * FieldSpec) :=
  [ ("age", withMinimum 0 (field "integer" "Age in years"));
    ("__proto__", field "string" "Prototype");
    ("name", field "string" "Name") ].

(** * Properties *)

(** Splits a conjunction into its parts, and nothing else. *)
Ltac conjuncts := repeat match goal with |- _ /\ _ => split end.

(** Reads a field of a state of the page through the setters. *)
Ltac page_fields :=
  cbn [Page.step Page.modelId Page.problemDescription Page.modelName Page.nameManuallyEdited
       Page.inputSchemaString Page.outputSchemaString Page.inputSchemaError
       Page.outputSchemaError Page.copiedSchema Page.dataSourceType Page.csvFile
       Page.s3BucketUrl Page.s3Region Page.s3AccessKeyId Page.s3SecretAccessKey
       Page.setStep Page.setModelId Page.setProblemDescription Page.setModelName
       Page.setNameManuallyEdited Page.setInputSchemaString Page.setOutputSchemaString
       Page.setInputSchemaError Page.setOutputSchemaError Page.setCopiedSchema
       Page.setDataSourceType Page.setCsvFile Page.setS3BucketUrl Page.setS3Region
       Page.setS3AccessKeyId Page.setS3SecretAccessKey Page.handleCopySchema fst] in *.

(** ** Numbers print as the source writes them *)

Example toString_100 : Num.toString (Num.ofZ 100) = "100".
Proof. reflexivity. Qed.

Example toString_neg1 : Num.toString (Num.ofZ (-1)) = "-1".
Proof. reflexivity. Qed.

Example toString_frac : Num.toString (Num.ofDigits false "15" (-1)) = "1.5".
Proof. reflexivity. Qed.

Example toString_small : Num.toString (Num.ofDigits true "125" (-9)) = "-1.25e-7".
Proof. reflexivity. Qed.

(** ** Strings: containment, letter case, white space *)

Section StringFacts.

Lemma startsWith_spec (s k : string) :
  Str.startsWith s k = true <-> exists t, s = k ++ t.
Proof.
  revert s; induction k as [|a k IH]; intros s; simpl.
  - split; [intros _; now exists s | reflexivity].
  - destruct s as [|b s].
    + split; [discriminate | intros [t H]; discriminate].
    + rewrite andb_true_iff, Ascii.eqb_eq, IH. split.
      * intros [-> [t ->]]. now exists t.
      * intros [t H]. injection H as <- ->. split; [reflexivity | now exists t].
Qed.

Lemma includes_spec (s k : string) :
  Str.includes s k = true <-> occurs k s.
Proof.
  unfold occurs. induction s as [|c s IH].
  - simpl. rewrite orb_false_r, startsWith_spec. split.
    + intros [t H]. exists "", t. exact H.
    + intros [pre [post H]]. destruct pre; [now exists post | discriminate].
  - cbn [Str.includes]. rewrite orb_true_iff, startsWith_spec, IH. split.
    + intros [[t H] | [pre [post H]]].
      * exists "", t. exact H.
      * exists (String c pre), post. simpl. now rewrite H.
    + intros [pre [post H]]. destruct pre as [|a pre].
      * left. now exists post.
      * right. simpl in H. injection H as _ H. now exists pre, post.
Qed.

Lemma append_assoc (a b c : string) : (a ++ b) ++ c = a ++ b ++ c.
Proof. induction a as [|x a IH]; simpl; [reflexivity | now rewrite IH]. Qed.

Lemma occurs_trans (a b s : string) : occurs a b -> occurs b s -> occurs a s.
Proof.
  intros [p1 [q1 ->]] [p2 [q2 ->]].
  exists (p2 ++ p1), (q1 ++ q2). now rewrite !append_assoc.
Qed.

Lemma toLowerCase_app (a b : string) :
  Str.toLowerCase (a ++ b) = Str.toLowerCase a ++ Str.toLowerCase b.
Proof. induction a as [|x a IH]; simpl; [reflexivity | now rewrite IH]. Qed.

Lemma occurs_toLowerCase (k s : string) :
  occurs k s -> occurs (Str.toLowerCase k) (Str.toLowerCase s).
Proof.
  intros [pre [post ->]].
  exists (Str.toLowerCase pre), (Str.toLowerCase post).
  now rewrite !toLowerCase_app.
Qed.

Lemma whiteSpace_lower (c : ascii) :
  Str.isWhiteSpace c = true -> Str.toLowerCaseChar c = c.
Proof.
  destruct c as [[] [] [] [] [] [] [] []]; vm_compute; congruence.
Qed.

Lemma allWhiteSpace_toLowerCase (s : string) :
  allWhiteSpace s = true -> allWhiteSpace (Str.toLowerCase s) = true.
Proof.
  induction s as [|c s IH]; simpl; [reflexivity|].
  rewrite !andb_true_iff. intros [Hc Hs].
  rewrite (whiteSpace_lower c Hc). auto.
Qed.

Lemma trimStart_empty (s : string) :
  Str.trimStart s = "" <-> allWhiteSpace s = true.
Proof.
  induction s as [|c s IH]; simpl; [tauto|].
  destruct (Str.isWhiteSpace c); simpl; [exact IH | split; discriminate].
Qed.

Lemma trimEnd_empty (s : string) :
  Str.trimEnd s = "" <-> allWhiteSpace s = true.
Proof.
  induction s as [|c s IH]; simpl; [tauto|].
  destruct (Str.trimEnd s) eqn:E.
  - destruct (Str.isWhiteSpace c); simpl.
    + split; [intros _; now apply IH | reflexivity].
    + split; discriminate.
  - split; [discriminate|].
    rewrite andb_true_iff. intros [_ H]. apply IH in H. discriminate.
Qed.

Lemma allWhiteSpace_trimStart (s : string) :
  allWhiteSpace (Str.trimStart s) = true -> allWhiteSpace s = true.
Proof.
  induction s as [|c s IH]; simpl; [reflexivity|].
  destruct (Str.isWhiteSpace c) eqn:E; simpl; [exact IH|].
  now rewrite E.
Qed.

Lemma trim_empty (s : string) :
  Str.trim s = "" <-> allWhiteSpace s = true.
Proof.
  unfold Str.trim. rewrite trimEnd_empty. split.
  - apply allWhiteSpace_trimStart.
  - intros H. apply trimStart_empty in H. now rewrite H.
Qed.

Lemma length_zero (s : string) : String.length s = 0 <-> s = "".
Proof. destruct s; simpl; split; congruence. Qed.

Lemma isBlank_spec (s : string) :
  isBlank s = true <-> Str.trim s = "".
Proof.
  unfold isBlank. rewrite orb_true_iff, String.eqb_eq, Nat.eqb_eq, length_zero.
  split; [intros [-> | H]; [reflexivity | exact H] | auto].
Qed.

Lemma isBlank_false (s : string) :
  isBlank s = false <-> Str.trim s <> "".
Proof.
  rewrite <- isBlank_spec. destruct (isBlank s); split; congruence.
Qed.

(** A white-space string contains no word that starts with a letter. *)
Lemma allWhiteSpace_includes (s : string) (c : ascii) (k : string) :
  allWhiteSpace s = true -> Str.isWhiteSpace c = false ->
  Str.includes s (String c k) = false.
Proof.
  intros Hs Hc. induction s as [|b s IH]; [reflexivity|].
  simpl in Hs. apply andb_true_iff in Hs as [Hb Hs].
  cbn [Str.includes Str.startsWith].
  rewrite (IH Hs), orb_false_r.
  destruct (Ascii.eqb c b) eqn:E; [|reflexivity].
  apply Ascii.eqb_eq in E. congruence.
Qed.

End StringFacts.

(** ** The loop of [generateSchemas] *)


Section Scan.

Variable lowerDescription : string.

Let score := effectivePriority lowerDescription.
Let count := matchCount lowerDescription.

(** What the loop leaves in [bestMatch] and [highestPriority], from any
    starting point: either no entry improved on the start, or the winner
    splits the list, every entry before it scoring less and every entry
    after it scoring no more. *)
Lemma fold_considerPattern (patterns : list SchemaPattern) :
  forall (best : option SchemaPattern) (highest : Z),
    let result := fold_left (considerPattern lowerDescription) patterns (best, highest) in
    (result = (best, highest) /\
     forall q, In q patterns -> 0 < count q -> (score q <= highest)%Z)
    \/
    (exists before p after,
        patterns = (before ++ p :: after)%list /\
        result = (Some p, score p) /\
        0 < count p /\
        (highest < score p)%Z /\
        (forall q, In q before -> 0 < count q -> (score q < score p)%Z) /\
        (forall q, In q after -> 0 < count q -> (score q <= score p)%Z)).
Proof.
  induction patterns as [|p ps IH]; intros best highest; cbn zeta.
  - left. split; [reflexivity | intros q []].
  - cbn [fold_left].
    destruct (0 <? matchCount lowerDescription p) eqn:Hm;
      [destruct (highest <? effectivePriority lowerDescription p)%Z eqn:Hh|].
    + replace (considerPattern lowerDescription (best, highest) p)
        with (Some p, effectivePriority lowerDescription p)
        by (unfold considerPattern; now rewrite Hm, Hh).
      apply Nat.ltb_lt in Hm. apply Z.ltb_lt in Hh.
      destruct (IH (Some p) (effectivePriority lowerDescription p))
        as [[Hr Hle] | (before & w & after & Hsplit & Hr & Hw & Hlt & Hb & Ha)].
      * right. exists [], p, ps. conjuncts; auto; intros q [].
      * right. exists (p :: before), w, after. split; [now rewrite Hsplit|].
        conjuncts; auto; try (unfold score in *; lia).
        intros q [<- | Hq] Hc; [exact Hlt | now apply Hb].
    + replace (considerPattern lowerDescription (best, highest) p)
        with (best, highest)
        by (unfold considerPattern; now rewrite Hm, Hh).
      apply Nat.ltb_lt in Hm. apply Z.ltb_ge in Hh.
      destruct (IH best highest)
        as [[Hr Hle] | (before & w & after & Hsplit & Hr & Hw & Hlt & Hb & Ha)].
      * left. split; [exact Hr|]. intros q [<- | Hq] Hc; [exact Hh | now apply Hle].
      * right. exists (p :: before), w, after. split; [now rewrite Hsplit|].
        conjuncts; auto.
        intros q [<- | Hq] Hc; [unfold score in *; lia | now apply Hb].
    + replace (considerPattern lowerDescription (best, highest) p)
        with (best, highest)
        by (unfold considerPattern; now rewrite Hm).
      apply Nat.ltb_ge in Hm.
      destruct (IH best highest)
        as [[Hr Hle] | (before & w & after & Hsplit & Hr & Hw & Hlt & Hb & Ha)].
      * left. split; [exact Hr|].
        intros q [<- | Hq] Hc; [unfold count in Hc; lia | now apply Hle].
      * right. exists (p :: before), w, after. split; [now rewrite Hsplit|].
        conjuncts; auto.
        intros q [<- | Hq] Hc; [unfold count in Hc; lia | now apply Hb].
Qed.

(** From [null] and [-1], over entries of positive priority. *)
Lemma scanPatterns_spec (patterns : list SchemaPattern) :
  (forall p, In p patterns -> (0 < priority p)%Z) ->
  (scanPatterns patterns lowerDescription = (None, (-1)%Z) /\
   forall q, In q patterns -> count q = 0)
  \/
  (exists before p after,
      patterns = (before ++ p :: after)%list /\
      scanPatterns patterns lowerDescription = (Some p, score p) /\
      0 < count p /\
      (forall q, In q before -> (score q < score p)%Z) /\
      (forall q, In q after -> (score q <= score p)%Z)).
Proof.
  intros Hpos.
  assert (Hscore : forall q, In q patterns -> 0 < count q -> (0 < score q)%Z).
  { intros q Hq Hc. specialize (Hpos q Hq).
    unfold score, effectivePriority. fold (count q). nia. }
  assert (Hzero : forall q, count q = 0 -> score q = 0%Z).
  { intros q Hc. unfold score, effectivePriority. fold (count q). rewrite Hc. lia. }
  destruct (fold_considerPattern patterns None (-1)%Z)
    as [[Hr Hle] | (before & w & after & Hsplit & Hr & Hw & Hlt & Hb & Ha)].
  - left. split; [exact Hr|].
    intros q Hq. destruct (count q) eqn:E; [reflexivity|].
    assert (Hc : 0 < count q) by lia.
    specialize (Hle q Hq Hc). specialize (Hscore q Hq Hc). lia.
  - right. exists before, w, after.
    assert (Hwpos : (0 < score w)%Z).
    { apply Hscore; [rewrite Hsplit; apply in_elt | exact Hw]. }
    conjuncts; auto.
    + intros q Hq. destruct (count q) eqn:E.
      * rewrite (Hzero q E). exact Hwpos.
      * apply Hb; [exact Hq | lia].
    + intros q Hq. destruct (count q) eqn:E.
      * rewrite (Hzero q E). lia.
      * apply Ha; [exact Hq | lia].
Qed.

End Scan.

(** ** Facts about the catalog *)

Lemma catalog_priorities_positive :
  forall p, In p schemaPatterns -> (0 < priority p)%Z.
Proof.
  intros p Hp. simpl in Hp.
  repeat (destruct Hp as [<- | Hp]; [reflexivity|]). destruct Hp.
Qed.

Lemma catalog_keywords_distinct :
  forall p, In p schemaPatterns -> NoDup (keywords p).
Proof.
  intros p Hp. simpl in Hp.
  repeat (destruct Hp as [<- | Hp];
          [simpl; repeat (constructor; [simpl; intuition discriminate|]); constructor|]).
  destruct Hp.
Qed.

(** No keyword starts with white space. *)
Lemma catalog_keywords_start (k : string) :
  In k (allKeywords schemaPatterns) ->
  exists c k', k = String c k' /\ Str.isWhiteSpace c = false.
Proof.
  intros Hk. cbv [allKeywords flat_map schemaPatterns keywords fraudPattern churnPattern
    sentimentPattern classifyPattern pricePattern recommendPattern anomalyPattern imagePattern
    summarizePattern predictPattern app] in Hk.
  repeat (destruct Hk as [<- | Hk]; [eexists _, _; split; reflexivity|]). destruct Hk.
Qed.

Lemma in_allKeywords (patterns : list SchemaPattern) (p : SchemaPattern) (k : string) :
  In p patterns -> In k (keywords p) -> In k (allKeywords patterns).
Proof. intros Hp Hk. apply in_flat_map. now exists p. Qed.

(** A generator never returns the default schema. *)
Lemma generator_not_default :
  forall p, In p schemaPatterns -> generator p tt <> getDefaultSchema tt.
Proof.
  intros p Hp. simpl in Hp.
  repeat (destruct Hp as [<- | Hp]; [intros H; vm_compute in H; discriminate H|]).
  destruct Hp.
Qed.

(** ** The count of an entry *)

Lemma filter_length_zero {A} (f : A -> bool) (l : list A) :
  List.length (filter f l) = 0 <-> forall x, In x l -> f x = false.
Proof.
  induction l as [|a l IH]; simpl.
  - split; [intros _ x [] | reflexivity].
  - destruct (f a) eqn:E; simpl.
    + split; [discriminate | intros H; specialize (H a (or_introl eq_refl)); congruence].
    + rewrite IH. split.
      * intros H x [<- | Hx]; auto.
      * intros H x Hx. apply H. now right.
Qed.

Lemma matchCount_zero (ld : string) (p : SchemaPattern) :
  matchCount ld p = 0 <-> forall k, In k (keywords p) -> Str.includes ld k = false.
Proof. apply filter_length_zero. Qed.

Lemma matchCount_positive (ld : string) (p : SchemaPattern) (k : string) :
  In k (keywords p) -> Str.includes ld k = true -> 0 < matchCount ld p.
Proof.
  intros Hk Hi. destruct (matchCount ld p) eqn:E; [|lia].
  rewrite matchCount_zero in E. rewrite (E k Hk) in Hi. discriminate.
Qed.

(** A blank description contains no keyword, in whatever letter case. *)
Lemma blank_matchCount (d : string) (p : SchemaPattern) :
  isBlank d = true -> In p schemaPatterns -> matchCount (Str.toLowerCase d) p = 0.
Proof.
  intros Hb Hp. apply matchCount_zero. intros k Hk.
  destruct (catalog_keywords_start k (in_allKeywords _ _ _ Hp Hk)) as (c & k' & -> & Hc).
  apply allWhiteSpace_includes; [|exact Hc].
  apply allWhiteSpace_toLowerCase, trim_empty, isBlank_spec, Hb.
Qed.

(** ** What [generateSchemas] returns *)

(** Either no keyword of the catalog occurs and the default schema is
    returned, or the winner is the first entry of the catalog with the
    highest score. *)
Lemma generateSchemas_cases (d : string) :
  let ld := Str.toLowerCase d in
  (generateSchemas d = getDefaultSchema tt /\
   forall q, In q schemaPatterns -> matchCount ld q = 0)
  \/
  (exists before p after,
      schemaPatterns = (before ++ p :: after)%list /\
      isBlank d = false /\
      generateSchemas d = generator p tt /\
      0 < matchCount ld p /\
      (forall q, In q before -> (effectivePriority ld q < effectivePriority ld p)%Z) /\
      (forall q, In q after -> (effectivePriority ld q <= effectivePriority ld p)%Z)).
Proof.
  intros ld. unfold generateSchemas. destruct (isBlank d) eqn:Hb.
  - left. split; [reflexivity|]. intros q Hq. now apply blank_matchCount.
  - fold ld.
    destruct (scanPatterns_spec ld schemaPatterns catalog_priorities_positive)
      as [[Hr Hz] | (before & p & after & Hsplit & Hr & Hp & Hbefore & Hafter)].
    + left. rewrite Hr. split; [reflexivity | exact Hz].
    + right. exists before, p, after. rewrite Hr. conjuncts; auto.
Qed.

(** ** More facts about the catalog *)

Lemma catalog_priorities_bounded :
  forall p, In p schemaPatterns -> (priority p <= 10)%Z.
Proof.
  intros p Hp. simpl in Hp.
  repeat (destruct Hp as [<- | Hp]; [simpl; lia|]). destruct Hp.
Qed.

(** The keyword list tells the entries apart. *)
Lemma catalog_keywords_injective (p q : SchemaPattern) :
  In p schemaPatterns -> In q schemaPatterns -> keywords p = keywords q -> p = q.
Proof.
  intros Hp Hq. simpl in Hp, Hq.
  repeat (destruct Hp as [<- | Hp];
          [repeat (destruct Hq as [<- | Hq];
                   [intros H; first [reflexivity | discriminate H]|]);
           destruct Hq|]).
  destruct Hp.
Qed.


Lemma generateSchemas_produced (d : string) :
  In (generateSchemas d) producedSchemaSets.
Proof.
  destruct (generateSchemas_cases d)
    as [[Hr _] | (before & p & after & Hsplit & _ & Hr & _)]; rewrite Hr.
  - now left.
  - right. apply in_map_iff. exists p. split; [reflexivity|].
    rewrite Hsplit. apply in_elt.
Qed.

(** The count of an entry is the number of its keywords that occur. *)
Lemma matchCount_distinct (ld : string) (p : SchemaPattern) :
  NoDup (keywords p) ->
  exists occurring,
    NoDup occurring /\
    (forall k, In k occurring <-> In k (keywords p) /\ occurs k ld) /\
    matchCount ld p = List.length occurring.
Proof.
  intros Hnd. exists (filter (fun keyword => Str.includes ld keyword) (keywords p)).
  split; [now apply NoDup_filter|]. split; [|reflexivity].
  intros k. now rewrite filter_In, includes_spec.
Qed.


(** ** C1: the example of the specification *)

(** C1, as stated, fails: on the example description the fraud entry
    does not have [matchCount = 1] and [effectiveScore = 10], because
    both "fraud" and "fraudulent" occur in it. *)
Lemma fraud_example_not_single_match :
  ~ (matchCount (Str.toLowerCase fraudulentEmails) fraudPattern = 1 /\
     effectivePriority (Str.toLowerCase fraudulentEmails) fraudPattern = 10%Z).
Proof. intros [H _]. vm_compute in H. discriminate H. Qed.

(** C1, amended: on the example description the fraud entry wins with
    [matchCount = 2] and [effectiveScore = 20], no other entry matches
    and a single-keyword match scores 10 at most; the output schema
    requires "is_fraudulent" and "confidence", and its "confidence"
    field has minimum 0 and maximum 1. *)
Theorem fraud_example :
  let ld := Str.toLowerCase fraudulentEmails in
  let out := output (generateSchemas fraudulentEmails) in
  scanPatterns schemaPatterns ld = (Some fraudPattern, 20%Z) /\
  map (matchCount ld) schemaPatterns = [2; 0; 0; 0; 0; 0; 0; 0; 0; 0] /\
  effectivePriority ld fraudPattern = 20%Z /\
  Forall (fun p => (priority p * 1 <= 10)%Z /\ (10 < effectivePriority ld fraudPattern)%Z)
         schemaPatterns /\
  generateSchemas fraudulentEmails = generator fraudPattern tt /\
  requiredOf out = [JString "is_fraudulent"; JString "confidence"] /\
  match Obj.get "confidence" (propertiesOf out) with
  | Some f => numberOf "minimum" f = Some (Num.ofZ 0) /\ numberOf "maximum" f = Some (Num.ofZ 1)
  | None => False
  end.
Proof.
  cbv zeta. conjuncts; try (vm_compute; reflexivity).
  - repeat constructor; vm_compute; congruence.
  - vm_compute. split; reflexivity.
Qed.

(** ** C2: the score and the winner *)

(** C2, as stated, fails: "churn" and "cancel" occur in the description,
    together with exactly one keyword of one other entry, and yet the
    churn entry does not score 20: "retention" occurs as well, the count
    is 3 and the score 30. *)
Lemma churn_cancel_score_not_20 :
  occurs "churn" (Str.toLowerCase retentionExample) /\
  occurs "cancel" (Str.toLowerCase retentionExample) /\
  map (matchCount (Str.toLowerCase retentionExample)) schemaPatterns
  = [0; 3; 0; 0; 1; 0; 0; 0; 0; 0] /\
  generateSchemas retentionExample = generator churnPattern tt /\
  effectivePriority (Str.toLowerCase retentionExample) churnPattern = 30%Z /\
  effectivePriority (Str.toLowerCase retentionExample) churnPattern <> 20%Z.
Proof.
  split; [apply includes_spec; vm_compute; reflexivity|].
  split; [apply includes_spec; vm_compute; reflexivity|].
  split; [vm_compute; reflexivity|].
  split; [vm_compute; reflexivity|].
  split; [vm_compute; reflexivity|].
  intros H. vm_compute in H. discriminate H.
Qed.

(** C2, amended: for every description, the count of each entry is the
    number of its distinct keywords that occur in the lower-cased
    description, the score of an entry is its priority times its count,
    and when some entry matches, the generator result of an entry of
    maximal score is returned; when "churn" and "cancel" occur and every
    other entry matches one keyword at most, the churn entry wins with a
    score of 10 times its count, which is at least 20, and is 20 exactly
    when none of "retention", "attrition" and "unsubscribe" occurs,
    every other entry scoring 10 at most. *)
Theorem generateSchemas_maximal_score (d : string) :
  let ld := Str.toLowerCase d in
  (forall p, In p schemaPatterns ->
     exists occurring,
       NoDup occurring /\
       (forall k, In k occurring <-> In k (keywords p) /\ occurs k ld) /\
       matchCount ld p = List.length occurring /\
       effectivePriority ld p = (priority p * Z.of_nat (List.length occurring))%Z) /\
  ((exists p, In p schemaPatterns /\ 0 < matchCount ld p) ->
   exists p, In p schemaPatterns /\ 0 < matchCount ld p /\
             (forall q, In q schemaPatterns -> (effectivePriority ld q <= effectivePriority ld p)%Z) /\
             generateSchemas d = generator p tt) /\
  (occurs "churn" ld -> occurs "cancel" ld ->
   (forall q, In q schemaPatterns -> keywords q <> keywords churnPattern -> matchCount ld q <= 1) ->
   generateSchemas d = generator churnPattern tt /\
   effectivePriority ld churnPattern = (10 * Z.of_nat (matchCount ld churnPattern))%Z /\
   (20 <= effectivePriority ld churnPattern)%Z /\
   (effectivePriority ld churnPattern = 20%Z <->
    ~ occurs "retention" ld /\ ~ occurs "attrition" ld /\ ~ occurs "unsubscribe" ld) /\
   (forall q, In q schemaPatterns -> keywords q <> keywords churnPattern ->
      (effectivePriority ld q <= 10)%Z)).
Proof.
  intros ld. split; [|split].
  - intros p Hp.
    destruct (matchCount_distinct ld p (catalog_keywords_distinct p Hp))
      as (occurring & Hnd & Hin & Hlen).
    exists occurring. conjuncts; auto.
    unfold effectivePriority. now rewrite Hlen.
  - intros (p0 & Hp0 & Hc0).
    destruct (generateSchemas_cases d)
      as [[_ Hz] | (before & p & after & Hsplit & _ & Hr & Hp & Hb & Ha)].
    + specialize (Hz p0 Hp0). fold ld in Hz. lia.
    + exists p. fold ld in Hp, Hb, Ha. conjuncts; auto.
      * rewrite Hsplit. apply in_elt.
      * intros q Hq. rewrite Hsplit in Hq. apply in_app_or in Hq as [Hq | [<- | Hq]].
        -- specialize (Hb q Hq). lia.
        -- lia.
        -- now apply Ha.
  - intros Hchurn Hcancel Hothers.
    apply includes_spec in Hchurn, Hcancel.
    assert (Hcount : 2 <= matchCount ld churnPattern).
    { unfold matchCount. cbn [keywords churnPattern filter].
      rewrite Hchurn, Hcancel.
      destruct (Str.includes ld "retention"), (Str.includes ld "attrition"),
        (Str.includes ld "unsubscribe"); simpl; lia. }
    assert (Hscore : effectivePriority ld churnPattern
                     = (10 * Z.of_nat (matchCount ld churnPattern))%Z) by reflexivity.
    assert (Hle : forall q, In q schemaPatterns -> keywords q <> keywords churnPattern ->
                            (effectivePriority ld q <= 10)%Z).
    { intros q Hq Hne. specialize (Hothers q Hq Hne).
      pose proof (catalog_priorities_bounded q Hq).
      pose proof (catalog_priorities_positive q Hq).
      unfold effectivePriority. nia. }
    assert (Hin : In churnPattern schemaPatterns) by (simpl; tauto).
    conjuncts; auto; try lia.
    + destruct (generateSchemas_cases d)
        as [[_ Hz] | (before & p & after & Hsplit & _ & Hr & Hp & Hb & Ha)].
      * specialize (Hz churnPattern Hin). fold ld in Hz. lia.
      * fold ld in Hp, Hb, Ha. rewrite Hr. f_equal.
        assert (Hpin : In p schemaPatterns) by (rewrite Hsplit; apply in_elt).
        apply catalog_keywords_injective; auto.
        destruct (list_eq_dec string_dec (keywords p) (keywords churnPattern)) as [E | Hne];
          [exact E|].
        specialize (Hle p Hpin Hne).
        assert (effectivePriority ld churnPattern <= effectivePriority ld p)%Z; [|lia].
        rewrite Hsplit in Hin. apply in_app_or in Hin as [Hq | [<- | Hq]].
        -- specialize (Hb _ Hq). lia.
        -- lia.
        -- now apply Ha.
    + rewrite Hscore. unfold matchCount. cbn [keywords churnPattern filter].
      rewrite Hchurn, Hcancel. rewrite <- !includes_spec.
      destruct (Str.includes ld "retention"), (Str.includes ld "attrition"),
        (Str.includes ld "unsubscribe"); cbn [filter List.length];
        (split; [intros H; first [lia | repeat split; discriminate]
                | intros (H1 & H2 & H3); first [reflexivity | exfalso; auto]]).
Qed.


Lemma generateSchemas_maximal_score_witness :
  generateSchemas churnExample = generator churnPattern tt /\
  effectivePriority (Str.toLowerCase churnExample) churnPattern = 20%Z.
Proof.
  destruct (generateSchemas_maximal_score churnExample) as (_ & _ & H).
  destruct H as (Hwin & _ & _ & Hexact & _).
  - apply includes_spec. vm_compute. reflexivity.
  - apply includes_spec. vm_compute. reflexivity.
  - intros q Hq Hne. simpl in Hq.
    repeat (destruct Hq as [<- | Hq]; [first [now elim Hne | vm_compute; lia]|]).
    destruct Hq.
  - split; [exact Hwin|]. apply Hexact.
    repeat split; intros H; apply includes_spec in H; vm_compute in H; discriminate H.
Defined.

(** ** C3: ties and the order of the catalog *)

(** C3, as stated, fails: the catalog is not declared in the order of
    section 4.1 of the specification, where the price entry comes before
    the classify entry. *)
Lemma catalog_order_differs_from_spec :
  map signature schemaPatterns <> spec_catalog_order.
Proof. intros H. vm_compute in H. discriminate H. Qed.

(** C3, amended: the entry returned is the earliest declared among those
    of maximal score, and the catalog is declared in the order fraud,
    churn, sentiment, classify, price, recommend, anomaly, image,
    summarize, predict (classify before price), with the keywords and
    priorities of section 4.1. *)
Theorem first_declared_wins :
  (forall (d : string) (i : nat) (p : SchemaPattern),
     let ld := Str.toLowerCase d in
     nth_error schemaPatterns i = Some p ->
     0 < matchCount ld p ->
     (forall q, In q schemaPatterns -> (effectivePriority ld q <= effectivePriority ld p)%Z) ->
     (forall j q, j < i -> nth_error schemaPatterns j = Some q ->
                  effectivePriority ld q <> effectivePriority ld p) ->
     generateSchemas d = generator p tt) /\
  map signature schemaPatterns =
    [ (["fraud"; "fraudulent"; "scam"; "spam"; "phishing"; "fake"], 10%Z);
      (["churn"; "retention"; "attrition"; "cancel"; "unsubscribe"], 10%Z);
      (["sentiment"; "emotion"; "feeling"; "opinion"; "review"], 9%Z);
      (["classify"; "classification"; "categorize"; "category"; "label"; "tag"], 8%Z);
      (["price"; "pricing"; "cost"; "estimate"; "valuation"; "worth"], 9%Z);
      (["recommend"; "recommendation"; "suggest"; "personalize"], 8%Z);
      (["anomaly"; "outlier"; "abnormal"; "unusual"; "detect"], 8%Z);
      (["image"; "photo"; "picture"; "visual"; "recognize"], 7%Z);
      (["summarize"; "summary"; "extract"; "abstract"; "tldr"], 7%Z);
      (["predict"; "forecast"; "estimate"], 5%Z) ].
Proof.
  split; [|vm_compute; reflexivity].
  intros d i p ld Hi Hp Hmax Hfirst.
  assert (Hin : In p schemaPatterns) by (eapply nth_error_In; eassumption).
  destruct (generateSchemas_cases d)
    as [[_ Hz] | (before & w & after & Hsplit & _ & Hr & Hw & Hb & Ha)].
  - specialize (Hz p Hin). fold ld in Hz. lia.
  - fold ld in Hw, Hb, Ha. rewrite Hr. f_equal.
    assert (Hwin : In w schemaPatterns) by (rewrite Hsplit; apply in_elt).
    assert (Hwi : nth_error schemaPatterns (List.length before) = Some w).
    { rewrite Hsplit, nth_error_app2, Nat.sub_diag by lia. reflexivity. }
    destruct (Nat.lt_trichotomy i (List.length before)) as [Hlt | [Heq | Hgt]].
    + rewrite Hsplit, nth_error_app1 in Hi by exact Hlt.
      apply nth_error_In in Hi. specialize (Hb p Hi). specialize (Hmax w Hwin). lia.
    + subst i. congruence.
    + exfalso. apply (Hfirst _ w Hgt Hwi).
      apply Z.le_antisymm; [now apply Hmax|].
      apply Ha. rewrite Hsplit, nth_error_app2 in Hi by lia.
      destruct (i - List.length before) as [|k] eqn:E; [lia|].
      simpl in Hi. eapply nth_error_In; eassumption.
Qed.


Lemma first_declared_wins_witness :
  generateSchemas tieExample = generator sentimentPattern tt /\
  effectivePriority (Str.toLowerCase tieExample) sentimentPattern
  = effectivePriority (Str.toLowerCase tieExample) pricePattern.
Proof.
  split; [|vm_compute; reflexivity].
  apply (proj1 first_declared_wins tieExample 2 sentimentPattern).
  - reflexivity.
  - vm_compute. lia.
  - intros q Hq. simpl in Hq.
    repeat (destruct Hq as [<- | Hq]; [vm_compute; congruence|]). destruct Hq.
  - intros j q Hj Hq. destruct j as [|[|j]]; [| |lia];
      simpl in Hq; injection Hq as <-; vm_compute; congruence.
Defined.

(** The two orders cannot be told apart by a description: the classify
    entry scores a multiple of 8 up to 48, the price entry a multiple of
    9 up to 54, so the two never tie on a positive score. *)
Lemma considerPattern_swap (ld : string) (st : Best) :
  considerPattern ld (considerPattern ld st classifyPattern) pricePattern
  = considerPattern ld (considerPattern ld st pricePattern) classifyPattern.
Proof.
  destruct st as [best highest].
  pose proof (filter_length_le (fun keyword => Str.includes ld keyword) (keywords classifyPattern))
    as Hc.
  pose proof (filter_length_le (fun keyword => Str.includes ld keyword) (keywords pricePattern))
    as Hp.
  fold (matchCount ld classifyPattern) in Hc. fold (matchCount ld pricePattern) in Hp.
  cbn [keywords classifyPattern pricePattern List.length] in Hc, Hp.
  unfold considerPattern, effectivePriority.
  cbn [priority classifyPattern pricePattern].
  set (cc := matchCount ld classifyPattern) in *.
  set (cp := matchCount ld pricePattern) in *.
  repeat match goal with
         | |- context [if ?c then _ else _] =>
             let E := fresh "E" in destruct c eqn:E; cbn beta iota zeta
         end;
    try reflexivity; exfalso;
    repeat match goal with
           | H : (_ <? _)%Z = true |- _ => apply Z.ltb_lt in H
           | H : (_ <? _)%Z = false |- _ => apply Z.ltb_ge in H
           | H : (_ <? _) = true |- _ => apply Nat.ltb_lt in H
           | H : (_ <? _) = false |- _ => apply Nat.ltb_ge in H
           end;
    lia.
Qed.

Lemma spec_order_same_results :
  map signature specOrderPatterns = spec_catalog_order /\
  forall d, generateSchemasFrom specOrderPatterns d = generateSchemas d.
Proof.
  split; [vm_compute; reflexivity|].
  intros d. unfold generateSchemasFrom, generateSchemas.
  destruct (isBlank d); [reflexivity|].
  unfold scanPatterns. cbn [fold_left specOrderPatterns schemaPatterns].
  now rewrite considerPattern_swap.
Qed.

(** ** C4: the default schema *)

(** C4: the default schema is returned exactly when the trimmed
    description is empty or no keyword of the catalog occurs in the
    lower-cased description; in the first case whatever the catalog,
    which is not read.  The default input schema has the properties
    data, features and metadata and requires "data"; the default output
    schema has the properties prediction, confidence and metadata,
    requires "prediction" and bounds confidence by 0 and 1. *)
Theorem default_schema_cases :
  (forall d,
     generateSchemas d = getDefaultSchema tt <->
     Str.trim d = "" \/
     (Str.trim d <> "" /\
      forall k, In k (allKeywords schemaPatterns) -> ~ occurs k (Str.toLowerCase d))) /\
  (forall d patterns, Str.trim d = "" -> generateSchemasFrom patterns d = getDefaultSchema tt) /\
  (forall d, generateSchemas d = generateSchemasFrom schemaPatterns d) /\
  (let s := input (getDefaultSchema tt) in
   Obj.keys (propertiesOf s) = ["data"; "features"; "metadata"] /\
   requiredOf s = [JString "data"]) /\
  (let s := output (getDefaultSchema tt) in
   Obj.keys (propertiesOf s) = ["prediction"; "confidence"; "metadata"] /\
   requiredOf s = [JString "prediction"] /\
   match Obj.get "confidence" (propertiesOf s) with
   | Some f => numberOf "minimum" f = Some (Num.ofZ 0) /\ numberOf "maximum" f = Some (Num.ofZ 1)
   | None => False
   end).
Proof.
  split; [|split; [|split; [reflexivity|split; vm_compute; repeat split]]].
  - intros d. split.
    + intros Hdefault.
      destruct (Str.trim d) eqn:Htrim; [now left | right].
      split; [discriminate|].
      intros k Hk Hocc. apply includes_spec in Hocc.
      apply in_flat_map in Hk as (p & Hp & Hk).
      destruct (generateSchemas_cases d)
        as [[_ Hz] | (before & w & after & Hsplit & _ & Hr & _)].
      * pose proof (matchCount_positive _ p k Hk Hocc) as Hpos.
        specialize (Hz p Hp). lia.
      * apply (generator_not_default w); [rewrite Hsplit; apply in_elt | congruence].
    + intros [Hblank | [Hnonblank Hnone]].
      * unfold generateSchemas. apply isBlank_spec in Hblank. now rewrite Hblank.
      * destruct (generateSchemas_cases d)
          as [[Hr _] | (before & w & after & Hsplit & _ & _ & Hw & _)]; [exact Hr|].
        exfalso.
        destruct (filter (fun keyword => Str.includes (Str.toLowerCase d) keyword) (keywords w))
          as [|k rest] eqn:E; [unfold matchCount in Hw; rewrite E in Hw; simpl in Hw; lia|].
        assert (Hk : In k (k :: rest)) by now left.
        rewrite <- E in Hk. apply filter_In in Hk as [Hk Hocc].
        apply (Hnone k).
        -- apply in_allKeywords with w; [rewrite Hsplit; apply in_elt | exact Hk].
        -- now apply includes_spec.
  - intros d patterns Hblank. unfold generateSchemasFrom.
    apply isBlank_spec in Hblank. now rewrite Hblank.
Qed.

Lemma default_schema_cases_witness :
  generateSchemas "   " = getDefaultSchema tt /\
  generateSchemas "How tall will the tree grow" = getDefaultSchema tt.
Proof.
  split.
  - apply (proj1 default_schema_cases). left. vm_compute. reflexivity.
  - apply (proj1 default_schema_cases). right. split; [discriminate|].
    intros k Hk Hocc. apply includes_spec in Hocc.
    vm_compute in Hk.
    repeat (destruct Hk as [<- | Hk]; [vm_compute in Hocc; discriminate Hocc|]).
    destruct Hk.
Defined.

(** ** C8: the invariants of a schema object *)

Lemma has_keys (k : string) (o : Obj.t) :
  Obj.has k o = true -> In k (Obj.keys o).
Proof.
  unfold Obj.has, Obj.keys. induction o as [|[k' v] o IH]; simpl; [discriminate|].
  destruct (k' =? k)%string eqn:E; [apply String.eqb_eq in E; now left | intros H; right; auto].
Qed.

Lemma requiredDeclared_sound (schema : Json) :
  requiredDeclared schema = true ->
  forall name, In name (requiredOf schema) ->
    exists s, name = JString s /\ In s (Obj.keys (propertiesOf schema)).
Proof.
  unfold requiredDeclared. rewrite forallb_forall. intros H name Hname.
  specialize (H name Hname). destruct name; try discriminate.
  eexists. split; [reflexivity | now apply has_keys].
Qed.

Lemma boundsOrdered_sound (schema : Json) :
  boundsOrdered schema = true ->
  forall key f lo hi, In (key, f) (propertiesOf schema) ->
    numberOf "minimum" f = Some lo -> numberOf "maximum" f = Some hi ->
    Num.leb lo hi = true.
Proof.
  unfold boundsOrdered. rewrite forallb_forall. intros H key f lo hi Hin Hlo Hhi.
  specialize (H (key, f) Hin). simpl in H. now rewrite Hlo, Hhi in H.
Qed.

Lemma produced_invariants :
  Forall (fun s => requiredDeclared (input s) = true /\ boundsOrdered (input s) = true /\
                   requiredDeclared (output s) = true /\ boundsOrdered (output s) = true)
         producedSchemaSets.
Proof.
  unfold producedSchemaSets. cbn [map schemaPatterns].
  repeat (apply Forall_cons; [vm_compute; repeat split|]). apply Forall_nil.
Qed.

(** C8: for every description, in the input and in the output schema
    returned, every name of [required] is a key of [properties], and a
    field that has both a minimum and a maximum has its minimum below or
    equal to its maximum. *)
Theorem generated_schemas_invariants (d : string) (schema : Json) :
  schema = input (generateSchemas d) \/ schema = output (generateSchemas d) ->
  (forall name, In name (requiredOf schema) ->
     exists s, name = JString s /\ In s (Obj.keys (propertiesOf schema))) /\
  (forall key f lo hi, In (key, f) (propertiesOf schema) ->
     numberOf "minimum" f = Some lo -> numberOf "maximum" f = Some hi ->
     Num.leb lo hi = true).
Proof.
  intros Hschema.
  pose proof (generateSchemas_produced d) as Hin.
  pose proof produced_invariants as Hall. rewrite Forall_forall in Hall.
  destruct (Hall _ Hin) as (Hri & Hbi & Hro & Hbo).
  destruct Hschema as [-> | ->]; split;
    first [now apply requiredDeclared_sound | now apply boundsOrdered_sound].
Qed.

Lemma generated_schemas_invariants_witness :
  In "days_active" (Obj.keys (propertiesOf (input (generateSchemas churnExample)))) /\
  Num.leb (Num.ofZ 0) (Num.ofZ 100) = true.
Proof.
  destruct (generated_schemas_invariants churnExample
              (input (generateSchemas churnExample)) (or_introl eq_refl)) as [Hreq Hbounds].
  split.
  - destruct (Hreq (JString "days_active")) as (s & Hs & Hin).
    + vm_compute. tauto.
    + injection Hs as <-. exact Hin.
  - apply (Hbounds "engagement_score"
             (JObject [("type", JString "number"); ("description", JString "Engagement metric");
                       ("minimum", JNumber (Num.ofZ 0)); ("maximum", JNumber (Num.ofZ 100))])).
    + vm_compute. tauto.
    + vm_compute. reflexivity.
    + vm_compute. reflexivity.
Defined.

(** ** C9: one word, two keywords *)

(** A description in which "fraudulent" occurs, letter case ignored,
    matches two keywords of the fraud entry at least. *)
Lemma fraudulent_counts_twice (ld : string) :
  Str.includes ld "fraudulent" = true ->
  2 <= matchCount ld fraudPattern /\ (20 <= effectivePriority ld fraudPattern)%Z.
Proof.
  intros H.
  assert (Hfraud : Str.includes ld "fraud" = true).
  { apply includes_spec. apply occurs_trans with "fraudulent"; [|now apply includes_spec].
    exists "", "ulent". reflexivity. }
  assert (Hcount : 2 <= matchCount ld fraudPattern).
  { unfold matchCount. cbn [keywords fraudPattern filter]. rewrite H, Hfraud.
    simpl. lia. }
  split; [exact Hcount|].
  unfold effectivePriority. cbn [priority fraudPattern]. lia.
Qed.

(** C9: "fraud" and "fraudulent" are keywords of the fraud entry and the
    first is a substring of the second, so every description that
    contains the word "fraudulent", as written or up to letter case,
    gives the fraud entry a count of 2 at least and a score of 20 at
    least. *)
Theorem fraudulent_matches_twice (d : string) :
  Str.includes d "fraudulent" = true \/ Str.includes (Str.toLowerCase d) "fraudulent" = true ->
  In "fraud" (keywords fraudPattern) /\
  In "fraudulent" (keywords fraudPattern) /\
  occurs "fraud" "fraudulent" /\
  2 <= matchCount (Str.toLowerCase d) fraudPattern /\
  (20 <= effectivePriority (Str.toLowerCase d) fraudPattern)%Z.
Proof.
  intros H.
  assert (Hlower : Str.includes (Str.toLowerCase d) "fraudulent" = true).
  { destruct H as [H | H]; [|exact H].
    apply includes_spec. apply includes_spec in H.
    exact (occurs_toLowerCase "fraudulent" d H). }
  destruct (fraudulent_counts_twice _ Hlower) as [Hc Hs].
  conjuncts; auto.
  - simpl. tauto.
  - simpl. tauto.
  - exists "", "ulent". reflexivity.
Qed.

Lemma fraudulent_matches_twice_witness :
  2 <= matchCount (Str.toLowerCase fraudulentEmails) fraudPattern /\
  (20 <= effectivePriority (Str.toLowerCase fraudulentEmails) fraudPattern)%Z.
Proof.
  destruct (fraudulent_matches_twice fraudulentEmails) as (_ & _ & _ & Hc & Hs).
  - left. vm_compute. reflexivity.
  - split; [exact Hc | exact Hs].
Defined.

(** ** C10: a keyword of two entries *)

(** C10: "estimate" is a keyword of the price entry, of priority 9, and
    of the predict entry, of priority 5, and of no other entry; for
    every description in which it is the only keyword of the catalog
    that occurs, the price entry scores 9, the predict entry 5, and the
    schema set of the price entry is returned, not that of the predict
    entry. *)
Theorem estimate_selects_price (d : string) :
  let ld := Str.toLowerCase d in
  occurs "estimate" ld ->
  (forall k, In k (allKeywords schemaPatterns) -> occurs k ld -> k = "estimate") ->
  (forall p, In p schemaPatterns ->
     (In "estimate" (keywords p) <-> p = pricePattern \/ p = predictPattern)) /\
  priority pricePattern = 9%Z /\
  priority predictPattern = 5%Z /\
  effectivePriority ld pricePattern = (9 * 1)%Z /\
  effectivePriority ld predictPattern = (5 * 1)%Z /\
  generateSchemas d = generator pricePattern tt /\
  generateSchemas d <> generator predictPattern tt.
Proof.
  intros ld Hest Honly.
  assert (Hyes : Str.includes ld "estimate" = true) by now apply includes_spec.
  assert (Hno : forall k, In k (allKeywords schemaPatterns) -> k <> "estimate" ->
                          Str.includes ld k = false).
  { intros k Hk Hne. destruct (Str.includes ld k) eqn:E; [|reflexivity].
    apply includes_spec in E. elim Hne. now apply Honly. }
  assert (Hblank : isBlank d = false).
  { destruct (isBlank d) eqn:E; [|reflexivity].
    pose proof (blank_matchCount d pricePattern E) as Hz.
    assert (0 < matchCount ld pricePattern).
    { apply matchCount_positive with "estimate"; [simpl; tauto | exact Hyes]. }
    unfold ld in *. rewrite Hz in *; [lia | simpl; tauto]. }
  assert (Hzero : forall p, In p schemaPatterns -> ~ In "estimate" (keywords p) ->
                            matchCount ld p = 0).
  { intros p Hp Hnot. apply matchCount_zero. intros k Hk.
    apply Hno; [now apply in_allKeywords with p | intros ->; contradiction]. }
  assert (Hone : forall p, p = pricePattern \/ p = predictPattern -> matchCount ld p = 1).
  { intros p [-> | ->]; unfold matchCount; cbn [keywords pricePattern predictPattern filter];
      repeat match goal with
             | |- context [Str.includes ld ?k] =>
                 first [ rewrite Hyes
                       | rewrite (Hno k) by (first [vm_compute; tauto | discriminate]) ]
             end; reflexivity. }
  assert (Hprice : effectivePriority ld pricePattern = 9%Z)
    by (unfold effectivePriority; rewrite Hone; [reflexivity | tauto]).
  assert (Hpredict : effectivePriority ld predictPattern = 5%Z)
    by (unfold effectivePriority; rewrite Hone; [reflexivity | tauto]).
  assert (Hwin : generateSchemas d = generator pricePattern tt).
  { destruct (generateSchemas_cases d)
      as [[_ Hz] | (before & w & after & Hsplit & _ & Hr & Hw & Hb & Ha)].
    - specialize (Hz pricePattern). fold ld in Hz. rewrite Hone in Hz by tauto.
      discriminate Hz. simpl. tauto.
    - fold ld in Hw, Hb, Ha. rewrite Hr. f_equal.
      assert (Hwin : In w schemaPatterns) by (rewrite Hsplit; apply in_elt).
      assert (Hle : (effectivePriority ld pricePattern <= effectivePriority ld w)%Z).
      { assert (Hp : In pricePattern schemaPatterns) by (simpl; tauto).
        rewrite Hsplit in Hp. apply in_app_or in Hp as [Hp | [<- | Hp]].
        - specialize (Hb _ Hp). lia.
        - lia.
        - now apply Ha. }
      simpl in Hwin.
      repeat (destruct Hwin as [<- | Hwin];
              [first [ reflexivity
                     | lia
                     | rewrite Hzero in Hw by (simpl; first [tauto | intuition discriminate]);
                       lia ]|]).
      destruct Hwin. }
  conjuncts; auto.
  - intros p Hp. simpl in Hp.
    repeat (destruct Hp as [<- | Hp];
            [split;
             [intros Hin; first [now left | now right
                                | vm_compute in Hin; exfalso; intuition discriminate]
             |intros [H | H]; first [vm_compute; tauto
                                    | apply (f_equal keywords) in H; discriminate H]]|]).
    destruct Hp.
  - rewrite Hwin. intros H. vm_compute in H. discriminate H.
Qed.

Lemma estimate_selects_price_witness :
  generateSchemas estimateExample = generator pricePattern tt.
Proof.
  apply (estimate_selects_price estimateExample).
  - apply includes_spec. vm_compute. reflexivity.
  - intros k Hk Hocc. apply includes_spec in Hocc.
    vm_compute in Hk.
    repeat (destruct Hk as [<- | Hk];
            [first [reflexivity | vm_compute in Hocc; discriminate Hocc]|]).
    destruct Hk.
Defined.

(** ** C5 and C6: the validator *)

Lemma isBlank_allWhiteSpace (s : string) :
  isBlank s = allWhiteSpace s.
Proof.
  destruct (allWhiteSpace s) eqn:E.
  - now apply isBlank_spec, trim_empty.
  - destruct (isBlank s) eqn:B; [|reflexivity].
    apply isBlank_spec, trim_empty in B. congruence.
Qed.

(** The test of the source singles out the plain objects. *)
Lemma object_test (v : Json) :
  negb (typeof v =? "object")%string || isNull v || Array_isArray v = negb (isPlainObject v).
Proof. destruct v; reflexivity. Qed.

Lemma message_not_empty (p : JSON.SyntaxProblem) : JSON.message p <> "".
Proof. destruct p; simpl; discriminate. Qed.

(** The parser throws nothing but a [SyntaxError] that has a message. *)
Lemma parse_throws (text : string) (e : Thrown) :
  JSON.parse text = Throw e ->
  exists msg, e = ErrorObject "SyntaxError" msg /\ msg <> "".
Proof.
  unfold JSON.parse. destruct (JSON.run JSON.initial 0 text) as [p | v]; [|discriminate].
  intros H. injection H as <-. eexists. split; [reflexivity | apply message_not_empty].
Qed.

(** C5: for every string, the validator returns [{valid: true, parsed: {}}]
    when the string is empty or white space only; [{valid: false, error}]
    with a non-empty message when parsing fails; [{valid: false, error}]
    with the fixed message when parsing yields an array, a primitive or
    [null]; [{valid: true, parsed}] with the parsed object when parsing
    yields a plain object; and in the result [error] is present exactly
    when [valid] is false, [parsed] exactly when [valid] is true. *)
Theorem validateSchema_cases (s : string) :
  (allWhiteSpace s = true ->
   validateSchema s = Normal {| valid := true; error := None; parsed := Some (JObject []) |}) /\
  (allWhiteSpace s = false -> forall e, JSON.parse s = Throw e ->
   exists msg, msg <> "" /\
     validateSchema s = Normal {| valid := false; error := Some msg; parsed := None |}) /\
  (allWhiteSpace s = false -> forall v, JSON.parse s = Normal v -> isPlainObject v = false ->
   validateSchema s =
     Normal {| valid := false;
               error := Some "Schema must be a JSON object, not an array or primitive value";
               parsed := None |}) /\
  (allWhiteSpace s = false -> forall v, JSON.parse s = Normal v -> isPlainObject v = true ->
   validateSchema s = Normal {| valid := true; error := None; parsed := Some v |}) /\
  (exists r, validateSchema s = Normal r /\
     (error r <> None <-> valid r = false) /\
     (parsed r <> None <-> valid r = true)).
Proof.
  unfold validateSchema. rewrite isBlank_allWhiteSpace.
  destruct (allWhiteSpace s); conjuncts; try discriminate; try reflexivity.
  - eexists. split; [reflexivity|]. simpl. split; split; congruence.
  - intros _ e He. rewrite He. simpl.
    destruct (parse_throws s e He) as (msg & -> & Hmsg).
    exists msg. split; [exact Hmsg | reflexivity].
  - intros _ v Hv Hplain. rewrite Hv. simpl. now rewrite object_test, Hplain.
  - intros _ v Hv Hplain. rewrite Hv. simpl. now rewrite object_test, Hplain.
  - destruct (JSON.parse s) as [v | e]; simpl.
    + rewrite object_test. destruct (isPlainObject v); simpl;
        (eexists; split; [reflexivity|]; simpl; split; split; congruence).
    + eexists. split; [reflexivity|]. simpl. split; split; congruence.
Qed.

Lemma validateSchema_cases_witness :
  validateSchema "" = Normal {| valid := true; error := None; parsed := Some (JObject []) |} /\
  (exists msg, msg <> "" /\
     validateSchema (dq "{'a':1,}") =
       Normal {| valid := false; error := Some msg; parsed := None |}) /\
  validateSchema "[1,2,3]" =
    Normal {| valid := false;
              error := Some "Schema must be a JSON object, not an array or primitive value";
              parsed := None |} /\
  validateSchema (dq "{'a':1}") =
    Normal {| valid := true; error := None;
              parsed := Some (JObject [("a", JNumber (Num.ofZ 1))]) |}.
Proof.
  conjuncts.
  - apply (proj1 (validateSchema_cases "")). reflexivity.
  - apply (proj1 (proj2 (validateSchema_cases (dq "{'a':1,}"))))
      with (e := ErrorObject "SyntaxError" "Unexpected token } in JSON at position 7");
      vm_compute; reflexivity.
  - apply (proj1 (proj2 (proj2 (validateSchema_cases "[1,2,3]"))))
      with (v := JArray [JNumber (Num.ofZ 1); JNumber (Num.ofZ 2); JNumber (Num.ofZ 3)]);
      vm_compute; reflexivity.
  - apply (proj1 (proj2 (proj2 (proj2 (validateSchema_cases (dq "{'a':1}"))))));
      vm_compute; reflexivity.
Defined.

(** C6: the validator returns a result for every string and never
    throws: whatever is thrown while parsing is caught and becomes a
    [{valid: false, error}] result.  The proof does not look into the
    parser: it holds whatever the parser returns or throws. *)
Theorem validateSchema_never_throws :
  (forall s, exists r, validateSchema s = Normal r) /\
  (forall s e, allWhiteSpace s = false -> JSON.parse s = Throw e ->
     exists msg, validateSchema s =
       Normal {| valid := false; error := Some msg; parsed := None |}).
Proof.
  split.
  - intros s. unfold validateSchema.
    destruct (isBlank s); [eexists; reflexivity|].
    generalize (JSON.parse s). intros [v | e]; simpl.
    + destruct (negb (typeof v =? "object")%string || isNull v || Array_isArray v);
        eexists; reflexivity.
    + eexists; reflexivity.
  - intros s e Hs He. unfold validateSchema.
    rewrite isBlank_allWhiteSpace, Hs. revert He.
    generalize (JSON.parse s). intros c ->. simpl. eexists; reflexivity.
Qed.

Lemma validateSchema_never_throws_witness :
  exists msg, validateSchema "{" =
    Normal {| valid := false; error := Some msg; parsed := None |}.
Proof.
  apply (proj2 validateSchema_never_throws "{"
           (ErrorObject "SyntaxError" "Unexpected end of JSON input")); vm_compute; reflexivity.
Defined.

(** ** C7: the formatter *)

(** What C7 says of one schema object. *)
Lemma produced_round_trip :
  Forall (fun s =>
            (JSON.parse (formatSchema (input s)) = Normal (input s) /\
             indentedBy 2 (formatSchema (input s)) = true) /\
            (JSON.parse (formatSchema (output s)) = Normal (output s) /\
             indentedBy 2 (formatSchema (output s)) = true))
         producedSchemaSets.
Proof.
  unfold producedSchemaSets. cbn [map schemaPatterns].
  repeat (apply Forall_cons; [vm_compute; repeat split|]). apply Forall_nil.
Qed.

(** The text of an object lists its members in their order, each after
    its quoted key, one per line, two spaces in. *)
Lemma formatSchema_members (members : Obj.t) :
  members <> [] ->
  formatSchema (JObject members) =
    "{" ++ JSON.newline ++ "  "
      ++ Str.join ("," ++ JSON.newline ++ "  ")
           (map (fun member => JSON.quote (fst member) ++ ": "
                               ++ JSON.serialize "  " "  " (snd member)) members)
      ++ JSON.newline ++ "}".
Proof.
  intros Hne. unfold formatSchema, JSON.stringify.
  change (Str.spaces (Nat.min 2 10)) with "  ". cbn [JSON.serialize].
  change ("" ++ "  ") with "  ". change ("  " =? "")%string with false. cbv iota.
  erewrite map_ext with (g := fun member => JSON.quote (fst member) ++ ": "
                               ++ JSON.serialize "  " "  " (snd member));
    [|intros [k v]; reflexivity].
  destruct members as [|m ms]; [congruence|]. reflexivity.
Qed.

(** C7: for every schema object that [generateSchemas] returns, parsing
    the text that [formatSchema] prints gives the object back, members
    in the same order; the text is indented by two spaces per level and
    lists the members of the object in their insertion order.  The text
    is a function of the object. *)
Theorem formatSchema_round_trip (d : string) (obj : Json) :
  obj = input (generateSchemas d) \/ obj = output (generateSchemas d) ->
  JSON.parse (formatSchema obj) = Normal obj /\
  indentedBy 2 (formatSchema obj) = true /\
  exists members,
    obj = JObject members /\
    formatSchema obj =
      "{" ++ JSON.newline ++ "  "
        ++ Str.join ("," ++ JSON.newline ++ "  ")
             (map (fun member => JSON.quote (fst member) ++ ": "
                                 ++ JSON.serialize "  " "  " (snd member)) members)
        ++ JSON.newline ++ "}".
Proof.
  intros Hobj.
  pose proof (generateSchemas_produced d) as Hin.
  pose proof produced_round_trip as Hall. rewrite Forall_forall in Hall.
  destruct (Hall _ Hin) as [[Hpi Hii] [Hpo Hio]].
  assert (Hshape : forall o, (exists s, o = createSchema (fst s) (snd s)) ->
            exists members, o = JObject members /\ members <> []).
  { intros o [s ->]. eexists. split; [reflexivity | discriminate]. }
  assert (Hcreated : exists s, obj = createSchema (fst s) (snd s)).
  { simpl in Hin.
    repeat (destruct Hin as [Hin | Hin];
            [rewrite <- Hin in Hobj; destruct Hobj as [-> | ->];
             eexists (_, _); reflexivity|]).
    destruct Hin. }
  destruct (Hshape obj Hcreated) as (members & Hm & Hne).
  destruct Hobj as [-> | ->]; (conjuncts; auto);
    exists members; (split; [exact Hm | rewrite Hm; now apply formatSchema_members]).
Qed.

Lemma formatSchema_round_trip_witness :
  JSON.parse (formatSchema (output (generateSchemas fraudulentEmails)))
  = Normal (output (generateSchemas fraudulentEmails)).
Proof.
  apply (formatSchema_round_trip fraudulentEmails). right. reflexivity.
Defined.

(** The indentation check tells two spaces from four, and the printed
    text of the default input schema is the expected one. *)
Example indentedBy_discriminates :
  indentedBy 2 (JSON.stringify (input (getDefaultSchema tt)) 4) = false /\
  indentedBy 4 (JSON.stringify (input (getDefaultSchema tt)) 4) = true.
Proof. split; vm_compute; reflexivity. Qed.

Example formatSchema_small :
  formatSchema (JObject [("a", JArray [JNumber (Num.ofZ 1); JString "x"]); ("b", JObject [])])
  = dq "{
  'a': [
    1,
    'x'
  ],
  'b': {}
}".
Proof. vm_compute. reflexivity. Qed.

(** Escapes are read and written. *)
Example parse_escapes :
  JSON.parse (dq "'\u0041\u00e9\n\/'")
  = Normal (JString (String "A" (String (ascii_of_nat 233) (String (ascii_of_nat 10) "/")))) /\
  JSON.stringify (JString (String (ascii_of_nat 10) (String JSON.dquote "a"))) 2
  = String JSON.dquote
      (String JSON.backslash
         ("n" ++ String JSON.backslash (String JSON.dquote ("a" ++ String JSON.dquote "")))).
Proof. split; vm_compute; reflexivity. Qed.

(** The formatter's guard, on the examples of the specification. *)
Example schemaToString_examples :
  schemaToString None = "" /\
  schemaToString (Some (JObject [])) = "" /\
  schemaToString (Some (JObject [("a", JNumber (Num.ofZ 1))]))
  = formatSchema (JObject [("a", JNumber (Num.ofZ 1))]).
Proof. repeat split; vm_compute; reflexivity. Qed.

(** * Further properties of the matcher *)

Lemma toLowerCaseChar_idempotent (c : ascii) :
  Str.toLowerCaseChar (Str.toLowerCaseChar c) = Str.toLowerCaseChar c.
Proof. destruct c as [[] [] [] [] [] [] [] []]; vm_compute; reflexivity. Qed.

Lemma toLowerCase_idempotent (s : string) :
  Str.toLowerCase (Str.toLowerCase s) = Str.toLowerCase s.
Proof.
  induction s as [|c s IH]; simpl; [reflexivity|].
  now rewrite toLowerCaseChar_idempotent, IH.
Qed.

Lemma isWhiteSpace_toLowerCaseChar (c : ascii) :
  Str.isWhiteSpace (Str.toLowerCaseChar c) = Str.isWhiteSpace c.
Proof. destruct c as [[] [] [] [] [] [] [] []]; vm_compute; reflexivity. Qed.

Lemma allWhiteSpace_toLowerCase_eq (s : string) :
  allWhiteSpace (Str.toLowerCase s) = allWhiteSpace s.
Proof.
  induction s as [|c s IH]; simpl; [reflexivity|].
  now rewrite isWhiteSpace_toLowerCaseChar, IH.
Qed.

(** The loop reads a description through the counts of the entries only. *)
Lemma scanPatterns_ext (patterns : list SchemaPattern) (l1 l2 : string) :
  (forall p, In p patterns -> matchCount l1 p = matchCount l2 p) ->
  scanPatterns patterns l1 = scanPatterns patterns l2.
Proof.
  unfold scanPatterns. generalize (@None SchemaPattern, (-1)%Z).
  induction patterns as [|p ps IH]; intros st H; [reflexivity|].
  cbn [fold_left].
  assert (Hp : considerPattern l1 st p = considerPattern l2 st p).
  { unfold considerPattern, effectivePriority. now rewrite (H p (or_introl eq_refl)). }
  rewrite Hp. apply IH. intros q Hq. apply H. now right.
Qed.

(** The guard on blank descriptions is a shortcut: the loop would find
    no entry for them. *)
Lemma generateSchemas_scan (d : string) :
  generateSchemas d =
  match fst (scanPatterns schemaPatterns (Str.toLowerCase d)) with
  | Some bestMatch => generator bestMatch tt
  | None => getDefaultSchema tt
  end.
Proof.
  unfold generateSchemas. destruct (isBlank d) eqn:Hb; [|reflexivity].
  destruct (scanPatterns_spec (Str.toLowerCase d) schemaPatterns catalog_priorities_positive)
    as [[Hr _] | (before & p & after & Hsplit & _ & Hp & _)].
  - now rewrite Hr.
  - rewrite (blank_matchCount d p Hb) in Hp; [lia | rewrite Hsplit; apply in_elt].
Qed.

Lemma matchCount_ext (l1 l2 : string) (p : SchemaPattern) :
  (forall k, In k (keywords p) -> Str.includes l1 k = Str.includes l2 k) ->
  matchCount l1 p = matchCount l2 p.
Proof.
  intros H. unfold matchCount. f_equal. apply filter_ext_in. exact H.
Qed.

(** X1: the schema set returned depends on the description only through
    the set of catalog keywords that occur in it, letter case ignored. *)
Theorem generateSchemas_depends_on_keywords (d1 d2 : string) :
  (forall k, In k (allKeywords schemaPatterns) ->
     (occurs k (Str.toLowerCase d1) <-> occurs k (Str.toLowerCase d2))) ->
  generateSchemas d1 = generateSchemas d2.
Proof.
  intros H. rewrite !generateSchemas_scan.
  rewrite (scanPatterns_ext schemaPatterns (Str.toLowerCase d1) (Str.toLowerCase d2));
    [reflexivity|].
  intros p Hp. apply matchCount_ext. intros k Hk.
  specialize (H k (in_allKeywords _ _ _ Hp Hk)). rewrite <- !includes_spec in H.
  destruct (Str.includes (Str.toLowerCase d1) k), (Str.includes (Str.toLowerCase d2) k);
    intuition congruence.
Qed.

Lemma generateSchemas_depends_on_keywords_witness :
  generateSchemas quietExample = generateSchemas rewordedExample.
Proof.
  apply generateSchemas_depends_on_keywords.
  intros k Hk. rewrite <- !includes_spec. vm_compute in Hk.
  repeat (destruct Hk as [<- | Hk]; [vm_compute; tauto|]). destruct Hk.
Defined.

(** X2: the matcher ignores letter case: two descriptions with the same
    lower-case form get the same schema set, also when one of them is
    blank. *)
Theorem generateSchemas_ignores_case (d1 d2 : string) :
  Str.toLowerCase d1 = Str.toLowerCase d2 ->
  generateSchemas d1 = generateSchemas d2.
Proof.
  intros H. unfold generateSchemas.
  rewrite !isBlank_allWhiteSpace.
  rewrite <- (allWhiteSpace_toLowerCase_eq d1), <- (allWhiteSpace_toLowerCase_eq d2).
  now rewrite H.
Qed.

Lemma generateSchemas_ignores_case_witness :
  generateSchemas shoutedExample = generateSchemas quietExample.
Proof. apply generateSchemas_ignores_case. vm_compute. reflexivity. Defined.

Lemma filter_length_mono {A} (f g : A -> bool) (l : list A) :
  (forall x, In x l -> f x = true -> g x = true) ->
  List.length (filter f l) <= List.length (filter g l).
Proof.
  induction l as [|a l IH]; intros H; simpl; [lia|].
  assert (IH' : List.length (filter f l) <= List.length (filter g l))
    by (apply IH; intros x Hx; apply H; now right).
  destruct (f a) eqn:Ef.
  - rewrite (H a (or_introl eq_refl) Ef). simpl. lia.
  - destruct (g a); simpl; lia.
Qed.

(** X3: text added before or after a description never removes a
    match: every entry counts at least as many keywords as before, and a
    description that did not get the default schema does not get it
    after the addition. *)
Theorem generateSchemas_more_text (before d after : string) :
  (forall p, matchCount (Str.toLowerCase d) p
             <= matchCount (Str.toLowerCase (before ++ d ++ after)) p) /\
  (generateSchemas d <> getDefaultSchema tt ->
   generateSchemas (before ++ d ++ after) <> getDefaultSchema tt).
Proof.
  assert (Hmono : forall p, matchCount (Str.toLowerCase d) p
                            <= matchCount (Str.toLowerCase (before ++ d ++ after)) p).
  { intros p. apply filter_length_mono. intros k _ Hk.
    apply includes_spec. apply includes_spec in Hk.
    apply occurs_trans with (Str.toLowerCase d); [exact Hk|].
    exists (Str.toLowerCase before), (Str.toLowerCase after).
    now rewrite !toLowerCase_app. }
  split; [exact Hmono|].
  intros Hd Hdefault.
  destruct (generateSchemas_cases d)
    as [[Hr _] | (l1 & p & l2 & Hsplit & _ & _ & Hp & _)]; [contradiction|].
  assert (Hin : In p schemaPatterns) by (rewrite Hsplit; apply in_elt).
  destruct (generateSchemas_cases (before ++ d ++ after))
    as [[_ Hz] | (l1' & w & l2' & Hsplit' & _ & Hr & _)].
  - specialize (Hz p Hin). specialize (Hmono p). lia.
  - apply (generator_not_default w); [rewrite Hsplit'; apply in_elt | congruence].
Qed.

Lemma generateSchemas_more_text_witness :
  generateSchemas ("Dear team, " ++ "flag every scam" ++ " by Friday") <> getDefaultSchema tt.
Proof.
  apply (proj2 (generateSchemas_more_text "Dear team, " "flag every scam" " by Friday")).
  intros H. vm_compute in H. discriminate H.
Defined.

(** X4: the schema sets that [generateSchemas] can return are the
    default one and the ten of the catalog, and each of the eleven is
    returned for some description: no entry of the catalog is dead. *)
Theorem generateSchemas_range (s : SchemaSet) :
  In s producedSchemaSets <-> exists d, generateSchemas d = s.
Proof.
  split.
  - intros Hs. unfold producedSchemaSets in Hs. cbn [map schemaPatterns] in Hs.
    destruct Hs as [<- | Hs]; [exists ""; reflexivity|].
    destruct Hs as [<- | Hs]; [exists "fraud"; vm_compute; reflexivity|].
    destruct Hs as [<- | Hs]; [exists "churn"; vm_compute; reflexivity|].
    destruct Hs as [<- | Hs]; [exists "sentiment"; vm_compute; reflexivity|].
    destruct Hs as [<- | Hs]; [exists "classify"; vm_compute; reflexivity|].
    destruct Hs as [<- | Hs]; [exists "price"; vm_compute; reflexivity|].
    destruct Hs as [<- | Hs]; [exists "recommend"; vm_compute; reflexivity|].
    destruct Hs as [<- | Hs]; [exists "anomaly"; vm_compute; reflexivity|].
    destruct Hs as [<- | Hs]; [exists "image"; vm_compute; reflexivity|].
    destruct Hs as [<- | Hs]; [exists "summarize"; vm_compute; reflexivity|].
    destruct Hs as [<- | Hs]; [exists "predict"; vm_compute; reflexivity|].
    destruct Hs.
  - intros [d <-]. apply generateSchemas_produced.
Qed.

Lemma generateSchemas_range_witness :
  exists d, generateSchemas d = generator predictPattern tt.
Proof.
  apply (proj1 (generateSchemas_range (generator predictPattern tt))).
  unfold producedSchemaSets. cbn [map schemaPatterns]. do 10 right. left. reflexivity.
Defined.

(** * Further properties of [createSchema] *)

(** ** Reading and writing the properties of an object *)

Lemma get_replace_same (k : string) (v : Json) (o : Obj.t) :
  Obj.has k o = true -> Obj.get k (Obj.replace k v o) = Some v.
Proof.
  unfold Obj.has. induction o as [|[k' v'] o IH]; simpl; [discriminate|].
  destruct (k' =? k)%string eqn:E; simpl; rewrite E; [reflexivity | exact IH].
Qed.

Lemma get_replace_other (k k' : string) (v : Json) (o : Obj.t) :
  k' <> k -> Obj.get k' (Obj.replace k v o) = Obj.get k' o.
Proof.
  intros Hne. induction o as [|[k0 v0] o IH]; simpl; [reflexivity|].
  destruct (k0 =? k)%string eqn:E; simpl.
  - apply String.eqb_eq in E. subst k0.
    destruct (k =? k')%string eqn:E'; [apply String.eqb_eq in E'; congruence | reflexivity].
  - destruct (k0 =? k')%string; [reflexivity | exact IH].
Qed.

Lemma get_add_same (k : string) (v : Json) (o : Obj.t) :
  Obj.has k o = false -> Obj.get k (Obj.add k v o) = Some v.
Proof.
  unfold Obj.has. induction o as [|[k' v'] o IH]; simpl.
  - now rewrite String.eqb_refl.
  - destruct (k' =? k)%string eqn:E; [discriminate|]. intros H.
    destruct (Obj.arrayIndex k) as [i|]; [destruct (Obj.arrayIndex k') as [j|];
      [destruct (i <? j)%Z|]|]; simpl;
      rewrite ?String.eqb_refl, ?E; auto.
Qed.

Lemma get_add_other (k k' : string) (v : Json) (o : Obj.t) :
  k' <> k -> Obj.get k' (Obj.add k v o) = Obj.get k' o.
Proof.
  intros Hne.
  assert (Hk : (k =? k')%string = false) by (apply String.eqb_neq; congruence).
  induction o as [|[k0 v0] o IH]; simpl; [now rewrite Hk|].
  destruct (Obj.arrayIndex k) as [i|]; [destruct (Obj.arrayIndex k0) as [j|];
    [destruct (i <? j)%Z|]|]; simpl; rewrite ?Hk, ?IH; reflexivity.
Qed.

(** What was written is read back, and nothing else changes. *)
Lemma get_set_same (k : string) (v : Json) (o : Obj.t) :
  Obj.get k (Obj.set k v o) = Some v.
Proof.
  unfold Obj.set. destruct (Obj.has k o) eqn:E;
    [now apply get_replace_same | now apply get_add_same].
Qed.

Lemma get_set_other (k k' : string) (v : Json) (o : Obj.t) :
  k' <> k -> Obj.get k' (Obj.set k v o) = Obj.get k' o.
Proof.
  intros Hne. unfold Obj.set. destruct (Obj.has k o);
    [now apply get_replace_other | now apply get_add_other].
Qed.

Lemma has_keys_iff (k : string) (o : Obj.t) :
  Obj.has k o = true <-> In k (Obj.keys o).
Proof.
  split; [apply has_keys|].
  unfold Obj.has, Obj.keys. induction o as [|[k' v] o IH]; simpl; [tauto|].
  intros [-> | H]; [now rewrite String.eqb_refl|].
  destruct (k' =? k)%string; [reflexivity | auto].
Qed.

(** A new key that is not an array index goes last. *)
Lemma add_last (k : string) (v : Json) (o : Obj.t) :
  Obj.arrayIndex k = None -> Obj.add k v o = (o ++ [(k, v)])%list.
Proof.
  intros Hk. induction o as [|[k' v'] o IH]; simpl; [reflexivity|].
  now rewrite Hk, IH.
Qed.

Lemma add_In (k : string) (v : Json) (o : Obj.t) (e : string * Json) :
  In e (Obj.add k v o) <-> e = (k, v) \/ In e o.
Proof.
  induction o as [|[k' v'] o IH]; simpl; [intuition congruence|].
  destruct (Obj.arrayIndex k) as [i|]; [destruct (Obj.arrayIndex k') as [j|];
    [destruct (i <? j)%Z|]|]; simpl; rewrite ?IH; intuition congruence.
Qed.

(** ** The properties object that the reducer builds *)

Lemma propertiesOf_createSchema (properties : list (string * FieldSpec)) (required : list string) :
  propertiesOf (createSchema properties required) = fold_left addField properties [].
Proof. reflexivity. Qed.

Lemma requiredOf_createSchema (properties : list (string * FieldSpec)) (required : list string) :
  requiredOf (createSchema properties required) = map JString required.
Proof. reflexivity. Qed.

Lemma isProtoKey_spec (k : string) : Obj.isProtoKey k = true <-> k = "__proto__".
Proof. apply String.eqb_eq. Qed.

Lemma isProtoKey_false (k : string) : Obj.isProtoKey k = false <-> k <> "__proto__".
Proof. apply String.eqb_neq. Qed.

Lemma fold_addField_untouched (k : string) (ps : list (string * FieldSpec)) :
  forall acc, ~ In k (map fst ps) ->
    Obj.get k (fold_left addField ps acc) = Obj.get k acc.
Proof.
  induction ps as [|[k0 v0] ps IH]; intros acc Hk; [reflexivity|].
  cbn [fold_left addField]. rewrite IH by (intros H; apply Hk; now right).
  unfold Obj.assign. destruct (Obj.isProtoKey k0); [reflexivity|].
  apply get_set_other. intros ->. apply Hk. now left.
Qed.

(** The prototype setter creates no property. *)
Lemma fold_addField_proto (ps : list (string * FieldSpec)) :
  forall acc, Obj.get "__proto__" (fold_left addField ps acc) = Obj.get "__proto__" acc.
Proof.
  induction ps as [|[k0 v0] ps IH]; intros acc; [reflexivity|].
  cbn [fold_left addField]. rewrite IH. unfold Obj.assign.
  destruct (Obj.isProtoKey k0) eqn:E; [reflexivity|].
  apply get_set_other. intros <-. discriminate E.
Qed.

Lemma fold_addField_get (k : string) (v : FieldSpec) (ps : list (string * FieldSpec)) :
  forall acc, NoDup (map fst ps) -> In (k, v) ps -> k <> "__proto__" ->
    Obj.get k (fold_left addField ps acc) = Some (JObject (fieldSchema v)).
Proof.
  induction ps as [|[k0 v0] ps IH]; intros acc Hnd Hin Hk; [destruct Hin|].
  cbn [map fst] in Hnd. apply NoDup_cons_iff in Hnd as [Hk0 Hnd].
  cbn [fold_left addField]. destruct Hin as [E | Hin].
  - injection E as -> ->. rewrite fold_addField_untouched by exact Hk0.
    unfold Obj.assign. rewrite (proj2 (isProtoKey_false k) Hk).
    apply get_set_same.
  - now apply IH.
Qed.

Lemma fold_addField_has (k : string) (ps : list (string * FieldSpec)) :
  forall acc, Obj.has k (fold_left addField ps acc) = true <->
              Obj.has k acc = true \/ (In k (map fst ps) /\ k <> "__proto__").
Proof.
  induction ps as [|[k0 v0] ps IH]; intros acc; cbn [fold_left addField map fst].
  - simpl. tauto.
  - rewrite IH. unfold Obj.assign.
    destruct (Obj.isProtoKey k0) eqn:E.
    + apply isProtoKey_spec in E. subst k0. simpl.
      split; [tauto|]. intros [H | [[<- | H] Hk]]; tauto.
    + apply isProtoKey_false in E. unfold Obj.has at 1.
      destruct (string_dec k k0) as [-> | Hne].
      * rewrite get_set_same. simpl. intuition.
      * rewrite get_set_other by exact Hne. fold (Obj.has k acc).
        simpl. intuition congruence.
Qed.

Lemma fold_addField_keys (ps : list (string * FieldSpec)) :
  forall acc, NoDup (map fst ps) ->
    (forall k, In k (map fst ps) -> Obj.arrayIndex k = None /\ ~ In k (Obj.keys acc)) ->
    Obj.keys (fold_left addField ps acc)
    = (Obj.keys acc ++ filter (fun k => negb (Obj.isProtoKey k)) (map fst ps))%list.
Proof.
  induction ps as [|[k0 v0] ps IH]; intros acc Hnd Hk; cbn [fold_left addField map fst filter].
  - now rewrite app_nil_r.
  - apply NoDup_cons_iff in Hnd as [Hk0 Hnd].
    destruct (Hk k0 (or_introl eq_refl)) as [Hidx Hfresh].
    unfold Obj.assign. destruct (Obj.isProtoKey k0) eqn:E; cbn [negb].
    + apply IH; [exact Hnd|]. intros k Hin. apply Hk. now right.
    + assert (Hset : Obj.set k0 (JObject (fieldSchema v0)) acc
                     = (acc ++ [(k0, JObject (fieldSchema v0))])%list).
      { unfold Obj.set. destruct (Obj.has k0 acc) eqn:Ehas.
        - apply has_keys_iff in Ehas. contradiction.
        - now apply add_last. }
      rewrite Hset, IH; [|exact Hnd|].
      * unfold Obj.keys. rewrite map_app, <- app_assoc. reflexivity.
      * intros k Hin. destruct (Hk k (or_intror Hin)) as [Hi Hf]. split; [exact Hi|].
        unfold Obj.keys. rewrite map_app, in_app_iff. simpl.
        intros [H | [<- | []]]; [now apply Hf | contradiction].
Qed.

Lemma fold_addField_In (ps : list (string * FieldSpec)) (e : string * Json) :
  forall acc, NoDup (map fst ps) ->
    (forall k, In k (map fst ps) -> Obj.has k acc = false) ->
    (In e (fold_left addField ps acc) <->
     In e acc \/
     exists v, In (fst e, v) ps /\ fst e <> "__proto__" /\ snd e = JObject (fieldSchema v)).
Proof.
  induction ps as [|[k0 v0] ps IH]; intros acc Hnd Hfresh; cbn [fold_left addField map fst].
  - simpl. split; [tauto | intros [H | [v [[] _]]]; exact H].
  - apply NoDup_cons_iff in Hnd as [Hk0 Hnd].
    unfold Obj.assign. destruct (Obj.isProtoKey k0) eqn:E.
    + apply isProtoKey_spec in E. subst k0.
      rewrite IH; [|exact Hnd | intros k Hin; apply Hfresh; now right].
      simpl. split.
      * intros [H | [v (Hin & Hk & Hv)]]; [now left | right].
        exists v. auto.
      * intros [H | [v ([Heq | Hin] & Hk & Hv)]]; [now left | | right; exists v; auto].
        injection Heq as Heq _. congruence.
    + apply isProtoKey_false in E.
      assert (Hset : Obj.set k0 (JObject (fieldSchema v0)) acc
                     = Obj.add k0 (JObject (fieldSchema v0)) acc).
      { unfold Obj.set. now rewrite (Hfresh k0 (or_introl eq_refl)). }
      rewrite IH; [|exact Hnd|].
      * rewrite Hset, add_In. simpl. split.
        -- intros [[-> | H] | [v (Hin & Hk & Hv)]]; [right | now left | right].
           ++ exists v0. simpl. split; [now left | split; [exact E | reflexivity]].
           ++ exists v. split; [now right | split; [exact Hk | exact Hv]].
        -- intros [H | [v ([Heq | Hin] & Hk & Hv)]]; [left; now right | left; left | right].
           ++ injection Heq as E1 E2. subst. destruct e; simpl in *. congruence.
           ++ exists v. split; [exact Hin | split; [exact Hk | exact Hv]].
      * intros k Hin.
        destruct (Obj.has k (Obj.set k0 (JObject (fieldSchema v0)) acc)) eqn:Eh; [|reflexivity].
        unfold Obj.has in Eh. rewrite get_set_other in Eh.
        -- fold (Obj.has k acc) in Eh. rewrite (Hfresh k (or_intror Hin)) in Eh. discriminate.
        -- intros ->. contradiction.
Qed.

(** ** The schema of one field *)

Lemma fieldSchema_bounds (value : FieldSpec) :
  Obj.get "minimum" (fieldSchema value) = option_map JNumber (minimum value) /\
  Obj.get "maximum" (fieldSchema value) = option_map JNumber (maximum value).
Proof.
  destruct value as [ty desc its mn mx]. unfold fieldSchema.
  cbn [type description items minimum maximum].
  destruct its as [i|]; [destruct (truthy i)|]; destruct mn, mx; split; reflexivity.
Qed.

(** X5: in the schema of a field, [type] and [description] are always
    present; [minimum] and [maximum] are present exactly when the
    descriptor defines them, a bound of 0 included; [items] is present
    only when the descriptor gives a truthy value. *)
Theorem fieldSchema_members (value : FieldSpec) :
  Obj.get "type" (fieldSchema value) = Some (JString (type value)) /\
  Obj.get "description" (fieldSchema value) = Some (JString (description value)) /\
  Obj.get "minimum" (fieldSchema value) = option_map JNumber (minimum value) /\
  Obj.get "maximum" (fieldSchema value) = option_map JNumber (maximum value) /\
  Obj.get "items" (fieldSchema value) =
    match items value with
    | Some i => if truthy i then Some i else None
    | None => None
    end.
Proof.
  destruct value as [ty desc its mn mx]. unfold fieldSchema. cbn [type description items minimum maximum].
  destruct its as [i|]; [destruct (truthy i)|]; destruct mn, mx; repeat split.
Qed.

(** ** The invariants of the result *)

(** X6: the descriptor of [createSchema] is read through its entries,
    which have distinct names.  When none of the names is an array
    index, the own properties of [properties] in the result are the
    fields in their order, the field "__proto__" left out (assigning it
    replaces the prototype and creates no property); each has the schema
    of its descriptor; there is no other own property; [required] is
    passed through unchanged. *)
Theorem createSchema_fields (properties : list (string * FieldSpec)) (required : list string) :
  NoDup (map fst properties) ->
  (forall k, In k (map fst properties) -> Obj.arrayIndex k = None) ->
  Obj.keys (propertiesOf (createSchema properties required))
  = filter (fun k => negb (Obj.isProtoKey k)) (map fst properties) /\
  (forall k value, In (k, value) properties -> k <> "__proto__" ->
     Obj.get k (propertiesOf (createSchema properties required))
     = Some (JObject (fieldSchema value))) /\
  (forall k, ~ In k (map fst properties) \/ k = "__proto__" ->
     Obj.get k (propertiesOf (createSchema properties required)) = None) /\
  requiredOf (createSchema properties required) = map JString required.
Proof.
  intros Hnd Hidx. rewrite propertiesOf_createSchema, requiredOf_createSchema.
  split; [|split; [|split; [|reflexivity]]].
  - rewrite fold_addField_keys; [reflexivity | exact Hnd|].
    intros k Hk. split; [now apply Hidx | intros []].
  - intros k value Hin Hk. now apply fold_addField_get.
  - intros k [Hk | ->]; [now rewrite fold_addField_untouched | now rewrite fold_addField_proto].
Qed.

Lemma createSchema_fields_witness :
  Obj.keys (propertiesOf (createSchema protoFields ["name"])) = ["age"; "name"].
Proof.
  apply (createSchema_fields protoFields ["name"]).
  - repeat constructor; simpl; intuition discriminate.
  - intros k [<- | [<- | [<- | []]]]; reflexivity.
Defined.

(** X7: [createSchema] checks nothing: every name of [required] is an
    own property of [properties] in its result exactly when it is the
    name of a field of the descriptor other than "__proto__", and the
    bounds of the result are ordered exactly when those of the fields
    other than "__proto__" are. *)
Theorem createSchema_invariants_iff (properties : list (string * FieldSpec)) (required : list string) :
  (requiredDeclared (createSchema properties required) = true <->
   forall name, In name required -> In name (map fst properties) /\ name <> "__proto__") /\
  (NoDup (map fst properties) ->
   (boundsOrdered (createSchema properties required) = true <->
    forall k value lo hi, In (k, value) properties -> k <> "__proto__" ->
      minimum value = Some lo -> maximum value = Some hi -> Num.leb lo hi = true)).
Proof.
  split.
  - unfold requiredDeclared.
    rewrite requiredOf_createSchema, propertiesOf_createSchema, forallb_forall. split.
    + intros H name Hname. specialize (H (JString name) (in_map JString _ _ Hname)).
      simpl in H. apply fold_addField_has in H as [H | H]; [discriminate | exact H].
    + intros H x Hx. apply in_map_iff in Hx as (name & <- & Hname).
      apply fold_addField_has. right. now apply H.
  - intros Hnd. unfold boundsOrdered.
    rewrite propertiesOf_createSchema, forallb_forall.
    assert (Hnum : forall v, numberOf "minimum" (JObject (fieldSchema v)) = minimum v /\
                             numberOf "maximum" (JObject (fieldSchema v)) = maximum v).
    { intros v. destruct (fieldSchema_bounds v) as [Hmin Hmax].
      unfold numberOf. rewrite Hmin, Hmax. destruct (minimum v), (maximum v); simpl; auto. }
    split.
    + intros H k value lo hi Hin Hk Hlo Hhi.
      specialize (H (k, JObject (fieldSchema value))).
      destruct (Hnum value) as [Hmin Hmax]. cbn [snd] in H. rewrite Hmin, Hmax, Hlo, Hhi in H.
      apply H. apply fold_addField_In; [exact Hnd | reflexivity|].
      right. exists value. split; [exact Hin | split; [exact Hk | reflexivity]].
    + intros H e He.
      apply fold_addField_In in He as [[] | (v & Hin & Hk & Hv)]; [|exact Hnd | reflexivity].
      rewrite Hv. destruct (Hnum v) as [Hmin Hmax]. rewrite Hmin, Hmax.
      destruct (minimum v) as [lo|] eqn:Elo; [|reflexivity].
      destruct (maximum v) as [hi|] eqn:Ehi; [|reflexivity].
      now apply (H (fst e) v lo hi).
Qed.

Lemma createSchema_invariants_iff_witness :
  requiredDeclared (createSchema protoFields ["name"; "__proto__"]) = false /\
  boundsOrdered (createSchema
    [("score", withMaximum 0 (withMinimum 1 (field "number" "Score")))] []) = false.
Proof.
  split.
  - destruct (requiredDeclared (createSchema protoFields ["name"; "__proto__"]))
      eqn:E; [|reflexivity].
    pose proof (proj1 (proj1 (createSchema_invariants_iff _ _)) E "__proto__") as H.
    destruct H as [_ H]; [simpl; tauto | now elim H].
  - destruct (boundsOrdered (createSchema
      [("score", withMaximum 0 (withMinimum 1 (field "number" "Score")))] [])) eqn:E;
      [|reflexivity].
    assert (Hnd : NoDup (map fst
      [("score", withMaximum 0 (withMinimum 1 (field "number" "Score")))]))
      by (repeat constructor; simpl; tauto).
    assert (Hk : "score" <> "__proto__") by discriminate.
    pose proof (proj1 (proj2 (createSchema_invariants_iff _ _) Hnd) E
                  "score" _ (Num.ofZ 1) (Num.ofZ 0) (or_introl eq_refl) Hk eq_refl eq_refl) as H.
    vm_compute in H. discriminate H.
Defined.

(** * Further properties of the formatter and the validator *)

Lemma produced_validate :
  Forall (fun s =>
            validateSchema (formatSchema (input s))
            = Normal {| valid := true; error := None; parsed := Some (input s) |} /\
            validateSchema (formatSchema (output s))
            = Normal {| valid := true; error := None; parsed := Some (output s) |})
         producedSchemaSets.
Proof.
  unfold producedSchemaSets. cbn [map schemaPatterns].
  repeat (apply Forall_cons; [vm_compute; repeat split|]). apply Forall_nil.
Qed.

Lemma generated_validate (d : string) :
  validateSchema (formatSchema (input (generateSchemas d)))
  = Normal {| valid := true; error := None; parsed := Some (input (generateSchemas d)) |} /\
  validateSchema (formatSchema (output (generateSchemas d)))
  = Normal {| valid := true; error := None; parsed := Some (output (generateSchemas d)) |}.
Proof.
  pose proof produced_validate as H. rewrite Forall_forall in H.
  exact (H _ (generateSchemas_produced d)).
Qed.

(** * The page *)

(** ** Splitting into words and joining them *)

Lemma append_nil_r (s : string) : s ++ "" = s.
Proof. induction s as [|c s IH]; simpl; [reflexivity | now rewrite IH]. Qed.

Lemma noWhiteSpace_app (a b : string) :
  noWhiteSpace (a ++ b) = noWhiteSpace a && noWhiteSpace b.
Proof.
  induction a as [|c a IH]; simpl; [reflexivity|].
  now rewrite IH, andb_assoc.
Qed.

Lemma isWord_cons (c : ascii) (s : string) :
  isWord (String c s) = negb (Str.isWhiteSpace c) && noWhiteSpace s.
Proof. reflexivity. Qed.

Lemma splitFrom_char (current : string) (skipping : bool) (c : ascii) (s : string) :
  Str.isWhiteSpace c = false ->
  Str.splitFrom current skipping (String c s)
  = Str.splitFrom (current ++ String c "") false s.
Proof. intros H. simpl. now rewrite H. Qed.

Lemma splitFrom_prefix (w s : string) :
  noWhiteSpace w = true ->
  forall current, Str.splitFrom current false (w ++ s) = Str.splitFrom (current ++ w) false s.
Proof.
  induction w as [|c w IH]; intros Hw current.
  - now rewrite append_nil_r.
  - simpl in Hw. apply andb_true_iff in Hw as [Hc Hw]. apply negb_true_iff in Hc.
    cbn [append]. rewrite splitFrom_char by exact Hc.
    rewrite IH by exact Hw. now rewrite append_assoc.
Qed.

Lemma splitFrom_skipping (w s current : string) :
  isWord w = true ->
  Str.splitFrom current true (w ++ s) = Str.splitFrom current false (w ++ s).
Proof.
  destruct w as [|c w]; [discriminate|]. rewrite isWord_cons.
  intros H. apply andb_true_iff in H as [Hc _]. apply negb_true_iff in Hc.
  cbn [append]. now rewrite !splitFrom_char by exact Hc.
Qed.

Lemma join_cons (sep w w' : string) (ws : list string) :
  Str.join sep (w :: w' :: ws) = w ++ sep ++ Str.join sep (w' :: ws).
Proof. reflexivity. Qed.

Lemma join_head (sep w : string) (ws : list string) :
  exists rest, Str.join sep (w :: ws) = w ++ rest.
Proof.
  destruct ws as [|w' ws]; [exists ""; simpl; now rewrite append_nil_r|].
  eexists. apply join_cons.
Qed.

(** Words joined by single spaces are split into the same words. *)
Lemma split_join (ws : list string) :
  forall w current,
    Forall (fun x => isWord x = true) (w :: ws) ->
    Str.splitFrom current false (Str.join " " (w :: ws)) = (current ++ w) :: ws.
Proof.
  induction ws as [|w' ws IH]; intros w current Hall.
  - apply Forall_inv in Hall. unfold isWord in Hall. apply andb_true_iff in Hall as [_ Hw].
    cbn [Str.join]. rewrite <- (append_nil_r w) at 1.
    now rewrite splitFrom_prefix by exact Hw.
  - pose proof (Forall_inv Hall) as Hw. pose proof (Forall_inv_tail Hall) as Hrest.
    unfold isWord in Hw. apply andb_true_iff in Hw as [_ Hw].
    rewrite join_cons, splitFrom_prefix by exact Hw.
    cbn [append Str.splitFrom]. change (Str.isWhiteSpace " ") with true. cbv iota.
    f_equal.
    destruct (join_head " " w' ws) as [rest Hj]. rewrite Hj.
    rewrite splitFrom_skipping by exact (Forall_inv Hrest).
    rewrite <- Hj. now rewrite IH.
Qed.

Lemma endsClean_cons (c : ascii) (s : string) :
  s <> "" -> endsClean (String c s) = endsClean s.
Proof. destruct s; [congruence | reflexivity]. Qed.

Lemma endsClean_trimEnd (s : string) : endsClean (Str.trimEnd s) = true.
Proof.
  induction s as [|c s IH]; [reflexivity|]. cbn [Str.trimEnd].
  destruct (Str.trimEnd s) as [|a t] eqn:E.
  - destruct (Str.isWhiteSpace c) eqn:Hc; simpl; [reflexivity | now rewrite Hc].
  - rewrite endsClean_cons by discriminate. exact IH.
Qed.

Lemma trimStart_head (s : string) :
  Str.trimStart s = "" \/ startsWithWord (Str.trimStart s) = true.
Proof.
  induction s as [|c s IH]; [now left|]. cbn [Str.trimStart].
  destruct (Str.isWhiteSpace c) eqn:Hc; [exact IH|].
  right. simpl. now rewrite Hc.
Qed.

Lemma trimEnd_head (s : string) :
  startsWithWord s = true -> startsWithWord (Str.trimEnd s) = true.
Proof.
  destruct s as [|c s]; [discriminate|]. cbn [startsWithWord Str.trimEnd].
  intros Hc. destruct (Str.trimEnd s); [|exact Hc].
  apply negb_true_iff in Hc. rewrite Hc. simpl. now rewrite Hc.
Qed.

Lemma trim_edges (s : string) :
  Str.trim s <> "" -> startsWithWord (Str.trim s) = true /\ endsClean (Str.trim s) = true.
Proof.
  intros Hne. split; [|apply endsClean_trimEnd].
  unfold Str.trim in *. destruct (trimStart_head s) as [E | H].
  - rewrite E in Hne. now elim Hne.
  - now apply trimEnd_head.
Qed.

Lemma trimEnd_fixed (s : string) : endsClean s = true -> Str.trimEnd s = s.
Proof.
  induction s as [|c s IH]; [reflexivity|]. intros H. cbn [Str.trimEnd].
  destruct s as [|a t].
  - simpl in *. apply negb_true_iff in H. now rewrite H.
  - rewrite endsClean_cons in H by discriminate. now rewrite (IH H).
Qed.

Lemma trim_fixed (s : string) :
  startsWithWord s = true -> endsClean s = true -> Str.trim s = s.
Proof.
  intros Hs He. unfold Str.trim.
  assert (E : Str.trimStart s = s).
  { destruct s as [|c s]; [reflexivity|]. simpl in *.
    apply negb_true_iff in Hs. now rewrite Hs. }
  rewrite E. now apply trimEnd_fixed.
Qed.

(** The pieces of a string without white space at its ends are words. *)
Lemma splitFrom_words (s : string) :
  forall current skipping,
    endsClean s = true ->
    noWhiteSpace current = true ->
    (s = "" -> current <> "") ->
    (skipping = false -> current = "" -> startsWithWord s = true) ->
    Forall (fun x => isWord x = true) (Str.splitFrom current skipping s).
Proof.
  assert (Hword : forall x, noWhiteSpace x = true -> x <> "" -> isWord x = true).
  { intros x Hx Hne. unfold isWord. rewrite Hx. destruct x; [congruence | reflexivity]. }
  induction s as [|c s IH]; intros current skipping Hend Hcur Hne Hstart.
  - constructor; [|constructor]. apply Hword; auto.
  - cbn [Str.splitFrom]. destruct (Str.isWhiteSpace c) eqn:Hc.
    + assert (Hs : s <> "").
      { intros ->. simpl in Hend. rewrite Hc in Hend. discriminate. }
      rewrite endsClean_cons in Hend by exact Hs.
      assert (Hrest : Forall (fun x => isWord x = true) (Str.splitFrom "" true s)).
      { apply IH; auto. discriminate. }
      destruct skipping; [exact Hrest|].
      constructor; [|exact Hrest]. apply Hword; [exact Hcur|].
      intros ->. specialize (Hstart eq_refl eq_refl). simpl in Hstart.
      rewrite Hc in Hstart. discriminate.
    + apply IH.
      * destruct s; [reflexivity | now rewrite endsClean_cons in Hend by discriminate].
      * rewrite noWhiteSpace_app, Hcur. simpl. now rewrite Hc.
      * intros _. destruct current; discriminate.
      * intros _ E. destruct current; discriminate.
Qed.

Lemma split_trim_words (d : string) :
  Str.trim d <> "" ->
  Forall (fun x => isWord x = true) (Str.splitWhiteSpace (Str.trim d)) /\
  Str.splitWhiteSpace (Str.trim d) <> [].
Proof.
  intros Hne. destruct (trim_edges d Hne) as [Hs He]. split.
  - apply splitFrom_words; auto.
  - unfold Str.splitWhiteSpace. destruct (Str.trim d) as [|c s]; [congruence|].
    simpl in Hs. apply negb_true_iff in Hs.
    rewrite splitFrom_char by exact Hs.
    generalize ("" ++ String c ""). clear. induction s as [|a s IH]; intros cur; simpl.
    + discriminate.
    + destruct (Str.isWhiteSpace a); [discriminate | apply IH].
Qed.

(** ** Capitals *)

Lemma toUpperCaseChar_word (c : ascii) :
  Str.isWhiteSpace c = false -> isWord (Str.toUpperCaseChar c) = true.
Proof. destruct c as [[] [] [] [] [] [] [] []]; vm_compute; congruence. Qed.

Lemma noWhiteSpace_toLowerCase (s : string) :
  noWhiteSpace (Str.toLowerCase s) = noWhiteSpace s.
Proof.
  induction s as [|c s IH]; simpl; [reflexivity|].
  now rewrite isWhiteSpace_toLowerCaseChar, IH.
Qed.

Lemma capitalize_cons (c : ascii) (s : string) :
  Page.capitalize (String c s) = Str.toUpperCaseChar c ++ Str.toLowerCase s.
Proof.
  unfold Page.capitalize. cbn [Str.charAt Str.slice Str.toUpperCase].
  now rewrite append_nil_r.
Qed.

Lemma capitalize_word (w : string) :
  isWord w = true -> isWord (Page.capitalize w) = true.
Proof.
  destruct w as [|c w]; [discriminate|]. rewrite isWord_cons, capitalize_cons.
  intros H. apply andb_true_iff in H as [Hc Hw]. apply negb_true_iff in Hc.
  pose proof (toUpperCaseChar_word c Hc) as Hu. unfold isWord in *.
  apply andb_true_iff in Hu as [Hne Hu].
  rewrite noWhiteSpace_app, Hu, noWhiteSpace_toLowerCase, Hw.
  destruct (Str.toUpperCaseChar c); [discriminate Hne | reflexivity].
Qed.

(** A capital is its own capital, except for the sharp s. *)
Lemma toUpperCaseChar_single (c : ascii) :
  notSharpS c = true ->
  String.length (Str.toUpperCaseChar c) = 1 /\
  Str.toUpperCase (Str.toUpperCaseChar c) = Str.toUpperCaseChar c.
Proof.
  destruct c as [[] [] [] [] [] [] [] []]; vm_compute; intros H;
    first [discriminate H | split; reflexivity].
Qed.

Lemma toUpperCaseChar_fixed (c : ascii) :
  notSharpS c = true ->
  exists u, Str.toUpperCaseChar c = String u "" /\ Str.toUpperCaseChar u = String u "".
Proof.
  intros H. destruct (toUpperCaseChar_single c H) as [Hlen Hfix].
  destruct (Str.toUpperCaseChar c) as [|u [|v t]]; try discriminate Hlen.
  exists u. split; [reflexivity|]. simpl in Hfix. now rewrite append_nil_r in Hfix.
Qed.

Lemma capitalize_idempotent (w : string) :
  allChars notSharpS w = true ->
  Page.capitalize (Page.capitalize w) = Page.capitalize w.
Proof.
  destruct w as [|c w]; [reflexivity|]. simpl. intros H.
  apply andb_true_iff in H as [Hc _].
  destruct (toUpperCaseChar_fixed c Hc) as (u & Hu & Hu').
  rewrite capitalize_cons, Hu. cbn [append]. rewrite capitalize_cons, Hu'.
  now rewrite toLowerCase_idempotent.
Qed.

(** ** The generated name *)

Lemma noWhiteSpace_endsClean (w : string) : noWhiteSpace w = true -> endsClean w = true.
Proof.
  induction w as [|c w IH]; [reflexivity|]. simpl. intros H.
  apply andb_true_iff in H as [Hc Hw]. destruct w; [exact Hc | now apply IH].
Qed.

Lemma endsClean_app (a b : string) : b <> "" -> endsClean (a ++ b) = endsClean b.
Proof.
  intros Hb. induction a as [|c a IH]; [reflexivity|]. cbn [append].
  rewrite endsClean_cons; [exact IH|]. destruct a; [exact Hb | discriminate].
Qed.

Lemma join_words_edges (ws : list string) :
  forall w, Forall (fun x => isWord x = true) (w :: ws) ->
    startsWithWord (Str.join " " (w :: ws)) = true /\ endsClean (Str.join " " (w :: ws)) = true.
Proof.
  induction ws as [|w' ws IH]; intros w Hall.
  - apply Forall_inv in Hall. unfold isWord in Hall. apply andb_true_iff in Hall as [Hne Hw].
    cbn [Str.join]. split; [|now apply noWhiteSpace_endsClean].
    destruct w; [discriminate Hne|]. simpl in *. now apply andb_true_iff in Hw as [Hc _].
  - pose proof (Forall_inv Hall) as Hw. destruct (IH w' (Forall_inv_tail Hall)) as [Hs He].
    rewrite join_cons. split.
    + destruct w; [discriminate Hw|]. rewrite isWord_cons in Hw.
      now apply andb_true_iff in Hw as [Hc _].
    + assert (Hj : Str.join " " (w' :: ws) <> "") by (intros E; rewrite E in Hs; discriminate).
      rewrite endsClean_app by discriminate.
      cbn [append]. now rewrite endsClean_cons.
Qed.

Lemma firstn_Forall {A} (P : A -> Prop) (n : nat) (l : list A) :
  Forall P l -> Forall P (firstn n l).
Proof.
  revert n. induction l as [|a l IH]; intros [|n] H; simpl; try constructor.
  - exact (Forall_inv H).
  - apply IH. exact (Forall_inv_tail H).
Qed.

Lemma map_capitalize_words (ws : list string) :
  Forall (fun x => isWord x = true) ws ->
  Forall (fun x => isWord x = true) (map Page.capitalize ws).
Proof.
  induction 1; simpl; constructor; [now apply capitalize_word | assumption].
Qed.

(** The words of the name of a description that is not blank. *)
Lemma generatedName_spec (d : string) :
  Str.trim d <> "" ->
  exists w ws,
    map Page.capitalize (firstn 4 (Str.splitWhiteSpace (Str.trim d))) = w :: ws /\
    List.length (w :: ws) <= 4 /\
    Forall (fun x => isWord x = true) (w :: ws) /\
    Page.generatedName d = Str.join " " (w :: ws).
Proof.
  intros Hne. destruct (split_trim_words d Hne) as [Hwords Hnil].
  unfold Page.generatedName. cbv zeta.
  destruct (map Page.capitalize (firstn 4 (Str.splitWhiteSpace (Str.trim d)))) as [|w ws] eqn:E.
  - destruct (Str.splitWhiteSpace (Str.trim d)); [congruence | discriminate E].
  - exists w, ws. split; [reflexivity|]. split; [|split; [|reflexivity]].
    + rewrite <- E, length_map. apply firstn_le_length.
    + rewrite <- E. apply map_capitalize_words. now apply firstn_Forall.
Qed.

(** X9: the name generated for a description that is not blank consists
    of the first words of the description, four at most, each with its
    first letter capitalised and the others in lower case, separated by
    single spaces and without white space around. *)
Theorem generatedName_words (d : string) :
  Str.trim d <> "" ->
  let words := map Page.capitalize (firstn 4 (Str.splitWhiteSpace (Str.trim d))) in
  1 <= List.length words <= 4 /\
  Forall (fun w => isWord w = true) words /\
  Page.generatedName d = Str.join " " words /\
  Str.splitWhiteSpace (Page.generatedName d) = words /\
  Str.trim (Page.generatedName d) = Page.generatedName d.
Proof.
  intros Hne. cbv zeta.
  destruct (generatedName_spec d Hne) as (w & ws & E & Hlen & Hall & Hname).
  rewrite E, Hname. destruct (join_words_edges ws w Hall) as [Hs He].
  split; [simpl in *; lia|]. split; [exact Hall|]. split; [reflexivity|]. split.
  - unfold Str.splitWhiteSpace. now rewrite split_join.
  - now apply trim_fixed.
Qed.

Lemma generatedName_words_witness :
  Page.generatedName spacedExample = "Detect Spam In Customer" /\
  Str.splitWhiteSpace (Page.generatedName spacedExample) = ["Detect"; "Spam"; "In"; "Customer"].
Proof.
  assert (H : Str.trim spacedExample <> "") by (vm_compute; discriminate).
  destruct (generatedName_words spacedExample H) as (_ & _ & Hname & Hsplit & _).
  split; [rewrite Hname | rewrite Hsplit]; vm_compute; reflexivity.
Defined.

Lemma generatedName_blank (d : string) :
  Str.trim d = "" -> Page.generatedName d = "".
Proof. intros Htrim. unfold Page.generatedName. now rewrite Htrim. Qed.

(** X10: the generated name is empty exactly for the blank descriptions. *)
Theorem generatedName_empty_iff (d : string) :
  Page.generatedName d = "" <-> Str.trim d = "".
Proof.
  split.
  - intros Hname. destruct (Str.trim d) eqn:Htrim; [reflexivity|].
    assert (Hne : Str.trim d <> "") by (rewrite Htrim; discriminate).
    destruct (generatedName_spec d Hne) as (w & ws & _ & _ & Hall & Hj).
    destruct (join_words_edges ws w Hall) as [Hs _].
    rewrite <- Hj, Hname in Hs. discriminate Hs.
  - apply generatedName_blank.
Qed.

Lemma generatedName_empty_iff_witness : Page.generatedName "   " = "".
Proof. apply (proj2 (generatedName_empty_iff "   ")). vm_compute. reflexivity. Defined.

Lemma allChars_app (test : ascii -> bool) (a b : string) :
  allChars test (a ++ b) = allChars test a && allChars test b.
Proof.
  induction a as [|c a IH]; simpl; [reflexivity | now rewrite IH, andb_assoc].
Qed.

Lemma allChars_trimStart (test : ascii -> bool) (s : string) :
  allChars test s = true -> allChars test (Str.trimStart s) = true.
Proof.
  induction s as [|c s IH]; [reflexivity|]. intros H. cbn [Str.trimStart].
  destruct (Str.isWhiteSpace c); [|exact H].
  simpl in H. apply andb_true_iff in H as [_ H]. now apply IH.
Qed.

Lemma allChars_trimEnd (test : ascii -> bool) (s : string) :
  allChars test s = true -> allChars test (Str.trimEnd s) = true.
Proof.
  induction s as [|c s IH]; [reflexivity|]. intros H. cbn [Str.trimEnd].
  simpl in H. apply andb_true_iff in H as [Hc H]. specialize (IH H).
  destruct (Str.trimEnd s).
  - destruct (Str.isWhiteSpace c); simpl; [reflexivity | now rewrite Hc].
  - cbn [allChars] in *. now rewrite Hc, IH.
Qed.

Lemma allChars_splitFrom (test : ascii -> bool) (s : string) :
  forall current skipping,
    allChars test s = true -> allChars test current = true ->
    Forall (fun x => allChars test x = true) (Str.splitFrom current skipping s).
Proof.
  induction s as [|c s IH]; intros current skipping Hs Hcur.
  - constructor; [exact Hcur | constructor].
  - simpl in Hs. apply andb_true_iff in Hs as [Hc Hs]. cbn [Str.splitFrom].
    destruct (Str.isWhiteSpace c).
    + destruct skipping; [|constructor; [exact Hcur|]]; now apply IH.
    + apply IH; [exact Hs|]. rewrite allChars_app, Hcur. simpl. now rewrite Hc.
Qed.

Lemma map_capitalize_idempotent (ws : list string) :
  Forall (fun x => allChars notSharpS x = true) ws ->
  map Page.capitalize (map Page.capitalize ws) = map Page.capitalize ws.
Proof.
  induction 1 as [|w ws Hw _ IH]; [reflexivity|]. simpl.
  now rewrite capitalize_idempotent, IH.
Qed.

Lemma allChars_weaken (p q : ascii -> bool) (s : string) :
  (forall c, p c = true -> q c = true) -> allChars p s = true -> allChars q s = true.
Proof.
  intros Hpq. induction s as [|c s IH]; [reflexivity|]. cbn [allChars].
  rewrite !andb_true_iff. intros [Hc Hs]. split; [now apply Hpq | now apply IH].
Qed.

(** X11: for a description written in the alphabet of the model (code
    units below 256, Latin-1) without the sharp s, the micro sign and
    the y with diaeresis, a generated name is its own generated name.
    Outside this alphabet the property fails for first letters whose
    capital is several letters long. *)
Theorem generatedName_idempotent (d : string) :
  allChars latinCapital d = true ->
  Page.generatedName (Page.generatedName d) = Page.generatedName d.
Proof.
  intros Hlatin.
  assert (Hd : allChars notSharpS d = true).
  { revert Hlatin. apply allChars_weaken. intros c. unfold latinCapital.
    rewrite !andb_true_iff. tauto. }
  clear Hlatin. destruct (Str.trim d) eqn:Htrim.
  - rewrite (generatedName_blank d Htrim). reflexivity.
  - assert (Hne : Str.trim d <> "") by (rewrite Htrim; discriminate).
    clear Htrim.
    destruct (generatedName_spec d Hne) as (w & ws & E & Hlen & Hall & Hname).
    destruct (join_words_edges ws w Hall) as [Hs He].
    rewrite Hname at 1. unfold Page.generatedName at 1. cbv zeta.
    rewrite trim_fixed by assumption.
    unfold Str.splitWhiteSpace. rewrite split_join by exact Hall. cbn [append].
    rewrite firstn_all2 by exact Hlen.
    rewrite <- E, map_capitalize_idempotent, E; [symmetry; exact Hname|].
    apply firstn_Forall. apply allChars_splitFrom; [|reflexivity].
    unfold Str.trim. now apply allChars_trimEnd, allChars_trimStart.
Qed.

Lemma generatedName_idempotent_witness :
  Page.generatedName (Page.generatedName spacedExample) = Page.generatedName spacedExample.
Proof. apply generatedName_idempotent. vm_compute. reflexivity. Defined.

(** ** The validator, seen from the page *)

Lemma validateSchema_returns (s : string) : exists r, validateSchema s = Normal r.
Proof.
  unfold validateSchema. destruct (isBlank s); [eexists; reflexivity|].
  destruct (JSON.parse s) as [v | e]; simpl.
  - destruct (negb (typeof v =? "object")%string || isNull v || Array_isArray v);
      eexists; reflexivity.
  - eexists; reflexivity.
Qed.

(** A result is either valid, with a plain object and no error, or
    invalid, with a message that is not empty and nothing parsed. *)
Lemma validateSchema_shape (s : string) (r : ValidationResult) :
  validateSchema s = Normal r ->
  (exists members, r = {| valid := true; error := None; parsed := Some (JObject members) |}) \/
  (exists e, e <> "" /\ r = {| valid := false; error := Some e; parsed := None |}).
Proof.
  unfold validateSchema. destruct (isBlank s).
  - intros H. injection H as <-. left. now exists [].
  - destruct (JSON.parse s) as [v | e] eqn:E; simpl.
    + rewrite object_test. destruct v; simpl; intros H; injection H as <-;
        first [left; eexists; reflexivity | right; eexists; split; [|reflexivity]; discriminate].
    + destruct (parse_throws s e E) as (msg & -> & Hmsg).
      intros H. injection H as <-. right. now exists msg.
Qed.

Lemma errorToShow_none (s : string) (r : ValidationResult) :
  validateSchema s = Normal r ->
  (Page.noError (Page.errorToShow r) = true <-> valid r = true) /\
  (Page.errorToShow r = None <-> valid r = true) /\
  Page.errorToShow r = (if valid r then None else error r).
Proof.
  intros H. destruct (validateSchema_shape s r H) as [[ms ->] | (e & He & ->)].
  - repeat split; reflexivity.
  - unfold Page.errorToShow. cbn [valid error].
    apply String.eqb_neq in He. rewrite He. cbn [Page.noError]. rewrite He.
    repeat split; intros; discriminate.
Qed.

(** ** The handlers *)

(** X12: after a change of an editor, the page holds the new text (the
    empty text for an absent value) and shows the message of the
    validator exactly when the text does not validate; the other editor
    and the step are untouched. *)
Theorem handleSchemaChange_checked (value : option string) (st : Page.State) :
  let text := match value with Some v => v | None => "" end in
  exists r,
    validateSchema text = Normal r /\
    (exists st',
       Page.handleInputSchemaChange value st = Normal st' /\
       Page.inputSchemaString st' = text /\
       Page.inputSchemaError st' = (if valid r then None else error r) /\
       (Page.inputSchemaError st' = None <-> valid r = true) /\
       Page.outputSchemaString st' = Page.outputSchemaString st /\
       Page.outputSchemaError st' = Page.outputSchemaError st /\
       Page.step st' = Page.step st) /\
    (exists st',
       Page.handleOutputSchemaChange value st = Normal st' /\
       Page.outputSchemaString st' = text /\
       Page.outputSchemaError st' = (if valid r then None else error r) /\
       (Page.outputSchemaError st' = None <-> valid r = true) /\
       Page.inputSchemaString st' = Page.inputSchemaString st /\
       Page.inputSchemaError st' = Page.inputSchemaError st /\
       Page.step st' = Page.step st).
Proof.
  cbv zeta. set (text := match value with Some v => v | None => "" end).
  destruct (validateSchema_returns text) as [r Hr]. exists r.
  destruct (errorToShow_none text r Hr) as (_ & Hnone & Hshow).
  split; [exact Hr|]. split.
  - unfold Page.handleInputSchemaChange. fold text. rewrite Hr. cbn [bind].
    eexists. split; [reflexivity|]. cbn. conjuncts; auto; apply Hnone.
  - unfold Page.handleOutputSchemaChange. fold text. rewrite Hr. cbn [bind].
    eexists. split; [reflexivity|]. cbn. conjuncts; auto; apply Hnone.
Qed.

(** X13: when a data source is given, [handleStep2Continue] goes to
    step 3 with the two schemas generated for the description in the
    editors, as texts that validate and parse back to these schemas;
    when none is given, it changes nothing. *)
Theorem handleStep2Continue_schemas (st : Page.State) :
  (Page.dataSourceGiven st = false -> Page.handleStep2Continue st = st) /\
  (Page.dataSourceGiven st = true ->
   let st' := Page.handleStep2Continue st in
   let schemas := generateSchemas (Page.problemDescription st) in
   Page.step st' = Page.Step3 /\
   Page.inputSchemaString st' = formatSchema (input schemas) /\
   Page.outputSchemaString st' = formatSchema (output schemas) /\
   validateSchema (Page.inputSchemaString st')
   = Normal {| valid := true; error := None; parsed := Some (input schemas) |} /\
   validateSchema (Page.outputSchemaString st')
   = Normal {| valid := true; error := None; parsed := Some (output schemas) |} /\
   Page.problemDescription st' = Page.problemDescription st /\
   Page.inputSchemaError st' = Page.inputSchemaError st /\
   Page.outputSchemaError st' = Page.outputSchemaError st).
Proof.
  unfold Page.handleStep2Continue. split; intros H; rewrite H; [reflexivity|].
  cbn. destruct (generated_validate (Page.problemDescription st)) as [Hi Ho].
  conjuncts; auto.
Qed.

Lemma handleStep2Continue_schemas_witness :
  Page.step (Page.handleStep2Continue
               (Page.setCsvFile (Some {| Page.name := "mail.csv"; Page.size := 1024 |})
                  Page.initialState)) = Page.Step3.
Proof.
  apply (proj2 (handleStep2Continue_schemas _)). reflexivity.
Defined.

(** ** What holds in every state of the page *)

Lemma dispatch_editorsChecked (e : Page.Event) (st : Page.State) :
  editorsChecked st -> editorsChecked (Page.dispatch e st).
Proof.
  intros H. destruct e; cbn [Page.dispatch]; try exact H.
  - unfold Page.onDescriptionChange, Page.afterRender, Page.nameEffect. cbn.
    repeat match goal with |- context [if ?c then _ else _] => destruct c end; exact H.
  - unfold Page.onNameChange, Page.afterRender, Page.nameEffect. cbn.
    repeat match goal with |- context [if ?c then _ else _] => destruct c end; exact H.
  - unfold Page.handleStep1Continue.
    match goal with |- context [if ?c then _ else _] => destruct c end; exact H.
  - unfold Page.handleStep2Continue. destruct (Page.dataSourceGiven st); [|exact H].
    destruct (generated_validate (Page.problemDescription st)) as [Hi Ho].
    split; intros _; cbn; eexists; (split; [eassumption | reflexivity]).
  - unfold Page.handleInputSchemaChange.
    destruct (validateSchema match value with Some v => v | None => "" end) as [r | x] eqn:E;
      cbn [bind]; [|exact H].
    split; [|exact (proj2 H)]. intros Hno. cbn in *. exists r. split; [exact E|].
    exact (proj1 (proj1 (errorToShow_none _ r E)) Hno).
  - unfold Page.handleOutputSchemaChange.
    destruct (validateSchema match value with Some v => v | None => "" end) as [r | x] eqn:E;
      cbn [bind]; [|exact H].
    split; [exact (proj1 H)|]. intros Hno. cbn in *. exists r. split; [exact E|].
    exact (proj1 (proj1 (errorToShow_none _ r E)) Hno).
  - destruct answer; exact H.
  - destruct (Page.modelId st); [destruct (Page.step st)|]; exact H.
Qed.

Lemma run_editorsChecked (events : list Page.Event) : editorsChecked (Page.run events).
Proof.
  unfold Page.run.
  assert (Hinit : editorsChecked Page.initialState).
  { split; intros _; eexists; (split; [reflexivity | reflexivity]). }
  revert Hinit. generalize Page.initialState.
  induction events as [|e events IH]; intros st H; [exact H|].
  cbn [fold_left]. apply IH. now apply dispatch_editorsChecked.
Qed.

(** X14: in every state that the page can reach, an editor next to
    which no error is shown holds a text that validates; so when
    [handleStep3Continue] submits, the document handed to the store
    holds exactly the two objects parsed from the editors, and when it
    does not submit an error is shown or nobody is signed in. *)
Theorem submission_stores_editors {Time : Set} (events : list Page.Event)
    (user : option Page.User) (now1 now2 : Time) :
  let st := Page.run events in
  editorsChecked st /\
  match Page.handleStep3Continue user now1 now2 st with
  | Page.Awaiting effects data =>
      effects = [Page.AddDoc "models" data] /\
      validateSchema (Page.inputSchemaString st)
      = Normal {| valid := true; error := None; parsed := Some (Page.inputSchema data) |} /\
      validateSchema (Page.outputSchemaString st)
      = Normal {| valid := true; error := None; parsed := Some (Page.outputSchema data) |} /\
      isPlainObject (Page.inputSchema data) = true /\
      isPlainObject (Page.outputSchema data) = true
  | Page.NotSubmitted =>
      user = None \/
      Page.noError (Page.inputSchemaError st) = false \/
      Page.noError (Page.outputSchemaError st) = false
  | Page.Caught _ => False
  end.
Proof.
  cbv zeta. pose proof (run_editorsChecked events) as Hinv.
  split; [exact Hinv|]. destruct Hinv as [Hin Hout].
  unfold Page.handleStep3Continue.
  destruct (Page.noError (Page.inputSchemaError (Page.run events))) eqn:Ei;
    [|cbn; tauto].
  destruct (Page.noError (Page.outputSchemaError (Page.run events))) eqn:Eo;
    [|cbn; tauto].
  cbn [andb]. unfold Page.handleSubmit. destruct user as [u|]; [|now left].
  destruct (Hin Ei) as (ri & Hri & Hvi). destruct (Hout Eo) as (ro & Hro & Hvo).
  destruct (validateSchema_shape _ _ Hri) as [[mi ->] | (e & _ & ->)]; [|discriminate Hvi].
  destruct (validateSchema_shape _ _ Hro) as [[mo ->] | (e & _ & ->)]; [|discriminate Hvo].
  unfold Page.buildDocument. rewrite Hri, Hro. cbn. auto.
Qed.

Lemma submission_stores_editors_witness : editorsChecked (Page.run visit).
Proof.
  destruct (submission_stores_editors (Time := Z) visit None 0%Z 1%Z) as [H _]. exact H.
Defined.

Lemma dispatch_name (e : Page.Event) (st : Page.State) :
  (nameFollows st -> nameFollows (Page.dispatch e st)) /\
  (Page.nameManuallyEdited st = true -> isNameChange e = false ->
   Page.nameManuallyEdited (Page.dispatch e st) = true /\
   Page.modelName (Page.dispatch e st) = Page.modelName st).
Proof.
  unfold nameFollows.
  destruct e; cbn [Page.dispatch isNameChange];
    try (page_fields; split; [tauto | tauto]).
  - unfold Page.onDescriptionChange, Page.afterRender. page_fields.
    destruct (Page.problemDescription st =? value)%string eqn:E.
    + apply String.eqb_eq in E. subst value. rewrite Bool.eqb_reflx. cbn [andb].
      page_fields. split; [tauto | tauto].
    + cbn [andb]. unfold Page.nameEffect. page_fields.
      destruct (Page.nameManuallyEdited st) eqn:Em; cbn [negb andb]; page_fields.
      * rewrite Em. split; [intros _ H; discriminate H | auto].
      * destruct (value =? "")%string eqn:Ev; cbn [negb andb]; page_fields; rewrite ?Em.
        -- apply String.eqb_eq in Ev. subst value. split; [congruence | discriminate].
        -- split; [reflexivity | discriminate].
  - split; [|discriminate].
    unfold Page.onNameChange, Page.afterRender. page_fields.
    rewrite String.eqb_refl. cbn [andb].
    destruct (Bool.eqb (Page.nameManuallyEdited st) true); [|unfold Page.nameEffect];
      page_fields; cbn [negb andb]; page_fields; intros _ H; discriminate H.
  - unfold Page.handleStep1Continue.
    match goal with |- context [if ?c then _ else _] => destruct c end;
      page_fields; (split; [tauto | tauto]).
  - unfold Page.handleStep2Continue. destruct (Page.dataSourceGiven st);
      page_fields; (split; [tauto | tauto]).
  - unfold Page.handleInputSchemaChange.
    destruct (validateSchema match value with Some v => v | None => "" end);
      cbn [bind]; page_fields; (split; [tauto | tauto]).
  - unfold Page.handleOutputSchemaChange.
    destruct (validateSchema match value with Some v => v | None => "" end);
      cbn [bind]; page_fields; (split; [tauto | tauto]).
  - destruct answer; cbn [Page.resumeSubmit]; page_fields; (split; [tauto | tauto]).
  - destruct (Page.modelId st); [destruct (Page.step st)|]; page_fields;
      (split; [tauto | tauto]).
Qed.

Lemma fold_dispatch_app (events1 events2 : list Page.Event) (st : Page.State) :
  fold_left (fun st e => Page.dispatch e st) (events1 ++ events2)%list st
  = fold_left (fun st e => Page.dispatch e st) events2
      (fold_left (fun st e => Page.dispatch e st) events1 st).
Proof. apply fold_left_app. Qed.

(** X15: the name of the model follows the description until it is
    edited by hand, and not after: in every state of the page where the
    name was never edited and the description is not empty, the name is
    the one generated for the description; and once the name is edited,
    it stays as typed whatever happens next, short of another edit. *)
Theorem name_follows_until_edited :
  (forall events, nameFollows (Page.run events)) /\
  (forall events1 value events2,
     forallb (fun e => negb (isNameChange e)) events2 = true ->
     Page.modelName (Page.run (events1 ++ Page.NameChanged value :: events2)%list) = value).
Proof.
  split.
  - intros events. unfold Page.run.
    assert (Hinit : nameFollows Page.initialState) by (intros _ H; now elim H).
    revert Hinit. generalize Page.initialState.
    induction events as [|e events IH]; intros st H; [exact H|].
    cbn [fold_left]. apply IH. now apply dispatch_name.
  - intros events1 value events2 Hno. unfold Page.run.
    rewrite fold_dispatch_app. cbn [fold_left].
    set (st := fold_left _ events1 Page.initialState).
    assert (Hedit : Page.nameManuallyEdited (Page.dispatch (Page.NameChanged value) st) = true /\
                    Page.modelName (Page.dispatch (Page.NameChanged value) st) = value).
    { cbn [Page.dispatch]. unfold Page.onNameChange, Page.afterRender. page_fields.
      rewrite String.eqb_refl. cbn [andb].
      destruct (Bool.eqb (Page.nameManuallyEdited st) true); [|unfold Page.nameEffect];
        page_fields; cbn [negb andb]; page_fields; auto. }
    revert Hedit. generalize (Page.dispatch (Page.NameChanged value) st). clear st.
    induction events2 as [|e events2 IH]; intros st [Hm Hn]; [exact Hn|].
    cbn [forallb] in Hno. apply andb_true_iff in Hno as [He Hno].
    apply negb_true_iff in He. cbn [fold_left].
    destruct (proj2 (dispatch_name e st) Hm He) as [Hm' Hn'].
    apply IH; [exact Hno|]. split; [exact Hm' | congruence].
Qed.

Lemma name_follows_until_edited_witness :
  Page.modelName (Page.run ([Page.DescriptionChanged "detect spam"]
                              ++ Page.NameChanged "Mail guard"
                              :: [Page.DescriptionChanged "detect fraud"; Page.Step1Continue])%list)
  = "Mail guard".
Proof. apply (proj2 name_follows_until_edited). vm_compute. reflexivity. Defined.

Lemma dispatch_stored (e : Page.Event) (st : Page.State) :
  (Page.step st = Page.Training \/ Page.step st = Page.Success -> Page.modelId st <> None) ->
  (Page.step (Page.dispatch e st) = Page.Training \/
   Page.step (Page.dispatch e st) = Page.Success -> Page.modelId (Page.dispatch e st) <> None).
Proof.
  intros H.
  assert (Hother : forall s : Page.Step, s <> Page.Training -> s <> Page.Success ->
                     s = Page.Training \/ s = Page.Success -> Page.modelId st <> None)
    by (intros s H1 H2 [E | E]; contradiction).
  destruct e; cbn [Page.dispatch];
    try (page_fields; first [exact H | apply Hother; discriminate]).
  - unfold Page.onDescriptionChange, Page.afterRender, Page.nameEffect.
    repeat match goal with |- context [if ?c then _ else _] => destruct c end;
      page_fields; exact H.
  - unfold Page.onNameChange, Page.afterRender, Page.nameEffect.
    repeat match goal with |- context [if ?c then _ else _] => destruct c end;
      page_fields; exact H.
  - unfold Page.handleStep1Continue.
    match goal with |- context [if ?c then _ else _] => destruct c end;
      page_fields; first [exact H | apply Hother; discriminate].
  - unfold Page.handleStep2Continue. destruct (Page.dataSourceGiven st);
      page_fields; first [exact H | apply Hother; discriminate].
  - unfold Page.handleInputSchemaChange.
    destruct (validateSchema match value with Some v => v | None => "" end);
      cbn [bind]; page_fields; exact H.
  - unfold Page.handleOutputSchemaChange.
    destruct (validateSchema match value with Some v => v | None => "" end);
      cbn [bind]; page_fields; exact H.
  - destruct answer; cbn [Page.resumeSubmit]; page_fields;
      [intros _; discriminate | exact H].
  - destruct (Page.modelId st) eqn:Em; [destruct (Page.step st) eqn:Es|];
      page_fields; rewrite ?Em, ?Es; try exact H; intros _; discriminate.
Qed.

(** X16: the page is at the training step or at the success step only
    for a model that the store has accepted: in every state of the page
    at one of these steps, the identifier of the model is set. *)
Theorem training_needs_stored_model (events : list Page.Event) :
  Page.step (Page.run events) = Page.Training \/ Page.step (Page.run events) = Page.Success ->
  exists id, Page.modelId (Page.run events) = Some id.
Proof.
  assert (H : Page.step (Page.run events) = Page.Training \/
              Page.step (Page.run events) = Page.Success ->
              Page.modelId (Page.run events) <> None).
  { unfold Page.run.
    assert (Hinit : Page.step Page.initialState = Page.Training \/
                    Page.step Page.initialState = Page.Success ->
                    Page.modelId Page.initialState <> None)
      by (cbn; intros [E | E]; discriminate E).
    revert Hinit. generalize Page.initialState.
    induction events as [|e events IH]; intros st Hst; [exact Hst|].
    cbn [fold_left]. apply IH. now apply dispatch_stored. }
  intros Hs. specialize (H Hs).
  destruct (Page.modelId (Page.run events)) as [id|]; [now exists id | congruence].
Qed.

Lemma training_needs_stored_model_witness :
  exists id, Page.modelId (Page.run (visit ++ [Page.StoreAnswered (Normal "m42")])%list) = Some id.
Proof. apply training_needs_stored_model. left. vm_compute. reflexivity. Defined.

(** ** Number literals *)

(** *** The digits of an integer *)

Lemma digitsValueFrom_uint_acc (d : Decimal.uint) :
  forall acc : positive,
    Num.digitsValueFrom (Z.pos acc) (NilEmpty.string_of_uint d)
    = Z.pos (Pos.of_uint_acc d acc).
Proof.
  induction d as [|d IH|d IH|d IH|d IH|d IH|d IH|d IH|d IH|d IH|d IH]; intros acc;
    cbn [NilEmpty.string_of_uint Num.digitsValueFrom Pos.of_uint_acc]; [reflexivity|..];
    rewrite <- IH; f_equal; vm_compute Num.digitValue; lia.
Qed.

Lemma digitsValueFrom_uint (d : Decimal.uint) :
  Num.digitsValueFrom 0 (NilEmpty.string_of_uint d) = Z.of_N (Pos.of_uint d).
Proof.
  induction d as [|d IH|d IH|d IH|d IH|d IH|d IH|d IH|d IH|d IH|d IH];
    cbn [NilEmpty.string_of_uint Num.digitsValueFrom Pos.of_uint]; [reflexivity|exact IH|..];
    cbn [Z.of_N]; rewrite <- digitsValueFrom_uint_acc; reflexivity.
Qed.

Lemma isDigits_uint (d : Decimal.uint) : isDigits (NilEmpty.string_of_uint d) = true.
Proof.
  induction d as [|d IH|d IH|d IH|d IH|d IH|d IH|d IH|d IH|d IH|d IH];
    [reflexivity | exact IH ..].
Qed.

Lemma to_uint_head (p : positive) :
  Pos.to_uint p <> Decimal.Nil /\ forall d, Pos.to_uint p <> Decimal.D0 d.
Proof.
  split; [apply DecimalPos.Unsigned.to_uint_nonnil|]. intros d Hd.
  pose proof (DecimalPos.Unsigned.to_of (Pos.to_uint p)) as Hnorm.
  rewrite DecimalPos.Unsigned.of_to in Hnorm. cbn [N.to_uint] in Hnorm.
  assert (Hnz : Decimal.nzhead (Pos.to_uint p) <> Decimal.Nil).
  { intros Hnil. apply DecimalFacts.unorm_0 in Hnil. rewrite <- Hnorm in Hnil.
    now apply DecimalPos.Unsigned.to_uint_nonzero in Hnil. }
  rewrite (DecimalFacts.unorm_nzhead _ Hnz) in Hnorm.
  apply (DecimalFacts.nzhead_nonzero (Pos.to_uint p) d). congruence.
Qed.

Lemma startsNonZero_uint (d : Decimal.uint) :
  d <> Decimal.Nil -> (forall d', d <> Decimal.D0 d') ->
  startsNonZero (NilEmpty.string_of_uint d) = true.
Proof.
  intros Hnil Hzero. destruct d; try reflexivity; [congruence | now elim (Hzero d)].
Qed.

Lemma digitsOfZ_pos (z : Z) :
  z <> 0%Z ->
  isDigits (Num.digitsOfZ z) = true /\ startsNonZero (Num.digitsOfZ z) = true /\
  Num.digitsValue (Num.digitsOfZ z) = Z.abs z.
Proof.
  intros Hz. unfold Num.digitsOfZ, Num.digitsValue.
  destruct (Z.abs_N z) as [|p] eqn:Hp; [lia|]. cbn [N.to_uint].
  destruct (to_uint_head p) as [Hnil Hzero].
  assert (E : NilZero.string_of_uint (Pos.to_uint p) = NilEmpty.string_of_uint (Pos.to_uint p)).
  { destruct (Pos.to_uint p); [congruence | reflexivity ..]. }
  rewrite E. split; [apply isDigits_uint|]. split; [now apply startsNonZero_uint|].
  rewrite digitsValueFrom_uint, DecimalPos.Unsigned.of_to. lia.
Qed.

Lemma digitsOfZ_any (z : Z) :
  isDigits (Num.digitsOfZ z) = true /\ Num.digitsOfZ z <> "" /\
  Num.digitsValue (Num.digitsOfZ z) = Z.abs z.
Proof.
  destruct (Z.eq_dec z 0) as [-> | Hz]; [repeat split; discriminate|].
  destruct (digitsOfZ_pos z Hz) as (Hd & Hs & Hv). repeat split; auto.
  intros E. rewrite E in Hs. discriminate.
Qed.

(** *** Digit strings *)

Lemma digitsValueFrom_last (s : string) (c : ascii) :
  forall acc,
    Num.digitsValueFrom acc (s ++ String c "")
    = (10 * Num.digitsValueFrom acc s
       + match Num.digitValue c with Some d => d | None => 0 end)%Z.
Proof. induction s as [|x s IH]; intros acc; simpl; [reflexivity | apply IH]. Qed.

Lemma endsNonZero_value (s : string) :
  s <> "" -> endsNonZero s = false ->
  forall acc, (Num.digitsValueFrom acc s mod 10 = 0)%Z.
Proof.
  induction s as [|c s IH]; [congruence|]. intros _ Hend acc.
  destruct s as [|c' s].
  - cbn [endsNonZero] in Hend. apply negb_false_iff, Ascii.eqb_eq in Hend. subst c.
    cbn [Num.digitsValueFrom]. vm_compute Num.digitValue.
    rewrite Z.add_0_r, Z.mul_comm. apply Z.mod_mul. lia.
  - cbn [Num.digitsValueFrom]. apply IH; [discriminate | exact Hend].
Qed.

Lemma digitsOfZ_ends (z : Z) :
  (z mod 10 <> 0)%Z -> endsNonZero (Num.digitsOfZ z) = true.
Proof.
  intros Hz. destruct (endsNonZero (Num.digitsOfZ z)) eqn:E; [reflexivity|].
  destruct (digitsOfZ_any z) as (_ & Hne & Hv).
  pose proof (endsNonZero_value _ Hne E 0%Z) as Hmod.
  unfold Num.digitsValue in Hv. rewrite Hv in Hmod.
  exfalso. apply Hz. destruct z as [|p|p]; [reflexivity | exact Hmod |].
  cbn [Z.abs] in Hmod. apply Z.mod_divide in Hmod; [|lia]. apply Z.mod_divide; [lia|].
  destruct Hmod as [q Hq]. exists (- q)%Z. lia.
Qed.

Lemma stripTrailingZeros_zeros (j : nat) :
  Num.stripTrailingZeros (Num.zeros j) = ("", Z.of_nat j).
Proof.
  induction j as [|j IH]; [reflexivity|].
  cbn [Num.zeros Num.stripTrailingZeros]. rewrite IH.
  replace (Ascii.eqb "0" "0") with true by reflexivity. f_equal. lia.
Qed.

Lemma stripTrailingZeros_ends (s : string) (j : nat) :
  endsNonZero s = true ->
  Num.stripTrailingZeros (s ++ Num.zeros j) = (s, Z.of_nat j).
Proof.
  induction s as [|c s IH]; [discriminate|]. intros Hend.
  cbn [append Num.stripTrailingZeros]. destruct s as [|c' s].
  - cbn [append]. rewrite stripTrailingZeros_zeros.
    cbn [endsNonZero] in Hend. apply negb_true_iff in Hend. now rewrite Hend.
  - rewrite IH by exact Hend. reflexivity.
Qed.

Lemma stripLeadingZeros_zeros (j : nat) (s : string) :
  Num.stripLeadingZeros (Num.zeros j ++ s) = Num.stripLeadingZeros s.
Proof. induction j as [|j IH]; [reflexivity | exact IH]. Qed.

Lemma stripLeadingZeros_starts (s : string) :
  startsNonZero s = true -> Num.stripLeadingZeros s = s.
Proof.
  destruct s as [|c s]; [discriminate|]. cbn [startsNonZero Num.stripLeadingZeros].
  intros H. apply negb_true_iff in H. now rewrite H.
Qed.

(** The number that a digit string denotes, zeros around it apart. *)
Lemma ofDigits_zeros (neg : bool) (ds : string) (i j : nat) (e : Z) :
  startsNonZero ds = true -> endsNonZero ds = true ->
  Num.ofDigits neg (Num.zeros i ++ ds ++ Num.zeros j) e
  = mkNumber (if neg then - Num.digitsValue ds else Num.digitsValue ds) (e + Z.of_nat j).
Proof.
  intros Hs He. unfold Num.ofDigits.
  rewrite stripLeadingZeros_zeros, stripLeadingZeros_starts.
  - rewrite stripTrailingZeros_ends by exact He. destruct ds; [discriminate | reflexivity].
  - destruct ds; [discriminate | exact Hs].
Qed.

Lemma length_zeros (j : nat) : String.length (Num.zeros j) = j.
Proof. induction j as [|j IH]; [reflexivity | simpl; now rewrite IH]. Qed.

Lemma isDigits_zeros (j : nat) : isDigits (Num.zeros j) = true.
Proof. induction j as [|j IH]; [reflexivity | exact IH]. Qed.

Lemma isDigits_app (a b : string) : isDigits (a ++ b) = isDigits a && isDigits b.
Proof. apply allChars_app. Qed.

Lemma length_app (a b : string) : String.length (a ++ b) = String.length a + String.length b.
Proof. induction a as [|c a IH]; simpl; [reflexivity | now rewrite IH]. Qed.

Lemma splitAt_spec (n : nat) :
  forall s i f,
    n <= String.length s -> Num.splitAt n s = (i, f) ->
    s = i ++ f /\ String.length i = n.
Proof.
  induction n as [|n IH]; intros s i f Hn; cbn [Num.splitAt].
  - intros [= <- <-]. now split.
  - destruct s as [|c s]; [simpl in Hn; lia|].
    destruct (Num.splitAt n s) as [a b] eqn:E. intros [= <- <-].
    destruct (IH s a b) as [-> Hlen]; [simpl in Hn; lia | exact E |].
    split; [reflexivity | simpl; now rewrite Hlen].
Qed.

(** *** Lexing *)

Lemma list_ascii_of_string_app (a b : string) :
  list_ascii_of_string (a ++ b) = (list_ascii_of_string a ++ list_ascii_of_string b)%list.
Proof. induction a as [|c a IH]; simpl; [reflexivity | now rewrite IH]. Qed.

Lemma numberText_digit (neg : bool) (ds : string) (c : ascii) (fl : Z) (eneg : bool)
    (eds : string) :
  numberText neg (ds ++ String c "") fl eneg eds
  = {| JSON.negative := neg; JSON.digits := c :: rev (list_ascii_of_string ds);
       JSON.fracLength := fl; JSON.expNegative := eneg;
       JSON.expDigits := rev (list_ascii_of_string eds) |}.
Proof.
  unfold numberText. now rewrite list_ascii_of_string_app, rev_app_distr.
Qed.

Lemma numberText_expDigit (neg : bool) (ds : string) (c : ascii) (fl : Z) (eneg : bool)
    (eds : string) :
  numberText neg ds fl eneg (eds ++ String c "")
  = {| JSON.negative := neg; JSON.digits := rev (list_ascii_of_string ds);
       JSON.fracLength := fl; JSON.expNegative := eneg;
       JSON.expDigits := c :: rev (list_ascii_of_string eds) |}.
Proof.
  unfold numberText. now rewrite list_ascii_of_string_app, rev_app_distr.
Qed.

Lemma append_cons (a : string) (c : ascii) (b : string) :
  a ++ String c b = (a ++ String c "") ++ b.
Proof. now rewrite append_assoc. Qed.

Lemma lexNumber_app (a b : string) :
  forall phase t,
    lexNumber phase t (a ++ b)
    = match lexNumber phase t a with
      | Some (phase', t') => lexNumber phase' t' b
      | None => None
      end.
Proof.
  induction a as [|c a IH]; intros phase t; cbn [append lexNumber]; [reflexivity|].
  destruct (JSON.stepNumber phase t c) as [[ | | | | | phase1 t1]|]; try reflexivity.
  apply IH.
Qed.

Lemma lex_int (s : string) :
  forall neg ds fl eneg eds,
    isDigits s = true ->
    lexNumber JSON.IntDigits (numberText neg ds fl eneg eds) s
    = Some (JSON.IntDigits, numberText neg (ds ++ s) fl eneg eds).
Proof.
  induction s as [|c s IH]; intros neg ds fl eneg eds Hs.
  - now rewrite append_nil_r.
  - cbn [isDigits allChars] in Hs. apply andb_true_iff in Hs as [Hc Hs].
    cbn [lexNumber]. unfold JSON.stepNumber. rewrite Hc.
    rewrite (append_cons ds c s), <- IH by exact Hs.
    now rewrite numberText_digit.
Qed.

Lemma lex_frac (s : string) :
  forall neg ds fl eneg eds,
    isDigits s = true ->
    lexNumber JSON.FracDigits (numberText neg ds fl eneg eds) s
    = Some (JSON.FracDigits,
            numberText neg (ds ++ s) (fl + Z.of_nat (String.length s)) eneg eds).
Proof.
  induction s as [|c s IH]; intros neg ds fl eneg eds Hs.
  - rewrite append_nil_r. cbn [String.length Z.of_nat]. now rewrite Z.add_0_r.
  - cbn [isDigits allChars] in Hs. apply andb_true_iff in Hs as [Hc Hs].
    cbn [lexNumber]. unfold JSON.stepNumber. rewrite Hc.
    rewrite (append_cons ds c s).
    replace (fl + Z.of_nat (String.length (String c s)))%Z
      with ((fl + 1) + Z.of_nat (String.length s))%Z by (cbn [String.length]; lia).
    rewrite <- IH by exact Hs. now rewrite numberText_digit.
Qed.

Lemma lex_point (s : string) (neg : bool) (ds : string) (fl : Z) (eneg : bool) (eds : string) :
  isDigits s = true -> s <> "" ->
  lexNumber JSON.AfterPoint (numberText neg ds fl eneg eds) s
  = Some (JSON.FracDigits,
          numberText neg (ds ++ s) (fl + Z.of_nat (String.length s)) eneg eds).
Proof.
  destruct s as [|c s]; [congruence|]. intros Hs _.
  rewrite <- (lex_frac (String c s)) by exact Hs.
  cbn [isDigits allChars] in Hs. apply andb_true_iff in Hs as [Hc Hs].
  cbn [lexNumber]. unfold JSON.stepNumber. now rewrite Hc.
Qed.

Lemma lex_exp (s : string) :
  forall neg ds fl eneg eds,
    isDigits s = true ->
    lexNumber JSON.ExpDigits (numberText neg ds fl eneg eds) s
    = Some (JSON.ExpDigits, numberText neg ds fl eneg (eds ++ s)).
Proof.
  induction s as [|c s IH]; intros neg ds fl eneg eds Hs.
  - now rewrite append_nil_r.
  - cbn [isDigits allChars] in Hs. apply andb_true_iff in Hs as [Hc Hs].
    cbn [lexNumber]. unfold JSON.stepNumber. rewrite Hc.
    rewrite (append_cons eds c s), <- IH by exact Hs.
    now rewrite numberText_expDigit.
Qed.

Lemma lex_exp_sign (s : string) (neg : bool) (ds : string) (fl : Z) (eneg : bool) :
  isDigits s = true -> s <> "" ->
  lexNumber JSON.AfterExpSign (numberText neg ds fl eneg "") s
  = Some (JSON.ExpDigits, numberText neg ds fl eneg s).
Proof.
  destruct s as [|c s]; [congruence|]. intros Hs _.
  change (numberText neg ds fl eneg (String c s))
    with (numberText neg ds fl eneg ("" ++ String c s)).
  rewrite <- (lex_exp (String c s)) by exact Hs.
  cbn [isDigits allChars] in Hs. apply andb_true_iff in Hs as [Hc Hs].
  cbn [lexNumber]. unfold JSON.stepNumber. now rewrite Hc.
Qed.

(** The exponent part [e+21] or [e-7] of a literal. *)
Lemma lex_exponent (phase : JSON.NumberPhase) (e : Z) (neg : bool) (ds : string) (fl : Z) :
  phase = JSON.IntDigits \/ phase = JSON.FracDigits ->
  lexNumber phase (numberText neg ds fl false "")
            (String "e" ((if (e <? 0)%Z then "-" else "+") ++ Num.digitsOfZ e))
  = Some (JSON.ExpDigits, numberText neg ds fl (e <? 0)%Z (Num.digitsOfZ e)).
Proof.
  intros Hphase. destruct (digitsOfZ_any e) as (Hd & Hne & _).
  rewrite <- (lex_exp_sign (Num.digitsOfZ e) neg ds fl (e <? 0)%Z Hd Hne).
  destruct Hphase as [-> | ->]; destruct (e <? 0)%Z; reflexivity.
Qed.

Lemma numberOfText_numberText (neg : bool) (ds : string) (fl : Z) (eneg : bool) (eds : string) :
  JSON.numberOfText (numberText neg ds fl eneg eds)
  = Num.ofDigits neg ds ((if eneg then - Num.digitsValue eds else Num.digitsValue eds) - fl).
Proof.
  unfold JSON.numberOfText, numberText.
  cbn [JSON.negative JSON.digits JSON.fracLength JSON.expNegative JSON.expDigits].
  now rewrite !rev_involutive, !string_of_list_ascii_of_string.
Qed.

(** The first digit of a literal, after the sign if there is one. *)
Lemma readLiteral_signed (neg : bool) (c : ascii) (s : string) :
  Num.isDigit c = true ->
  readLiteral ((if neg then "-" else "") ++ String c s)
  = lexNumber (if Ascii.eqb c "0" then JSON.AfterZero else JSON.IntDigits)
              (numberText neg (String c "") 0 false "") s.
Proof.
  intros Hc. destruct neg; cbn [append readLiteral].
  - replace (startNumberAt "-") with (Some (JSON.AfterMinus, JSON.startNumber true []))
      by reflexivity.
    cbn [lexNumber]. unfold JSON.stepNumber. rewrite Hc.
    destruct (Ascii.eqb c "0"); reflexivity.
  - unfold startNumberAt. rewrite Hc.
    destruct (Ascii.eqb c "-") eqn:E;
      [apply Ascii.eqb_eq in E; subst c; discriminate Hc|].
    destruct (Ascii.eqb c "0"); reflexivity.
Qed.

Lemma lex_dot (phase : JSON.NumberPhase) (t : JSON.NumberText) (s : string) :
  phase = JSON.IntDigits \/ phase = JSON.AfterZero ->
  lexNumber phase t (String "." s) = lexNumber JSON.AfterPoint t s.
Proof. intros [-> | ->]; reflexivity. Qed.

(** *** What [Number::toString] prints is read back *)

Lemma reads_normal (m ex : Z) (body D : string) (phase : JSON.NumberPhase) (fl : Z)
    (eneg : bool) (eds : string) (i j : nat) :
  m <> 0%Z -> (m mod 10 <> 0)%Z ->
  readLiteral ((if (m <? 0)%Z then "-" else "") ++ body)
    = Some (phase, numberText (m <? 0)%Z D fl eneg eds) ->
  D = Num.zeros i ++ Num.digitsOfZ m ++ Num.zeros j ->
  JSON.complete phase = true ->
  ((if eneg then - Num.digitsValue eds else Num.digitsValue eds) - fl + Z.of_nat j = ex)%Z ->
  match readLiteral ((if (m <? 0)%Z then "-" else "") ++ body) with
  | Some (phase, t) => JSON.complete phase && sameNumber (JSON.numberOfText t) (mkNumber m ex)
  | None => false
  end = true.
Proof.
  intros Hm Hmod -> -> -> <-.
  destruct (digitsOfZ_pos m Hm) as (_ & Hs & Hv).
  rewrite numberOfText_numberText, ofDigits_zeros by auto using digitsOfZ_ends.
  unfold sameNumber. cbn [mantissa exponent andb]. rewrite Hv.
  apply andb_true_iff; split; apply Z.eqb_eq; [|reflexivity].
  destruct (Z.ltb_spec m 0); lia.
Qed.

Lemma normal_readsBack (n : Number) : isNormal n = true -> readsBack n = true.
Proof.
  destruct n as [m ex]. unfold isNormal. cbn [mantissa exponent].
  destruct (m =? 0)%Z eqn:Hm0.
  - apply Z.eqb_eq in Hm0. subst m. intros Hex. apply Z.eqb_eq in Hex. subst ex.
    vm_compute. reflexivity.
  - intros Hmod. apply negb_true_iff, Z.eqb_neq in Hmod.
    assert (Hm : m <> 0%Z) by now apply Z.eqb_neq.
    destruct (digitsOfZ_pos m Hm) as (Hd & Hs & Hv).
    unfold readsBack, Num.toString, Num.isZero. cbn [mantissa exponent]. rewrite Hm0.
    cbv zeta.
    set (neg := (m <? 0)%Z).
    destruct (Num.digitsOfZ m) as [|d ds'] eqn:Eds; [discriminate|].
    unfold isDigits in Hd. cbn [allChars] in Hd. fold (isDigits ds') in Hd.
    apply andb_true_iff in Hd as [Hd Hds'].
    cbn [startsNonZero] in Hs. apply negb_true_iff in Hs.
    set (k := Z.of_nat (String.length (String d ds'))).
    assert (Hk : k = (1 + Z.of_nat (String.length ds'))%Z)
      by (unfold k; cbn [String.length]; lia).
    set (n := (k + ex)%Z).
    assert (Hn : n = (k + ex)%Z) by reflexivity.
    destruct ((k <=? n)%Z && (n <=? 21)%Z) eqn:C1;
      [| destruct ((0 <? n)%Z && (n <=? 21)%Z) eqn:C2;
         [| destruct ((-6 <? n)%Z && (n <=? 0)%Z) eqn:C3]].
    + (* digits, then zeros *)
      apply andb_true_iff in C1 as [C1 _]. apply Z.leb_le in C1.
      cbn [append].
      apply (reads_normal m ex _ (String d ds' ++ Num.zeros (Z.to_nat (n - k)))
               JSON.IntDigits 0 false "" 0 (Z.to_nat (n - k))); auto.
      * fold neg. rewrite readLiteral_signed, Hs by exact Hd.
        rewrite lex_int by (rewrite isDigits_app, Hds'; apply isDigits_zeros).
        reflexivity.
      * now rewrite Eds.
      * change (Num.digitsValue "") with 0%Z. cbv iota. lia.
    + (* digits around a point *)
      apply andb_true_iff in C2 as [C2 C2']. apply Z.ltb_lt in C2.
      assert (Hnk : (n < k)%Z).
      { apply andb_false_iff in C1 as [C1 | C1]; [now apply Z.leb_gt in C1 | congruence]. }
      destruct (Num.splitAt (Z.to_nat n) (String d ds')) as [i f] eqn:Esplit.
      apply splitAt_spec in Esplit as [Hif Hi]; [|cbn [String.length]; lia].
      destruct i as [|d' i']; [cbn [String.length] in Hi; lia|].
      cbn [append] in Hif. injection Hif as <- Hds.
      assert (Hlen : String.length ds' = String.length i' + String.length f)
        by (rewrite Hds; apply length_app).
      rewrite Hds, isDigits_app in Hds'. apply andb_true_iff in Hds' as [Hi' Hf].
      cbn [String.length] in Hi.
      cbn [append].
      apply (reads_normal m ex _ (String d ds') JSON.FracDigits
               (Z.of_nat (String.length f)) false "" 0 0); auto.
      * fold neg. rewrite readLiteral_signed, Hs by exact Hd.
        rewrite lexNumber_app, lex_int by exact Hi'.
        rewrite lex_dot by now left.
        rewrite lex_point; [now rewrite Hds | exact Hf |].
        intros ->. cbn [String.length] in Hlen. lia.
      * now rewrite Eds, append_nil_r.
      * change (Num.digitsValue "") with 0%Z. cbv iota. lia.
    + (* zeros after the point, then digits *)
      apply andb_true_iff in C3 as [C3 C3']. apply Z.ltb_lt in C3. apply Z.leb_le in C3'.
      cbn [append].
      apply (reads_normal m ex _ ("0" ++ Num.zeros (Z.to_nat (- n)) ++ String d ds')
               JSON.FracDigits
               (Z.of_nat (String.length (Num.zeros (Z.to_nat (- n)) ++ String d ds')))
               false "" (S (Z.to_nat (- n))) 0); auto.
      * fold neg. rewrite readLiteral_signed by reflexivity.
        change (Ascii.eqb "0" "0") with true. cbv iota.
        rewrite lex_dot by now right.
        rewrite lex_point; [reflexivity | |].
        -- rewrite isDigits_app, isDigits_zeros. unfold isDigits. cbn [allChars].
           now rewrite Hd.
        -- destruct (Num.zeros (Z.to_nat (- n))); discriminate.
      * now rewrite Eds, append_nil_r.
      * rewrite length_app, length_zeros. change (Num.digitsValue "") with 0%Z.
        cbv iota. fold k. lia.
    + (* exponent *)
      assert (He : Num.digitsValue (Num.digitsOfZ (n - 1)) = Z.abs (n - 1))
        by apply digitsOfZ_any.
      destruct ds' as [|d2 rest].
      * cbn [append].
        apply (reads_normal m ex _ (String d "") JSON.ExpDigits 0
                 (n - 1 <? 0)%Z (Num.digitsOfZ (n - 1)) 0 0); auto.
        -- fold neg. rewrite readLiteral_signed, Hs by exact Hd.
           now rewrite lex_exponent by now left.
        -- now rewrite Eds.
        -- rewrite He. cbn [String.length] in Hk. destruct (Z.ltb_spec (n - 1) 0); lia.
      * cbn [append].
        apply (reads_normal m ex _ (String d (String d2 rest)) JSON.ExpDigits
                 (Z.of_nat (String.length (String d2 rest)))
                 (n - 1 <? 0)%Z (Num.digitsOfZ (n - 1)) 0 0); auto.
        -- fold neg. rewrite readLiteral_signed, Hs by exact Hd.
           rewrite lex_dot by now left.
           match goal with
           | |- context [String d2 (rest ++ ?x)] =>
               change (String d2 (rest ++ x)) with (String d2 rest ++ x)
           end.
           rewrite (lexNumber_app (String d2 rest)).
           rewrite lex_point by (auto; discriminate).
           cbn [append Z.add]. now rewrite lex_exponent by now right.
        -- now rewrite Eds, append_nil_r.
        -- rewrite He. destruct (Z.ltb_spec (n - 1) 0); lia.
Qed.

(** ** Reading back what [JSON.stringify] prints *)

Lemma Json_nested_ind (P : Json -> Prop) :
  P JNull -> (forall b, P (JBool b)) -> (forall n, P (JNumber n)) ->
  (forall s, P (JString s)) ->
  (forall elements, Forall P elements -> P (JArray elements)) ->
  (forall members, Forall (fun m => P (snd m)) members -> P (JObject members)) ->
  forall v, P v.
Proof.
  intros Hnull Hbool Hnum Hstr Harr Hobj. fix IH 1.
  intros [ | b | n | s | elements | members].
  - exact Hnull.
  - apply Hbool.
  - apply Hnum.
  - apply Hstr.
  - apply Harr. revert elements. fix IHl 1. intros [|x l]; constructor; [apply IH | apply IHl].
  - apply Hobj. revert members. fix IHl 1.
    intros [|[k x] l]; constructor; [apply IH | apply IHl].
Qed.

Lemma outcome_run (text : string) :
  forall st v pos, outcome st text = Some v -> JSON.run st pos text = inr v.
Proof.
  induction text as [|c text IH]; intros st v pos; simpl.
  - now intros ->.
  - destruct (JSON.step st c) as [st'|]; [apply IH | discriminate].
Qed.

Lemma outcome_steps (a : string) :
  forall st st' rest, steps st a = Some st' -> outcome st (a ++ rest) = outcome st' rest.
Proof.
  induction a as [|c a IH]; intros st st' rest; simpl.
  - now intros [= ->].
  - destruct (JSON.step st c) as [st1|]; [apply IH | discriminate].
Qed.

Lemma outcome_gap (w rest : string) (e : JSON.Expect) (frames : list JSON.Frame) :
  isGap w = true ->
  outcome (between e frames) (w ++ rest) = outcome (between e frames) rest.
Proof.
  induction w as [|c w IH]; intros Hw; [reflexivity|].
  cbn [isGap allChars] in Hw. apply andb_true_iff in Hw as [Hc Hw].
  cbn [append outcome]. unfold JSON.step. cbn [JSON.lexer between].
  unfold JSON.stepBetween. rewrite Hc. apply IH. exact Hw.
Qed.

Lemma deliver_between (v : Json) (frames : list JSON.Frame) (st' : JSON.State) :
  JSON.deliver v frames = Some st' -> JSON.lexer st' = JSON.Between.
Proof.
  destruct frames as [|[els | ms [k|]] rest]; simpl; intros H; inversion H; reflexivity.
Qed.

(** *** Strings *)

Lemma steps_quoteChar (c : ascii) (acc : list ascii) (e : JSON.Expect)
    (frames : list JSON.Frame) :
  steps (inString acc e frames) (JSON.quoteChar c) = Some (inString (c :: acc) e frames).
Proof.
  destruct c as [[] [] [] [] [] [] [] []]; vm_compute; reflexivity.
Qed.

Lemma steps_app (a b : string) :
  forall st,
    steps st (a ++ b) = match steps st a with Some st' => steps st' b | None => None end.
Proof.
  induction a as [|c a IH]; intros st; simpl; [reflexivity|].
  destruct (JSON.step st c) as [st1|]; [apply IH | reflexivity].
Qed.

Lemma steps_quoteChars (s : string) :
  forall acc e frames,
    steps (inString acc e frames) (JSON.quoteChars s)
    = Some (inString (rev (list_ascii_of_string s) ++ acc)%list e frames).
Proof.
  induction s as [|c s IH]; intros acc e frames; [reflexivity|].
  cbn [JSON.quoteChars list_ascii_of_string rev].
  rewrite steps_app, steps_quoteChar, IH, <- app_assoc. reflexivity.
Qed.

(** A string literal is read as the string it was printed from, as a
    value or as a key. *)
Lemma outcome_quote (s rest : string) (e : JSON.Expect) (frames : list JSON.Frame)
    (std : JSON.State) :
  JSON.onString s (between e frames) = Some std ->
  outcome (between e frames) (JSON.quote s ++ rest) = outcome std rest.
Proof.
  intros Hstd. unfold JSON.quote. cbn [append outcome].
  assert (Hopen : JSON.step (between e frames) JSON.dquote = Some (inString [] e frames)).
  { unfold JSON.step, JSON.stepBetween. cbn [JSON.lexer between JSON.expect JSON.stack].
    replace (JSON.isWhiteSpace JSON.dquote) with false by reflexivity.
    rewrite Ascii.eqb_refl.
    unfold JSON.onString in Hstd. cbn [JSON.expect between] in Hstd.
    destruct (JSON.expectsValue e); [reflexivity|].
    destruct (JSON.expectsKey e); [reflexivity | discriminate]. }
  rewrite Hopen, append_assoc.
  rewrite (outcome_steps _ _ _ _ (steps_quoteChars s [] e frames)).
  cbn [append outcome]. unfold JSON.step. cbn [JSON.lexer inString JSON.expect JSON.stack].
  rewrite Ascii.eqb_refl, app_nil_r, rev_involutive, string_of_list_ascii_of_string.
  fold (between e frames). now rewrite Hstd.
Qed.

(** *** Literals *)

Lemma outcome_literal (v : Json) (word rest : string) (e : JSON.Expect)
    (frames : list JSON.Frame) (std : JSON.State) :
  (v = JNull /\ word = "null") \/ (v = JBool true /\ word = "true")
    \/ (v = JBool false /\ word = "false") ->
  JSON.expectsValue e = true ->
  JSON.deliver v frames = Some std ->
  outcome (between e frames) (word ++ rest) = outcome std rest.
Proof.
  intros Hword He Hstd.
  assert (Hsteps : steps (between e frames) word = Some std).
  { destruct Hword as [[-> ->] | [[-> ->] | [-> ->]]];
      destruct e; try discriminate He;
      lazymatch type of Hstd with
      | JSON.deliver ?x _ = _ =>
          transitivity (match JSON.deliver x frames with Some st' => Some st' | None => None end);
          [reflexivity | now rewrite Hstd]
      end. }
  now apply outcome_steps.
Qed.

(** *** Numbers *)

Lemma step_startNumberAt (c : ascii) (phase : JSON.NumberPhase) (t : JSON.NumberText)
    (e : JSON.Expect) (frames : list JSON.Frame) :
  startNumberAt c = Some (phase, t) ->
  JSON.expectsValue e = true ->
  JSON.step (between e frames) c = Some (inNumber phase t e frames).
Proof.
  intros Hc He.
  destruct c as [[] [] [] [] [] [] [] []]; vm_compute in Hc; try discriminate Hc;
    injection Hc as <- <-; destruct e; try discriminate He; reflexivity.
Qed.

Lemma steps_lexNumber (s : string) :
  forall phase t phase' t' e frames,
    lexNumber phase t s = Some (phase', t') ->
    steps (inNumber phase t e frames) s = Some (inNumber phase' t' e frames).
Proof.
  induction s as [|c s IH]; intros phase t phase' t' e frames; cbn [lexNumber steps].
  - now intros [= -> ->].
  - unfold JSON.step. cbn [JSON.lexer inNumber JSON.expect JSON.stack].
    destruct (JSON.stepNumber phase t c) as [[ | | | | | phase1 t1]|]; try discriminate.
    intros H. now apply IH.
Qed.

Lemma stepNumber_stops (phase : JSON.NumberPhase) (t : JSON.NumberText) (c : ascii) :
  numberChar c = false -> JSON.stepNumber phase t c = None.
Proof.
  unfold numberChar. rewrite !orb_false_iff. intros [[[[Hd Hm] Hp] Hdot] He].
  assert (Hz : Ascii.eqb c "0" = false).
  { destruct (Ascii.eqb c "0") eqn:E; [|reflexivity].
    apply Ascii.eqb_eq in E. subst c. discriminate Hd. }
  unfold JSON.stepNumber. destruct phase; now rewrite ?Hd, ?Hm, ?Hp, ?Hdot, ?He, ?Hz.
Qed.

(** A complete number literal followed by [rest] is the number, once
    [rest] shows that the literal is over. *)
Lemma outcome_flush (phase : JSON.NumberPhase) (t : JSON.NumberText) (e : JSON.Expect)
    (frames : list JSON.Frame) (std : JSON.State) (rest : string) :
  JSON.complete phase = true ->
  JSON.expectsValue e = true ->
  JSON.deliver (JNumber (JSON.numberOfText t)) frames = Some std ->
  endsNumber rest = true ->
  outcome (inNumber phase t e frames) rest = outcome std rest.
Proof.
  intros Hphase He Hstd Hrest.
  pose proof (deliver_between _ _ _ Hstd) as Hlex.
  destruct rest as [|c rest]; cbn [outcome].
  - unfold JSON.finish. cbn [JSON.lexer inNumber JSON.expect JSON.stack].
    rewrite Hphase. unfold JSON.onValue. cbn [JSON.expect JSON.stack].
    rewrite He, Hstd, Hlex. reflexivity.
  - cbn [endsNumber] in Hrest. apply negb_true_iff in Hrest.
    unfold JSON.step at 1. cbn [JSON.lexer inNumber JSON.expect JSON.stack].
    rewrite stepNumber_stops by exact Hrest. rewrite Hphase.
    unfold JSON.onValue. cbn [JSON.expect JSON.stack]. rewrite He, Hstd.
    unfold JSON.step. rewrite Hlex. reflexivity.
Qed.

Lemma sameNumber_eq (a b : Number) : sameNumber a b = true -> a = b.
Proof.
  destruct a as [ma ea], b as [mb eb]. unfold sameNumber. cbn [mantissa exponent].
  rewrite andb_true_iff, !Z.eqb_eq. now intros [-> ->].
Qed.

Lemma outcome_number (n : Number) (rest : string) (e : JSON.Expect)
    (frames : list JSON.Frame) (std : JSON.State) :
  readsBack n = true ->
  JSON.expectsValue e = true ->
  JSON.deliver (JNumber n) frames = Some std ->
  endsNumber rest = true ->
  outcome (between e frames) (Num.toString n ++ rest) = outcome std rest.
Proof.
  unfold readsBack, readLiteral. intros Hn He Hstd Hrest.
  destruct (Num.toString n) as [|c s]; [discriminate|].
  destruct (startNumberAt c) as [[phase t]|] eqn:Hc; [|discriminate].
  destruct (lexNumber phase t s) as [[phase' t']|] eqn:Hs; [|discriminate].
  apply andb_true_iff in Hn as [Hphase Hsame]. apply sameNumber_eq in Hsame.
  cbn [append outcome]. rewrite (step_startNumberAt _ _ _ _ _ Hc He).
  rewrite (outcome_steps _ _ _ _ (steps_lexNumber _ _ _ _ _ e frames Hs)).
  apply outcome_flush; [exact Hphase | exact He | now rewrite Hsame | exact Hrest].
Qed.

(** *** Punctuation *)

Lemma step_open_array (e : JSON.Expect) (frames : list JSON.Frame) :
  JSON.expectsValue e = true ->
  JSON.step (between e frames) "[" = Some (between JSON.ValueOrEnd (JSON.InArray [] :: frames)).
Proof. destruct e; try discriminate; reflexivity. Qed.

Lemma step_open_object (e : JSON.Expect) (frames : list JSON.Frame) :
  JSON.expectsValue e = true ->
  JSON.step (between e frames) "{"
  = Some (between JSON.KeyOrEnd (JSON.InObject [] None :: frames)).
Proof. destruct e; try discriminate; reflexivity. Qed.

Lemma step_close_array (e : JSON.Expect) (acc : list Json) (frames : list JSON.Frame) :
  e = JSON.ValueOrEnd \/ e = JSON.CommaOrEnd ->
  JSON.step (between e (JSON.InArray acc :: frames)) "]"
  = JSON.deliver (JArray (rev acc)) frames.
Proof. intros [-> | ->]; reflexivity. Qed.

Lemma step_close_object (e : JSON.Expect) (acc : Obj.t) (frames : list JSON.Frame) :
  e = JSON.KeyOrEnd \/ e = JSON.CommaOrEnd ->
  JSON.step (between e (JSON.InObject acc None :: frames)) "}"
  = JSON.deliver (JObject acc) frames.
Proof. intros [-> | ->]; reflexivity. Qed.

Lemma step_comma_array (acc : list Json) (frames : list JSON.Frame) :
  JSON.step (between JSON.CommaOrEnd (JSON.InArray acc :: frames)) ","
  = Some (between JSON.Value (JSON.InArray acc :: frames)).
Proof. reflexivity. Qed.

Lemma step_comma_object (acc : Obj.t) (frames : list JSON.Frame) :
  JSON.step (between JSON.CommaOrEnd (JSON.InObject acc None :: frames)) ","
  = Some (between JSON.Key (JSON.InObject acc None :: frames)).
Proof. reflexivity. Qed.

Lemma step_colon (frames : list JSON.Frame) :
  JSON.step (between JSON.Colon frames) ":" = Some (between JSON.Value frames).
Proof. reflexivity. Qed.

Lemma outcome_colon (gap rest : string) (frames : list JSON.Frame) :
  outcome (between JSON.Colon frames) (colon gap ++ rest)
  = outcome (between JSON.Value frames) rest.
Proof.
  unfold colon. destruct (gap =? "")%string; cbn [append outcome]; rewrite step_colon;
    [reflexivity|].
  apply (outcome_gap " "). reflexivity.
Qed.

(** *** The layout of arrays and objects *)

Lemma isGap_lineBreak (gap indent : string) :
  isGap indent = true -> isGap (lineBreak gap indent) = true.
Proof.
  intros H. unfold lineBreak. destruct (gap =? "")%string; [reflexivity | exact H].
Qed.

Lemma isGap_app (a b : string) : isGap a = true -> isGap b = true -> isGap (a ++ b) = true.
Proof. unfold isGap. rewrite allChars_app. now intros -> ->. Qed.

Lemma endsNumber_lineBreak (gap indent rest : string) (c : ascii) :
  numberChar c = false ->
  endsNumber (lineBreak gap indent ++ String c rest) = true.
Proof.
  intros Hc. unfold lineBreak. destruct (gap =? "")%string; cbn; [now rewrite Hc | reflexivity].
Qed.

Lemma serialize_array (gap indent : string) (x : Json) (elements : list Json) :
  JSON.serialize gap indent (JArray (x :: elements))
  = "[" ++ lineBreak gap (indent ++ gap)
      ++ Str.join ("," ++ lineBreak gap (indent ++ gap))
           (map (JSON.serialize gap (indent ++ gap)) (x :: elements))
      ++ lineBreak gap indent ++ "]".
Proof.
  cbn [JSON.serialize map]. unfold lineBreak. destruct (gap =? "")%string; reflexivity.
Qed.

Lemma serialize_object (gap indent : string) (m : string * Json) (members : Obj.t) :
  JSON.serialize gap indent (JObject (m :: members))
  = "{" ++ lineBreak gap (indent ++ gap)
      ++ Str.join ("," ++ lineBreak gap (indent ++ gap))
           (map (printMember gap (indent ++ gap)) (m :: members))
      ++ lineBreak gap indent ++ "}".
Proof.
  assert (E : JSON.serialize gap indent (JObject (m :: members))
              = let partial := map (printMember gap (indent ++ gap)) (m :: members) in
                if (gap =? "")%string then "{" ++ Str.join "," partial ++ "}"
                else "{" ++ JSON.newline ++ (indent ++ gap)
                       ++ Str.join ("," ++ JSON.newline ++ (indent ++ gap)) partial
                       ++ JSON.newline ++ indent ++ "}").
  { cbn [JSON.serialize]. unfold printMember, colon.
    rewrite (map_ext _ (fun member : string * Json =>
               JSON.quote (fst member) ++ (if (gap =? "")%string then ":" else ": ")
                 ++ JSON.serialize gap (indent ++ gap) (snd member)))
      by (intros [k x]; reflexivity).
    reflexivity. }
  rewrite E. unfold lineBreak. destruct (gap =? "")%string; reflexivity.
Qed.

Lemma join_map_cons {A : Type} (f : A -> string) (sep : string) (x y : A) (l : list A) :
  Str.join sep (map f (x :: y :: l)) = f x ++ sep ++ Str.join sep (map f (y :: l)).
Proof. reflexivity. Qed.

(** *** Arrays *)

Lemma outcome_elements (gap indent ws : string) (frames : list JSON.Frame) :
  isGap gap = true -> isGap indent = true -> isGap ws = true ->
  forall elements,
    Forall parsesBack elements -> elements <> [] ->
    forall acc e rest,
      JSON.expectsValue e = true -> endsNumber rest = true ->
      outcome (between e (JSON.InArray acc :: frames))
              (Str.join ("," ++ ws) (map (JSON.serialize gap indent) elements) ++ rest)
      = outcome (between JSON.CommaOrEnd (JSON.InArray (rev elements ++ acc)%list :: frames)) rest.
Proof.
  intros Hgap Hindent Hws. induction elements as [|x elements IH]; [congruence|].
  intros HF _ acc e rest He Hrest. inversion HF as [|? ? Hx HF']; subst.
  destruct elements as [|y elements].
  - cbn [map Str.join rev app]. now apply Hx.
  - rewrite join_map_cons, !append_assoc.
    rewrite (Hx gap indent e (JSON.InArray acc :: frames)
                (between JSON.CommaOrEnd (JSON.InArray (x :: acc) :: frames)))
      by (auto; reflexivity).
    cbn [append outcome]. rewrite step_comma_array, outcome_gap by exact Hws.
    rewrite IH by (auto; discriminate).
    cbn [rev]. now rewrite <- !app_assoc.
Qed.

(** *** Objects *)

Lemma distinct_app (k : string) (before after : list string) :
  distinct (before ++ k :: after) = true -> ~ In k before.
Proof.
  induction before as [|a before IH]; cbn [app distinct]; [tauto|].
  rewrite andb_true_iff, negb_true_iff. intros [Ha Hd] [-> | Hin]; [|now apply IH].
  assert (Hex : existsb (String.eqb k) (before ++ k :: after) = true).
  { apply existsb_exists. exists k. split; [apply in_elt | apply String.eqb_refl]. }
  congruence.
Qed.

(** A new plain key takes the last place. *)
Lemma set_plain (k : string) (x : Json) (acc after : Obj.t) :
  plainKeys (map fst (acc ++ (k, x) :: after)) = true ->
  Obj.set k x acc = (acc ++ [(k, x)])%list.
Proof.
  unfold plainKeys. rewrite andb_true_iff, map_app. cbn [map fst]. intros [Hd Hp].
  apply distinct_app in Hd.
  rewrite forallb_app in Hp. apply andb_true_iff in Hp as [_ Hp].
  cbn [forallb] in Hp. apply andb_true_iff in Hp as [Hk _].
  unfold Obj.set. destruct (Obj.has k acc) eqn:Hhas.
  - apply has_keys in Hhas. contradiction.
  - apply add_last. unfold plainKey in Hk.
    destruct (Obj.arrayIndex k); [discriminate | reflexivity].
Qed.

Lemma outcome_members (gap indent ws : string) (frames : list JSON.Frame) :
  isGap gap = true -> isGap indent = true -> isGap ws = true ->
  forall members,
    Forall (fun m => parsesBack (snd m)) members -> members <> [] ->
    forall acc e rest,
      JSON.expectsKey e = true -> endsNumber rest = true ->
      plainKeys (map fst (acc ++ members)) = true ->
      outcome (between e (JSON.InObject acc None :: frames))
              (Str.join ("," ++ ws) (map (printMember gap indent) members) ++ rest)
      = outcome (between JSON.CommaOrEnd (JSON.InObject (acc ++ members)%list None :: frames))
                rest.
Proof.
  intros Hgap Hindent Hws. induction members as [|[k x] members IH]; [congruence|].
  intros HF _ acc e rest He Hrest Hkeys. inversion HF as [|? ? Hx HF']; subst.
  cbn [snd] in Hx.
  assert (Hmember : forall rest',
             endsNumber rest' = true ->
             outcome (between e (JSON.InObject acc None :: frames))
                     (printMember gap indent (k, x) ++ rest')
             = outcome (between JSON.CommaOrEnd
                          (JSON.InObject (acc ++ [(k, x)])%list None :: frames)) rest').
  { intros rest' Hrest'. unfold printMember. cbn [fst snd]. rewrite !append_assoc.
    rewrite (outcome_quote k _ e _ (between JSON.Colon (JSON.InObject acc (Some k) :: frames)))
      by (destruct e; try discriminate He; reflexivity).
    rewrite outcome_colon.
    apply Hx; auto. cbn [JSON.deliver]. now rewrite (set_plain k x acc members). }
  destruct members as [|m members].
  - cbn [map Str.join]. now apply Hmember.
  - rewrite join_map_cons, !append_assoc, Hmember by reflexivity.
    cbn [append outcome]. rewrite step_comma_object, outcome_gap by exact Hws.
    rewrite IH; [now rewrite <- app_assoc | exact HF' | discriminate | reflexivity
                | exact Hrest | now rewrite <- app_assoc].
Qed.

(** *** Values *)

Lemma wellFormed_parsesBack (v : Json) : wellFormed v = true -> parsesBack v.
Proof.
  induction v as [ | b | n | s | elements IH | members IH] using Json_nested_ind;
    intros Hwf gap indent e frames std rest Hgap Hindent He Hstd Hrest.
  - apply (outcome_literal JNull); auto.
  - destruct b; [apply (outcome_literal (JBool true)) | apply (outcome_literal (JBool false))];
      auto.
  - apply outcome_number; auto. now apply normal_readsBack.
  - apply outcome_quote. unfold JSON.onString. cbn [JSON.expect JSON.stack between].
    now rewrite He.
  - cbn [wellFormed] in Hwf.
    assert (HF : Forall parsesBack elements).
    { clear - IH Hwf. induction IH as [|x l Hx _ IHl]; constructor;
        cbn [forallb] in Hwf; apply andb_true_iff in Hwf as [Hx' Hl]; auto. }
    destruct elements as [|x elements].
    + cbn [JSON.serialize map append outcome].
      rewrite step_open_array by exact He. cbn [append outcome].
      rewrite step_close_array by now left. cbn [rev]. now rewrite Hstd.
    + rewrite serialize_array, !append_assoc. cbn [append outcome].
      rewrite step_open_array by exact He.
      rewrite outcome_gap by now apply isGap_lineBreak, isGap_app.
      rewrite (outcome_elements gap (indent ++ gap) (lineBreak gap (indent ++ gap)));
        [ | exact Hgap | now apply isGap_app | now apply isGap_lineBreak, isGap_app
          | exact HF | discriminate | reflexivity | now apply endsNumber_lineBreak ].
      rewrite outcome_gap by now apply isGap_lineBreak.
      cbn [append outcome]. rewrite step_close_array by now right.
      now rewrite app_nil_r, rev_involutive, Hstd.
  - cbn [wellFormed] in Hwf. apply andb_true_iff in Hwf as [Hkeys Hwf].
    assert (HF : Forall (fun m => parsesBack (snd m)) members).
    { clear - IH Hwf. induction IH as [|x l Hx _ IHl]; constructor;
        cbn [forallb] in Hwf; apply andb_true_iff in Hwf as [Hx' Hl]; auto. }
    destruct members as [|m members].
    + cbn [JSON.serialize map append outcome].
      rewrite step_open_object by exact He. cbn [append outcome].
      rewrite step_close_object by now left. now rewrite Hstd.
    + rewrite serialize_object, !append_assoc. cbn [append outcome].
      rewrite step_open_object by exact He.
      rewrite outcome_gap by now apply isGap_lineBreak, isGap_app.
      rewrite (outcome_members gap (indent ++ gap) (lineBreak gap (indent ++ gap)));
        [ | exact Hgap | now apply isGap_app | now apply isGap_lineBreak, isGap_app
          | exact HF | discriminate | reflexivity | now apply endsNumber_lineBreak
          | exact Hkeys ].
      rewrite outcome_gap by now apply isGap_lineBreak.
      cbn [append outcome]. rewrite step_close_object by now right.
      cbn [app]. now rewrite Hstd.
Qed.

Lemma isGap_spaces (n : nat) : isGap (Str.spaces n) = true.
Proof. induction n as [|n IH]; [reflexivity | exact IH]. Qed.

(** [JSON.parse(JSON.stringify(v, null, space))] is [v]. *)
Lemma stringify_parse (v : Json) (space : nat) :
  wellFormed v = true -> JSON.parse (JSON.stringify v space) = Normal v.
Proof.
  intros Hwf. unfold JSON.parse, JSON.stringify.
  rewrite (outcome_run _ JSON.initial v 0); [reflexivity|].
  rewrite <- (append_nil_r (JSON.serialize _ _ v)).
  rewrite (wellFormed_parsesBack v Hwf _ "" JSON.Value [] (between (JSON.Done v) []));
    auto using isGap_spaces.
Qed.

(** *** What the formatter prints, the validator reads *)

Lemma startNumberAt_visible (c : ascii) :
  startNumberAt c <> None -> Str.isWhiteSpace c = false.
Proof.
  destruct c as [[] [] [] [] [] [] [] []]; vm_compute; congruence.
Qed.

Lemma serialize_visible (gap indent : string) (v : Json) :
  wellFormed v = true -> allWhiteSpace (JSON.serialize gap indent v) = false.
Proof.
  intros Hwf. destruct v as [ | [|] | n | s | [|x elements] | [|m members]];
    try reflexivity.
  - cbn [wellFormed] in Hwf. apply normal_readsBack in Hwf.
    unfold readsBack, readLiteral in Hwf. cbn [JSON.serialize].
    destruct (Num.toString n) as [|c s]; [discriminate|].
    cbn [allWhiteSpace]. rewrite startNumberAt_visible; [reflexivity|].
    destruct (startNumberAt c); [discriminate | discriminate Hwf].
  - rewrite serialize_array. reflexivity.
  - rewrite serialize_object. reflexivity.
Qed.

Lemma validate_format (v : Json) :
  wellFormed v = true ->
  validateSchema (formatSchema v)
  = Normal match v with JObject _ => accepted v | _ => notAnObject end.
Proof.
  intros Hwf. unfold validateSchema.
  rewrite isBlank_allWhiteSpace. unfold formatSchema at 1, JSON.stringify.
  rewrite serialize_visible by exact Hwf.
  unfold formatSchema. rewrite stringify_parse by exact Hwf.
  destruct v; reflexivity.
Qed.

(** *** [createSchema] builds well-formed objects *)

Lemma distinct_last (k : string) (ks : list string) :
  distinct ks = true -> ~ In k ks -> distinct (ks ++ [k]) = true.
Proof.
  induction ks as [|a ks IH]; [reflexivity|]. cbn [app distinct].
  rewrite !andb_true_iff, !negb_true_iff. intros [Ha Hd] Hk. split.
  - rewrite existsb_app, Ha. cbn [existsb]. rewrite orb_false_r.
    apply String.eqb_neq. intros ->. apply Hk. now left.
  - apply IH; [exact Hd | intros Hin; apply Hk; now right].
Qed.

Lemma replace_keys (k : string) (x : Json) (o : Obj.t) :
  map fst (Obj.replace k x o) = map fst o.
Proof.
  induction o as [|[k' x'] o IH]; [reflexivity|]. cbn [Obj.replace].
  destruct (k' =? k)%string; cbn [map fst]; [reflexivity | now rewrite IH].
Qed.

Lemma replace_wellFormed (k : string) (x : Json) (o : Obj.t) :
  wellFormed x = true ->
  forallb (fun m => wellFormed (snd m)) o = true ->
  forallb (fun m => wellFormed (snd m)) (Obj.replace k x o) = true.
Proof.
  intros Hx. induction o as [|[k' x'] o IH]; [reflexivity|]. cbn [Obj.replace forallb snd].
  rewrite andb_true_iff. intros [Hx' Ho].
  destruct (k' =? k)%string; cbn [forallb snd]; [now rewrite Hx, Ho|].
  now rewrite Hx', IH.
Qed.

(** [o[k] = x] keeps an object well formed. *)
Lemma set_wellFormed (k : string) (x : Json) (o : Obj.t) :
  plainKey k = true -> wellFormed x = true ->
  wellFormed (JObject o) = true -> wellFormed (JObject (Obj.set k x o)) = true.
Proof.
  intros Hk Hx. cbn [wellFormed]. unfold plainKeys. rewrite !andb_true_iff.
  intros [[Hd Hp] Ho]. unfold Obj.set. destruct (Obj.has k o) eqn:Hhas.
  - rewrite replace_keys. repeat split; auto. now apply replace_wellFormed.
  - rewrite add_last by (unfold plainKey in Hk; now destruct (Obj.arrayIndex k)).
    rewrite map_app, !forallb_app. cbn [map fst snd forallb].
    rewrite Hp, Hk, Ho, Hx. repeat split.
    apply distinct_last; [exact Hd|]. intros Hin.
    apply has_keys_iff in Hin. congruence.
Qed.

Lemma fieldSchema_wellFormed (k : string) (value : FieldSpec) :
  wellFormedField (k, value) = true -> wellFormed (JObject (fieldSchema value)) = true.
Proof.
  unfold wellFormedField. cbn [fst snd]. rewrite !andb_true_iff.
  intros [[[_ Hitems] Hmin] Hmax]. unfold fieldSchema.
  destruct (maximum value) as [mx|]; [apply set_wellFormed; [reflexivity | exact Hmax |]|];
    (destruct (minimum value) as [mn|]; [apply set_wellFormed; [reflexivity | exact Hmin |]|]);
    (destruct (items value) as [i|];
       [destruct (truthy i); [apply set_wellFormed; [reflexivity | exact Hitems |]|]|]);
    reflexivity.
Qed.

Lemma fold_addField_wellFormed (properties : list (string * FieldSpec)) :
  forallb wellFormedField properties = true ->
  forall acc, wellFormed (JObject acc) = true ->
    wellFormed (JObject (fold_left addField properties acc)) = true.
Proof.
  induction properties as [|[k value] properties IH]; intros Hps acc Hacc; [exact Hacc|].
  cbn [forallb] in Hps. apply andb_true_iff in Hps as [Hp Hps].
  cbn [fold_left addField]. apply IH; [exact Hps|].
  pose proof Hp as Hk. unfold wellFormedField in Hk. cbn [fst] in Hk.
  rewrite !andb_true_iff, negb_true_iff in Hk. destruct Hk as [[[[Hplain Hproto] _] _] _].
  unfold Obj.assign. rewrite Hproto.
  apply set_wellFormed; [exact Hplain | now apply (fieldSchema_wellFormed k) | exact Hacc].
Qed.

Lemma wellFormed_members (members : Obj.t) :
  wellFormed (JObject members)
  = plainKeys (map fst members) && forallb (fun m => wellFormed (snd m)) members.
Proof. reflexivity. Qed.

Lemma createSchema_wellFormed (properties : list (string * FieldSpec)) (required : list string) :
  forallb wellFormedField properties = true ->
  wellFormed (createSchema properties required) = true.
Proof.
  intros Hps. unfold createSchema.
  change (fold_left _ properties []) with (fold_left addField properties []).
  pose proof (fold_addField_wellFormed properties Hps [] eq_refl) as Hfold.
  assert (Hreq : wellFormed (JArray (map JString required)) = true)
    by (induction required as [|r required IH]; [reflexivity | exact IH]).
  rewrite wellFormed_members. cbn [map fst snd forallb]. rewrite Hfold, Hreq. reflexivity.
Qed.

(** ** Extras: the formatter and the validator together *)

(** X17: for every well-formed value (normal numbers, and in each
    object distinct keys none of which is an array index; strings,
    nesting and sizes are free), parsing the text that [formatSchema]
    prints gives the value back. *)
Theorem formatSchema_parse_any (v : Json) :
  wellFormed v = true -> JSON.parse (formatSchema v) = Normal v.
Proof. intros Hwf. now apply stringify_parse. Qed.

Lemma formatSchema_parse_any_witness :
  JSON.parse (formatSchema editedSchema) = Normal editedSchema.
Proof. apply formatSchema_parse_any. vm_compute. reflexivity. Defined.

(** An object with an array index after another key is not read back
    as it was written: the index comes first. *)
Example index_keys_come_first :
  wellFormed indexAfterName = false /\
  JSON.parse (formatSchema indexAfterName) = Normal (JObject [("1", JNull); ("b", JNull)]).
Proof. split; vm_compute; reflexivity. Qed.

(** X18: [validateSchema] accepts the text that [formatSchema] prints
    for a well-formed value exactly when the value is an object, and
    then returns that object as [parsed]; for an array, a string, a
    number, a boolean or [null] it answers with the fixed message. *)
Theorem validateSchema_formatSchema (v : Json) :
  wellFormed v = true ->
  validateSchema (formatSchema v)
  = Normal match v with JObject _ => accepted v | _ => notAnObject end.
Proof. apply validate_format. Qed.

Lemma validateSchema_formatSchema_witness :
  validateSchema (formatSchema editedSchema) = Normal (accepted editedSchema) /\
  validateSchema (formatSchema (JArray [editedSchema])) = Normal notAnObject.
Proof.
  split.
  - apply (validateSchema_formatSchema editedSchema). vm_compute. reflexivity.
  - apply (validateSchema_formatSchema (JArray [editedSchema])). vm_compute. reflexivity.
Defined.

(** X19: the text that [schemaToString] puts into an editor for a
    well-formed object is always accepted by [validateSchema], and read
    as the object it was printed from, also when the object is empty and
    the text with it. *)
Theorem schemaToString_validates (members : Obj.t) :
  wellFormed (JObject members) = true ->
  validateSchema (schemaToString (Some (JObject members))) = Normal (accepted (JObject members)).
Proof.
  intros Hwf. destruct members as [|m members]; [reflexivity|].
  change (schemaToString (Some (JObject (m :: members))))
    with (formatSchema (JObject (m :: members))).
  now apply (validate_format (JObject (m :: members))).
Qed.

Lemma schemaToString_validates_witness :
  validateSchema (schemaToString (Some editedSchema)) = Normal (accepted editedSchema).
Proof. apply schemaToString_validates. vm_compute. reflexivity. Defined.

(** ** [schemaToString] and members that are [undefined] *)

Lemma definedMembers_record (members : Obj.t) : definedMembers (record members) = members.
Proof.
  induction members as [|[k v] members IH]; [reflexivity|].
  cbn [record map fst snd definedMembers]. fold (record members). now rewrite IH.
Qed.

Lemma formatSchema_not_braces (m : string * Json) (members : Obj.t) :
  formatSchema (JObject (m :: members)) <> "{}" /\ formatSchema (JObject (m :: members)) <> "".
Proof.
  unfold formatSchema, JSON.stringify. rewrite serialize_object.
  split; intros H; cbn in H; discriminate H.
Qed.

(** A record whose only member is [undefined] has a key and is printed
    as the empty object. *)
Example undefined_member_prints_braces :
  schemaToStringRecord (Some [("a", Undefined)]) = "{}" /\
  schemaToStringRecord (Some [("a", Undefined); ("b", Defined JNull)])
  = formatSchema (JObject [("b", JNull)]).
Proof. split; reflexivity. Qed.

(** X8: on a record whose members are JSON values or [undefined],
    [schemaToString] returns the empty string exactly when the record is
    absent or has no key, and the text of the empty object exactly when
    the record has keys and all its members are [undefined]
    ([Object.keys] counts them, [JSON.stringify] leaves them out); so a
    record with a defined member, like every JSON object, is never
    printed as the empty object. *)
Theorem schemaToString_braces (r : list (string * Member)) :
  schemaToStringRecord None = "" /\
  (schemaToStringRecord (Some r) = "" <-> r = []) /\
  (schemaToStringRecord (Some r) = "{}" <-> r <> [] /\ definedMembers r = []) /\
  (forall members,
     schemaToStringRecord (Some (record members)) = schemaToString (Some (JObject members)) /\
     schemaToString (Some (JObject members)) <> "{}").
Proof.
  split; [reflexivity|]. split; [|split].
  - split; [|now intros ->]. destruct r as [|m r]; [reflexivity|].
    cbn [schemaToStringRecord List.length Nat.eqb]. intros H. exfalso.
    destruct (definedMembers (m :: r)) as [|x xs]; [discriminate H|].
    now apply (formatSchema_not_braces x xs).
  - destruct r as [|m r].
    + split; [discriminate | intros [H _]; now elim H].
    + cbn [schemaToStringRecord List.length Nat.eqb]. split.
      * intros H. split; [discriminate|].
        destruct (definedMembers (m :: r)) as [|x xs]; [reflexivity|].
        now apply (formatSchema_not_braces x xs) in H.
      * intros [_ ->]. reflexivity.
  - intros members. destruct members as [|m members]; [split; [reflexivity | discriminate]|].
    split; [|apply (formatSchema_not_braces m members)].
    unfold schemaToStringRecord. rewrite definedMembers_record. reflexivity.
Qed.

(** X20: for a descriptor whose field names are neither array indices
    nor "__proto__", whose bounds are normal numbers and whose items are
    well formed, the schema that [createSchema] builds is accepted by
    [validateSchema] after [formatSchema], and read back unchanged;
    [required] may name anything. *)
Theorem createSchema_round_trip (properties : list (string * FieldSpec))
    (required : list string) :
  forallb wellFormedField properties = true ->
  validateSchema (formatSchema (createSchema properties required))
  = Normal (accepted (createSchema properties required)).
Proof.
  intros Hps. now apply (validate_format (createSchema properties required)),
    createSchema_wellFormed.
Qed.

Lemma createSchema_round_trip_witness :
  validateSchema (formatSchema (createSchema surveyFields ["rating"; "missing"]))
  = Normal (accepted (createSchema surveyFields ["rating"; "missing"])).
Proof. apply createSchema_round_trip. vm_compute. reflexivity. Defined.
